(** * supersaiyan: expression model, shape-sniffing decoder and value resolver

    A shallow embedding of the Go package [supersaiyan] (a struct-based SQL
    builder on top of goqu), followed by the properties of its decoder
    ([unmarshalCondition], [unmarshalExpression]), of its dynamic value
    resolver ([handleAny]) and of the builder entry points ([Select],
    [Count], [Edit], [Delete]).

    Conventions of the embedding:
    - a JSON document ([[]byte] holding JSON that encoding/json accepts:
      well-formed and nested at most 10000 deep) is its parsed tree [json],
      the members of an object in document order, repeated keys included,
      strings as the decoder's [unquote] delivers them, numbers restricted
      to integers (of any size: 1e999 is one);
    - a float64 is given by the integer it holds, a Go [int] by its value;
      the remaining numbers of Go do not occur;
    - a slice is its list of elements: the nil slice and the empty slice
      are both the empty list, and where Go tells them apart (in
      [json.Marshal]) the embedding says nothing;
    - a Go error return is the [Err] case of [result], a run-time panic is
      [Panic];
    - goqu is an external library: its expression constructors and builder
      methods are kept symbolic (the inductive [Expression] and the clause
      records [SelectDataset], [UpdateDataset], [DeleteDataset]) and are
      taken to return; the final rendering [ToSQL] is not interpreted. *)

From Stdlib Require Import String Ascii List ZArith NArith Bool Lia Permutation.
Import ListNotations.
Open Scope string_scope.

Set Implicit Arguments.
Set Warnings "-register-all".

(* ================================================================== *)
(** ** JSON trees as seen by encoding/json *)

Module JSON.

(** Numbers are restricted to integers; the members of an object are kept
    in document order, repeated keys included. *)
Inductive json : Type :=
| JNull
| JBool (b : bool)
| JNumber (n : Z)
| JString (s : string)
| JArray (elems : list json)
| JObject (members : list (string * json)).

(** Case folding, used by encoding/json when it matches an object key
    against a struct field name: Unicode simple folding.  The field names
    of the package are ASCII, and besides the ASCII letter of the other
    case only two characters fold to an ASCII letter: the Kelvin sign
    U+212A (bytes E2 84 AA) to k and the long s U+017F (bytes C5 BF) to s.
    [fold_name] maps a key to a representative of its class; on the field
    names it is lower-casing. *)
Definition lower_ascii (c : ascii) : ascii :=
  let n := nat_of_ascii c in
  if andb (Nat.leb 65 n) (Nat.leb n 90) then ascii_of_nat (n + 32) else c.

Definition is_byte (n : nat) (c : ascii) : bool := Nat.eqb (nat_of_ascii c) n.

Fixpoint fold_name (s : string) : string :=
  match s with
  | EmptyString => EmptyString
  | String c rest =>
      match rest with
      | String c1 rest1 =>
          if is_byte 197 c && is_byte 191 c1 then String "s" (fold_name rest1)
          else
            match rest1 with
            | String c2 rest2 =>
                if is_byte 226 c && is_byte 132 c1 && is_byte 170 c2
                then String "k" (fold_name rest2)
                else String (lower_ascii c) (fold_name rest)
            | EmptyString => String (lower_ascii c) (fold_name rest)
            end
      | EmptyString => String (lower_ascii c) (fold_name rest)
      end
  end.

Section Lookup.
Context {A : Type}.
Variable same : string -> string -> bool.
Variable f : json -> A.

(** The last member, in document order, whose key matches [key].  The
    continuation [f] is applied to the value found, so that a decoder can
    recurse into it. *)
Fixpoint find_with (key : string) (members : list (string * json))
  : option A :=
  match members with
  | [] => None
  | (k, v) :: rest =>
      match find_with key rest with
      | Some r => Some r
      | None => if same k key then Some (f v) else None
      end
  end.
End Lookup.

(** [typeDetector[key]] on a [map[string]json.RawMessage]: exact keys, a
    later member replacing an earlier one with the same key. *)
Definition map_get {A} (f : json -> A) := find_with String.eqb f.
Definition has_key (key : string) (members : list (string * json)) : bool :=
  match map_get (fun _ => tt) key members with Some _ => true | None => false end.

(** A key names the struct field tagged [name] when the two are equal up
    to case folding. *)
Definition names_field (k name : string) : bool :=
  String.eqb (fold_name k) (fold_name name).

(** The last member decoded into the struct field tagged [name]. *)
Definition field_get {A} (f : json -> A) (name : string) :=
  find_with names_field f name.

(** All the values decoded into the struct field tagged [name], in document
    order: encoding/json decodes every member of an object, one after the
    other. *)
Definition bindings (name : string) (members : list (string * json)) : list json :=
  map snd (filter (fun kv => names_field (fst kv) name) members).

End JSON.
Import JSON.

(* ================================================================== *)
(** ** Results of fallible Go code *)

(** Errors returned by the package and by encoding/json. *)
Inductive error : Type :=
| UnmarshalTypeError                       (* *json.UnmarshalTypeError *)
| ErrUnknownCondition                      (* "unknown condition type" *)
| ErrUnknownExpression                     (* "unknown expression type" *)
| ErrMissingWhereCondition
| Wrapf (msg : string) (index : option nat) (cause : error).  (* fmt.Errorf("...%d: %w") *)

Inductive result (A : Type) : Type :=
| Ok (a : A)
| Err (e : error)
| Panic.
Arguments Ok {A} a.
Arguments Err {A} e.
Arguments Panic {A}.

Definition bind {A B} (r : result A) (k : A -> result B) : result B :=
  match r with
  | Ok a => k a
  | Err e => Err e
  | Panic => Panic
  end.

Notation "x <- r ;; k" := (bind r (fun x => k))
  (at level 61, r at next level, right associativity).

Definition fmap {A B} (f : A -> B) (r : result A) : result B :=
  x <- r ;; Ok (f x).

(** [if err != nil { return fmt.Errorf(msg, i, err) }] *)
Definition wrap {A} (msg : string) (index : option nat) (r : result A) : result A :=
  match r with
  | Err e => Err (Wrapf msg index e)
  | other => other
  end.

Section Traverse.
Context {A B : Type}.
Variable f : A -> result B.

(** A [for i, x := range xs] loop that stops at the first failure. *)
Fixpoint traverse (xs : list A) : result (list B) :=
  match xs with
  | [] => Ok []
  | x :: rest =>
      y <- f x ;;
      ys <- traverse rest ;;
      Ok (y :: ys)
  end.

(** The same loop, wrapping a failure with the index it occurred at. *)
Fixpoint traverse_at (msg : string) (i : nat) (xs : list A) : result (list B) :=
  match xs with
  | [] => Ok []
  | x :: rest =>
      y <- wrap msg (Some i) (f x) ;;
      ys <- traverse_at msg (S i) rest ;;
      Ok (y :: ys)
  end.

(** The loop [for _, x := range xs { if e := f(x); e != nil { out = append(out, e) } }] *)
Fixpoint collect (g : A -> result (option B)) (xs : list A) : result (list B) :=
  match xs with
  | [] => Ok []
  | x :: rest =>
      e <- g x ;;
      out <- collect g rest ;;
      Ok match e with
         | Some e => e :: out
         | None => out
         end
  end.

(** The loop [for _, x := range xs { acc = step(x, acc) }] *)
Fixpoint thread (step : A -> B -> result B) (xs : list A) (acc : B) : result B :=
  match xs with
  | [] => Ok acc
  | x :: rest => acc' <- step x acc ;; thread step rest acc'
  end.
End Traverse.
Arguments collect {A B} g xs.
Arguments thread {A B} step xs acc.

(* ================================================================== *)
(** ** goqu/exp enumerations *)

Module exp.

(** [exp.BooleanOperation] is an [int]; the named constants are the
    operator enumeration, [OtherBooleanOperation] stands for any other
    value of the underlying type. *)
Inductive BooleanOperation : Type :=
| EqOp | NeqOp | IsOp | IsNotOp | GtOp | GteOp | LtOp | LteOp
| InOp | NotInOp | LikeOp | NotLikeOp | ILikeOp | NotILikeOp
| RegexpLikeOp | RegexpNotLikeOp | RegexpILikeOp | RegexpNotILikeOp
| OtherBooleanOperation (code : Z).

Inductive RangeOperation : Type :=
| BetweenOp | NotBetweenOp | OtherRangeOperation (code : Z).

Inductive ExpressionListType : Type :=
| AndType | OrType | OtherExpressionListType (code : Z).

Inductive JoinType : Type :=
| InnerJoinType | LeftJoinType | RightJoinType
| FullOuterJoinType | CrossJoinType | OtherJoinType (code : Z).

Inductive SortDirection : Type :=
| AscDir | DescSortDir | OtherSortDirection (code : Z).

End exp.
Import exp.

(* ================================================================== *)
(** ** Go values and the structs of the package *)

(** The join methods of [*goqu.SelectDataset] the package calls. *)
Inductive JoinMethod : Type := InnerJoin | LeftJoin | RightJoin | PlainJoin.

(** The pointer types the package tells apart: a pointer to one of the
    three condition structs implements [Condition], any other does not. *)
Inductive PointerType : Type :=
| ToBoolOp | ToRangeOp | ToWhereGroup | ToOther.

Record Sort : Type := mkSort {
  Sort_Name : string;
  Sort_TableAlias : string;
  Sort_Order : SortDirection }.

(** [any] is the universe of dynamic Go values the package handles.  Values
    are finite trees: a Go value that reaches itself through a slice's
    backing array has no counterpart here.  A slice is its element list (a
    nil slice and an empty one both have length 0 and are both []); every
    slice type is represented by [Slice].

    [Expression] lists the goqu calls the package makes, each standing for
    the object the call returns.  These objects are struct values, but for
    the dataset [mainSelect] returns, which is a pointer
    ([*goqu.SelectDataset]): [reflect] sees it as a pointer, and what it
    points to, a struct with pointer-receiver methods, is no
    [exp.Expression]. *)
Inductive any : Type :=
| Nil                                        (* the nil interface value *)
| NilPointer (t : PointerType)               (* a nil pointer, of type t *)
| Pointer (pointee : any)                    (* the address of a value; of type *any for pointee Nil *)
| GoString (s : string)
| GoBool (b : bool)
| GoInt (n : Z)                              (* an int of value n *)
| GoFloat64 (n : Z)                          (* the float64 of value n *)
| Slice (elems : list any)
| GoMap (entries : list (string * any))      (* map[string]any *)
| OfSQLBuilder (qb : SQLBuilder)
| OfField (f : Field)
| OfBoolOp (bo : BoolOp)
| OfWhereGroup (wg : WhereGroup)
| OfRangeOp (ro : RangeOp)
| OfLiteral (l : Literal)
| OfCase (c : Case)
| OfCoalesce (co : Coalesce)
| OfExpression (e : Expression)              (* a value implementing exp.Expression *)
| OfSelectDatasetStruct (ds : SelectDataset) (* a goqu.SelectDataset struct, what a
                                                *goqu.SelectDataset points to *)

with Field : Type := mkField
    (Field_Name : string)
    (Field_TableAlias : string)
    (Field_FieldAlias : string)
    (Field_Exp : any)

with BoolOp : Type := mkBoolOp
    (BoolOp_Op : BooleanOperation)
    (BoolOp_FieldName : string)
    (BoolOp_TableAlias : string)
    (BoolOp_Value : any)

with RangeOp : Type := mkRangeOp
    (RangeOp_Op : RangeOperation)
    (RangeOp_FieldName : string)
    (RangeOp_TableAlias : string)
    (RangeOp_Start : any)
    (RangeOp_End : any)

with WhereGroup : Type := mkWhereGroup
    (WhereGroup_Op : ExpressionListType)
    (WhereGroup_Conditions : list any)

with Literal : Type := mkLiteral
    (Literal_Value : string)
    (Literal_Args : list any)

with WhenThen : Type := mkWhenThen
    (WhenThen_When : any)
    (WhenThen_Then : any)

with Case : Type := mkCase
    (Case_Conditions : list WhenThen)
    (Case_Else : any)

with Coalesce : Type := mkCoalesce
    (Coalesce_Fields : list Field)
    (Coalesce_DefaultValue : any)

with Table : Type := mkTable
    (Table_Name : string)
    (Table_Alias : string)
    (Table_Relations : list Relation)

with Relation : Type := mkRelation
    (Relation_JoinType : JoinType)
    (Relation_On : list any)
    (Relation_Table : Table)

with SQLBuilder : Type := mkSQLBuilder
    (Dialect : string)
    (Fields : list Field)
    (SQLBuilder_Table : Table)
    (Wheres : list any)
    (Sorts : list Sort)
    (GroupBy : list Field)
    (limit : N)
    (offset : N)

with Expression : Type :=
| goqu_L (sql : string) (args : list any)            (* goqu.L(sql, args...) *)
| goqu_V (val : any)                                 (* goqu.V(val) *)
| goqu_C_Table (col table : string)                  (* goqu.C(col).Table(table) *)
| As (e : Expression) (alias : string)               (* e.As(alias) *)
| BooleanMethod (op : BooleanOperation) (lhs : Expression) (val : any)
                                                     (* lhs.Eq(val), lhs.Neq(val), ... *)
| goqu_Range (start stop : any)                      (* goqu.Range(start, stop) *)
| Between (lhs rangeVal : Expression)                (* lhs.Between(rangeVal) *)
| NotBetween (lhs rangeVal : Expression)             (* lhs.NotBetween(rangeVal) *)
| goqu_And (exps : list Expression)                  (* goqu.And(exps...) *)
| goqu_Or (exps : list Expression)                   (* goqu.Or(exps...) *)
| goqu_COALESCE (args : list any)                    (* goqu.COALESCE(args...) *)
| goqu_Case                                          (* goqu.Case() *)
| When (c : Expression) (cond val : any)             (* c.When(cond, val) *)
| Else (c : Expression) (val : any)                  (* c.Else(val) *)
| goqu_COUNT_Star                                    (* goqu.COUNT(goqu.Star()) *)
| Asc (e : Expression)                               (* e.Asc() *)
| Desc (e : Expression)                              (* e.Desc() *)
| OfSelectDataset (ds : SelectDataset)               (* a non-nil *goqu.SelectDataset *)

(** A [*goqu.SelectDataset] is the clauses its builder methods recorded. *)
with SelectDataset : Type := mkSelectDataset
    (sd_from : string * string)              (* goqu.From(goqu.T(name).As(alias)) *)
    (sd_dialect : string)                    (* WithDialect(d) *)
    (sd_joins : list Join)                   (* InnerJoin, LeftJoin, RightJoin, Join *)
    (sd_select : list any)                   (* Select(cols...), [] when never called *)
    (sd_where : list (option Expression))    (* Where(exps...), a nil exps[i] is None *)
    (sd_order : list Expression)             (* Order(exps...) *)
    (sd_groupBy : list any)                  (* GroupBy(cols...) *)
    (sd_limit : option N)                    (* Limit(n), None when never called *)
    (sd_offset : option N)                   (* Offset(n), None when never called *)
    (sd_prepared : bool)

(** One join call: the method, the table [goqu.T(name).As(alias)] and the
    conditions given to [goqu.On]. *)
with Join : Type := mkJoin
    (join_method : JoinMethod)
    (join_table : string * string)
    (join_on : list (option Expression)).

(** Field selectors of the structs. *)
Definition Field_Name (v : Field) : string :=
  match v with mkField x _ _ _ => x end.
Definition Field_TableAlias (v : Field) : string :=
  match v with mkField _ x _ _ => x end.
Definition Field_FieldAlias (v : Field) : string :=
  match v with mkField _ _ x _ => x end.
Definition Field_Exp (v : Field) : any :=
  match v with mkField _ _ _ x => x end.
Definition BoolOp_Op (v : BoolOp) : BooleanOperation :=
  match v with mkBoolOp x _ _ _ => x end.
Definition BoolOp_FieldName (v : BoolOp) : string :=
  match v with mkBoolOp _ x _ _ => x end.
Definition BoolOp_TableAlias (v : BoolOp) : string :=
  match v with mkBoolOp _ _ x _ => x end.
Definition BoolOp_Value (v : BoolOp) : any :=
  match v with mkBoolOp _ _ _ x => x end.
Definition RangeOp_Op (v : RangeOp) : RangeOperation :=
  match v with mkRangeOp x _ _ _ _ => x end.
Definition RangeOp_FieldName (v : RangeOp) : string :=
  match v with mkRangeOp _ x _ _ _ => x end.
Definition RangeOp_TableAlias (v : RangeOp) : string :=
  match v with mkRangeOp _ _ x _ _ => x end.
Definition RangeOp_Start (v : RangeOp) : any :=
  match v with mkRangeOp _ _ _ x _ => x end.
Definition RangeOp_End (v : RangeOp) : any :=
  match v with mkRangeOp _ _ _ _ x => x end.
Definition WhereGroup_Op (v : WhereGroup) : ExpressionListType :=
  match v with mkWhereGroup x _ => x end.
Definition WhereGroup_Conditions (v : WhereGroup) : list any :=
  match v with mkWhereGroup _ x => x end.
Definition Literal_Value (v : Literal) : string :=
  match v with mkLiteral x _ => x end.
Definition Literal_Args (v : Literal) : list any :=
  match v with mkLiteral _ x => x end.
Definition WhenThen_When (v : WhenThen) : any :=
  match v with mkWhenThen x _ => x end.
Definition WhenThen_Then (v : WhenThen) : any :=
  match v with mkWhenThen _ x => x end.
Definition Case_Conditions (v : Case) : list WhenThen :=
  match v with mkCase x _ => x end.
Definition Case_Else (v : Case) : any :=
  match v with mkCase _ x => x end.
Definition Coalesce_Fields (v : Coalesce) : list Field :=
  match v with mkCoalesce x _ => x end.
Definition Coalesce_DefaultValue (v : Coalesce) : any :=
  match v with mkCoalesce _ x => x end.
Definition Table_Name (v : Table) : string :=
  match v with mkTable x _ _ => x end.
Definition Table_Alias (v : Table) : string :=
  match v with mkTable _ x _ => x end.
Definition Table_Relations (v : Table) : list Relation :=
  match v with mkTable _ _ x => x end.
Definition Relation_JoinType (v : Relation) : JoinType :=
  match v with mkRelation x _ _ => x end.
Definition Relation_On (v : Relation) : list any :=
  match v with mkRelation _ x _ => x end.
Definition Relation_Table (v : Relation) : Table :=
  match v with mkRelation _ _ x => x end.
Definition Dialect (v : SQLBuilder) : string :=
  match v with mkSQLBuilder x _ _ _ _ _ _ _ => x end.
Definition Fields (v : SQLBuilder) : list Field :=
  match v with mkSQLBuilder _ x _ _ _ _ _ _ => x end.
Definition SQLBuilder_Table (v : SQLBuilder) : Table :=
  match v with mkSQLBuilder _ _ x _ _ _ _ _ => x end.
Definition Wheres (v : SQLBuilder) : list any :=
  match v with mkSQLBuilder _ _ _ x _ _ _ _ => x end.
Definition Sorts (v : SQLBuilder) : list Sort :=
  match v with mkSQLBuilder _ _ _ _ x _ _ _ => x end.
Definition GroupBy (v : SQLBuilder) : list Field :=
  match v with mkSQLBuilder _ _ _ _ _ x _ _ => x end.
Definition limit (v : SQLBuilder) : N :=
  match v with mkSQLBuilder _ _ _ _ _ _ x _ => x end.
Definition offset (v : SQLBuilder) : N :=
  match v with mkSQLBuilder _ _ _ _ _ _ _ x => x end.
Definition sd_from (v : SelectDataset) : string * string :=
  match v with mkSelectDataset x _ _ _ _ _ _ _ _ _ => x end.
Definition sd_dialect (v : SelectDataset) : string :=
  match v with mkSelectDataset _ x _ _ _ _ _ _ _ _ => x end.
Definition sd_joins (v : SelectDataset) : list Join :=
  match v with mkSelectDataset _ _ x _ _ _ _ _ _ _ => x end.
Definition sd_select (v : SelectDataset) : list any :=
  match v with mkSelectDataset _ _ _ x _ _ _ _ _ _ => x end.
Definition sd_where (v : SelectDataset) : list (option Expression) :=
  match v with mkSelectDataset _ _ _ _ x _ _ _ _ _ => x end.
Definition sd_order (v : SelectDataset) : list Expression :=
  match v with mkSelectDataset _ _ _ _ _ x _ _ _ _ => x end.
Definition sd_groupBy (v : SelectDataset) : list any :=
  match v with mkSelectDataset _ _ _ _ _ _ x _ _ _ => x end.
Definition sd_limit (v : SelectDataset) : option N :=
  match v with mkSelectDataset _ _ _ _ _ _ _ x _ _ => x end.
Definition sd_offset (v : SelectDataset) : option N :=
  match v with mkSelectDataset _ _ _ _ _ _ _ _ x _ => x end.
Definition sd_prepared (v : SelectDataset) : bool :=
  match v with mkSelectDataset _ _ _ _ _ _ _ _ _ x => x end.
Definition join_method (v : Join) : JoinMethod :=
  match v with mkJoin x _ _ => x end.
Definition join_table (v : Join) : string * string :=
  match v with mkJoin _ x _ => x end.
Definition join_on (v : Join) : list (option Expression) :=
  match v with mkJoin _ _ x => x end.

(** The builder methods of [*goqu.SelectDataset] used by the package. *)
Module SelectDataset.
Definition From (table alias : string) : SelectDataset :=
  mkSelectDataset (table, alias) "" [] [] [] [] [] None None false.
Definition WithDialect (d : string) (ds : SelectDataset) : SelectDataset :=
  match ds with
  | mkSelectDataset f _ j s w o g l off p => mkSelectDataset f d j s w o g l off p
  end.
Definition JoinWith (m : JoinMethod) (table : string * string)
           (on : list (option Expression)) (ds : SelectDataset) : SelectDataset :=
  match ds with
  | mkSelectDataset f d j s w o g l off p =>
      mkSelectDataset f d (j ++ [mkJoin m table on]) s w o g l off p
  end.
Definition Select (cols : list any) (ds : SelectDataset) : SelectDataset :=
  match ds with
  | mkSelectDataset f d j _ w o g l off p => mkSelectDataset f d j cols w o g l off p
  end.
Definition Where (exps : list (option Expression)) (ds : SelectDataset) : SelectDataset :=
  match ds with
  | mkSelectDataset f d j s w o g l off p => mkSelectDataset f d j s (w ++ exps) o g l off p
  end.
Definition Order (exps : list Expression) (ds : SelectDataset) : SelectDataset :=
  match ds with
  | mkSelectDataset f d j s w _ g l off p => mkSelectDataset f d j s w exps g l off p
  end.
Definition GroupBy (cols : list any) (ds : SelectDataset) : SelectDataset :=
  match ds with
  | mkSelectDataset f d j s w o _ l off p => mkSelectDataset f d j s w o cols l off p
  end.
Definition Limit (n : N) (ds : SelectDataset) : SelectDataset :=
  match ds with
  | mkSelectDataset f d j s w o g _ off p => mkSelectDataset f d j s w o g (Some n) off p
  end.
Definition Offset (n : N) (ds : SelectDataset) : SelectDataset :=
  match ds with
  | mkSelectDataset f d j s w o g l _ p => mkSelectDataset f d j s w o g l (Some n) p
  end.
Definition Prepared (b : bool) (ds : SelectDataset) : SelectDataset :=
  match ds with
  | mkSelectDataset f d j s w o g l off _ => mkSelectDataset f d j s w o g l off b
  end.
End SelectDataset.

(* ================================================================== *)
(** ** helpers.go: the dynamic value resolver and the [expression] methods *)

Record handleAnyOptions : Type := mkOptions { alias : string }.

(** A [handleAnyOption] is a function value.  The package builds such
    values with [withAlias] only; the zero value of the type is the nil
    function, [None] here, and calling it panics. *)
Definition handleAnyOption : Type := option string.

Definition withAlias (a : string) : handleAnyOption := Some a.

(** [for _, opt := range opts { opt(&options) }] *)
Fixpoint apply_opts (options : handleAnyOptions) (opts : list handleAnyOption)
  : result handleAnyOptions :=
  match opts with
  | [] => Ok options
  | None :: _ => Panic
  | Some a :: rest => apply_opts (mkOptions a) rest
  end.

(** Conversion of an [exp.Expression] interface value (possibly nil) to
    [interface{}]. *)
Definition to_any (e : option Expression) : any :=
  match e with
  | Some e => OfExpression e
  | None => Nil
  end.

(** [f.aliased()] *)
Definition aliased (f : Field) : bool :=
  negb (String.eqb (Field_FieldAlias f) "").

(** [f.identifierExpression()] *)
Definition identifierExpression (f : Field) : Expression :=
  goqu_C_Table (Field_Name f) (Field_TableAlias f).

(** [s.expression()] for a [Sort] *)
Definition Sort_expression (s : Sort) : Expression :=
  match Sort_Order s with
  | DescSortDir => Desc (goqu_C_Table (Sort_Name s) (Sort_TableAlias s))
  | _ => Asc (goqu_C_Table (Sort_Name s) (Sort_TableAlias s))
  end.

(** [x.As(options.alias)] when the alias is set, [x] otherwise. *)
Definition with_alias (options : handleAnyOptions) (x : Expression) : Expression :=
  if String.eqb (alias options) "" then x else As x (alias options).

(** [a == nil] on an interface value *)
Definition is_nil (a : any) : bool :=
  match a with Nil => true | _ => false end.

(** [f.aliasedExpression()], given the resolver it calls back. *)
Definition aliasedExpression_with
           (handleAny : any -> list handleAnyOption -> result (option Expression))
           (f : Field) : result (option Expression) :=
  if is_nil (Field_Exp f)
  then Ok (Some (As (identifierExpression f) (Field_FieldAlias f)))
  else handleAny (Field_Exp f) [withAlias (Field_FieldAlias f)].

Fixpoint handleAny (a : any) (opts : list handleAnyOption) {struct a}
  : result (option Expression) :=
  (* the type tests, from the SQLBuilder test to the default case *)
  let typeTests (a : any) (options : handleAnyOptions) : result (option Expression) :=
    match a with
    | OfSQLBuilder qb => ds <- mainSelect qb ;; Ok (Some (OfSelectDataset ds))
    | OfField f => Field_expression f
    | OfBoolOp bo => BoolOp_expression bo
    | OfWhereGroup wg => WhereGroup_expression wg
    | OfRangeOp ro => RangeOp_expression ro
    | OfLiteral l => x <- Literal_expression l ;; Ok (Some (with_alias options x))
    | OfCase c => x <- Case_expression c ;; Ok (Some (with_alias options x))
    | OfCoalesce co => x <- Coalesce_expression co ;; Ok (Some (with_alias options x))
    | OfExpression goquExpr => Ok (Some goquExpr)
    (* the address of a dataset struct is a *goqu.SelectDataset *)
    | Pointer (OfSelectDatasetStruct ds) => Ok (Some (OfSelectDataset ds))
    | Slice [] => Ok (Some (goqu_L "(?)" [OfExpression (goqu_V (Slice []))]))
    | Slice _ => Ok (Some (goqu_V a))
    | _ => Ok (Some (goqu_V a))
    end in
  match a with
  | Nil => Ok (Some (goqu_L "NULL" []))
  | NilPointer _ =>
      options <- apply_opts (mkOptions "") opts ;;
      Ok (Some (goqu_L "NULL" []))
  | Pointer pointee =>
      options <- apply_opts (mkOptions "") opts ;;
      typeTests pointee options
  (* a *goqu.SelectDataset is of kind Ptr too: it is dereferenced before
     the exp.Expression test, which the struct it points to fails *)
  | OfExpression (OfSelectDataset ds) =>
      options <- apply_opts (mkOptions "") opts ;;
      typeTests (OfSelectDatasetStruct ds) options
  | _ =>
      options <- apply_opts (mkOptions "") opts ;;
      typeTests a options
  end

with Field_expression (f : Field) {struct f} : result (option Expression) :=
  match f with
  | mkField name tableAlias fieldAlias e =>
      match e with
      | Nil =>
          if aliased f then aliasedExpression_with handleAny f
          else Ok (Some (identifierExpression f))
      | _ =>
          let opt : handleAnyOption :=
            if aliased f then withAlias fieldAlias
            else if negb (String.eqb name "") then withAlias name
            else None in
          handleAny e [opt]
      end
  end

with BoolOp_expression (bo : BoolOp) {struct bo} : result (option Expression) :=
  match bo with
  | mkBoolOp op fieldName tableAlias value =>
      let field := mkField fieldName tableAlias "" Nil in
      match op with
      | OtherBooleanOperation _ => Ok None
      | _ =>
          (* one case per named operator: the identifier method of that
             name applied to the resolved value *)
          v <- handleAny value [] ;;
          Ok (Some (BooleanMethod op (identifierExpression field) (to_any v)))
      end
  end

with WhereGroup_expression (wg : WhereGroup) {struct wg} : result (option Expression) :=
  match wg with
  | mkWhereGroup op conditions =>
      exps <- collect (fun cond =>
                         match cond with
                         | OfBoolOp v => BoolOp_expression v
                         | OfRangeOp v => RangeOp_expression v
                         | OfWhereGroup v => WhereGroup_expression v
                         | _ => Ok None
                         end) conditions ;;
      (* return early if no valid expressions *)
      match exps with
      | [] => Ok None
      | _ =>
          match op with
          | OrType => Ok (Some (goqu_Or exps))
          | _ => Ok (Some (goqu_And exps))
          end
      end
  end

with RangeOp_expression (ro : RangeOp) {struct ro} : result (option Expression) :=
  match ro with
  | mkRangeOp op fieldName tableAlias start stop =>
      let field := mkField fieldName tableAlias "" Nil in
      s <- handleAny start [] ;;
      e <- handleAny stop [] ;;
      let rangeVal := goqu_Range (to_any s) (to_any e) in
      match op with
      | NotBetweenOp => Ok (Some (NotBetween (identifierExpression field) rangeVal))
      | _ => Ok (Some (Between (identifierExpression field) rangeVal))
      end
  end

with Literal_expression (l : Literal) {struct l} : result Expression :=
  match l with
  | mkLiteral value args =>
      argContainer <- traverse (fun arg => fmap to_any (handleAny arg [])) args ;;
      Ok (goqu_L value argContainer)
  end

with Case_expression (c : Case) {struct c} : result Expression :=
  match c with
  | mkCase conditions els =>
      caseExpr <- thread (fun cond caseExpr =>
                            match cond with
                            | mkWhenThen w t =>
                                w' <- handleAny w [] ;;
                                t' <- handleAny t [] ;;
                                Ok (When caseExpr (to_any w') (to_any t'))
                            end) conditions goqu_Case ;;
      match els with
      | Nil => Ok caseExpr
      | _ => e <- handleAny els [] ;; Ok (Else caseExpr (to_any e))
      end
  end

with Coalesce_expression (co : Coalesce) {struct co} : result Expression :=
  match co with
  | mkCoalesce fields defaultValue =>
      fs <- traverse (fun f => fmap to_any (Field_expression f)) fields ;;
      match defaultValue with
      | Nil => Ok (goqu_COALESCE fs)
      | _ => d <- handleAny defaultValue [] ;; Ok (goqu_COALESCE (fs ++ [to_any d]))
      end
  end

with mainSelect (qb : SQLBuilder) {struct qb} : result SelectDataset :=
  match qb with
  | mkSQLBuilder dialect fields table wheres sorts groupBy _ _ =>
      match table with
      | mkTable tableName tableAlias relations =>
          let ds := SelectDataset.WithDialect dialect
                      (SelectDataset.From tableName tableAlias) in
          (* apply joins *)
          ds <- thread Relation_join relations ds ;;
          (* apply field selection *)
          ds <- match fields with
                | [] => Ok ds
                | _ =>
                    selects <- traverse (fun f => fmap to_any (Field_expression f)) fields ;;
                    Ok (SelectDataset.Select selects ds)
                end ;;
          (* apply WHERE conditions *)
          ds <- match wheres with
                | [] => Ok ds
                | _ =>
                    expressions <- traverse (fun w => handleAny w []) wheres ;;
                    Ok (SelectDataset.Where expressions ds)
                end ;;
          (* apply sorting *)
          let ds := match sorts with
                    | [] => ds
                    | _ => SelectDataset.Order (map Sort_expression sorts) ds
                    end in
          (* apply grouping *)
          let ds := match groupBy with
                    | [] => ds
                    | _ =>
                        SelectDataset.GroupBy
                          (map (fun g =>
                                  if negb (String.eqb (Field_Name g) "") then
                                    if negb (String.eqb (Field_TableAlias g) "")
                                    then OfExpression (identifierExpression g)
                                    else GoString (Field_Name g)
                                  else if aliased g then GoString (Field_FieldAlias g)
                                  else Nil) groupBy) ds
                    end in
          Ok ds
      end
  end

with Relation_join (r : Relation) (ds : SelectDataset) {struct r} : result SelectDataset :=
  match r with
  | mkRelation joinType on table =>
      match table with
      | mkTable tableName tableAlias relations =>
          (* [on.(Condition)] holds for the three condition structs and for
             pointers to them; the expression of such an entry is appended
             even when it is nil, and [toExpression] through a nil pointer
             panics.  Nothing else yields an expression. *)
          onConds <- collect (fun o =>
                                match o with
                                | OfBoolOp v => fmap Some (BoolOp_expression v)
                                | OfRangeOp v => fmap Some (RangeOp_expression v)
                                | OfWhereGroup v => fmap Some (WhereGroup_expression v)
                                | Pointer (OfBoolOp v) => fmap Some (BoolOp_expression v)
                                | Pointer (OfRangeOp v) => fmap Some (RangeOp_expression v)
                                | Pointer (OfWhereGroup v) =>
                                    fmap Some (WhereGroup_expression v)
                                | NilPointer ToOther => Ok None
                                | NilPointer _ => Panic
                                | _ => Ok None
                                end) on ;;
          let method := match joinType with
                        | InnerJoinType => InnerJoin
                        | LeftJoinType => LeftJoin
                        | RightJoinType => RightJoin
                        | _ => PlainJoin
                        end in
          let ds := SelectDataset.JoinWith method (tableName, tableAlias) onConds ds in
          (* recursively apply nested joins *)
          thread Relation_join relations ds
      end
  end.

Definition Field_aliasedExpression : Field -> result (option Expression) :=
  aliasedExpression_with handleAny.

(* ================================================================== *)
(** ** The SQL builder *)

(** [goqu.Update(goqu.T(table)).WithDialect(d).Where(w...).Set(goqu.Record(r)).Prepared(p)] *)
Record UpdateDataset : Type := mkUpdateDataset {
  ud_table : string;
  ud_dialect : string;
  ud_where : list (option Expression);
  ud_set : list (string * any);
  ud_prepared : bool }.

(** [goqu.Delete(goqu.T(table)).WithDialect(d).Where(w...).Prepared(p)] *)
Record DeleteDataset : Type := mkDeleteDataset {
  dd_table : string;
  dd_dialect : string;
  dd_where : list (option Expression);
  dd_prepared : bool }.

(** [goqu.Insert(goqu.T(table)).WithDialect(d).Rows(goqu.Record(r)).Prepared(p)] *)
Record InsertDataset : Type := mkInsertDataset {
  id_table : string;
  id_dialect : string;
  id_rows : list (string * any);
  id_prepared : bool }.

(** What a builder entry point returns: either the triple
    [(string, []any, error)] it wrote itself, or whatever goqu's [ToSQL]
    returns for the dataset handed to it. *)
Inductive Query : Type :=
| Values (sql : string) (args : list any) (err : option error)
| SelectDataset_ToSQL (ds : SelectDataset)
| UpdateDataset_ToSQL (ds : UpdateDataset)
| DeleteDataset_ToSQL (ds : DeleteDataset)
| InsertDataset_ToSQL (ds : InsertDataset).

(** [New(dialect, tableName, tableAlias)] *)
Definition New (dialect tableName tableAlias : string) : SQLBuilder :=
  mkSQLBuilder dialect [] (mkTable tableName tableAlias []) [] [] [] 10%N 0%N.

Definition WithFields (fields : list Field) (qb : SQLBuilder) : SQLBuilder :=
  match qb with
  | mkSQLBuilder d fs t ws ss gs l o => mkSQLBuilder d (fs ++ fields) t ws ss gs l o
  end.

(** [Where(conditions ...Condition)]: each condition is stored as [any]. *)
Definition Where (conditions : list any) (qb : SQLBuilder) : SQLBuilder :=
  match qb with
  | mkSQLBuilder d fs t ws ss gs l o => mkSQLBuilder d fs t (ws ++ conditions) ss gs l o
  end.

Definition OrderBy (sorts : list Sort) (qb : SQLBuilder) : SQLBuilder :=
  match qb with
  | mkSQLBuilder d fs t ws ss gs l o => mkSQLBuilder d fs t ws (ss ++ sorts) gs l o
  end.

Definition GroupByFields (fields : list Field) (qb : SQLBuilder) : SQLBuilder :=
  match qb with
  | mkSQLBuilder d fs t ws ss gs l o => mkSQLBuilder d fs t ws ss (gs ++ fields) l o
  end.

Definition Limit (n : N) (qb : SQLBuilder) : SQLBuilder :=
  match qb with
  | mkSQLBuilder d fs t ws ss gs _ o => mkSQLBuilder d fs t ws ss gs n o
  end.

Definition Offset (n : N) (qb : SQLBuilder) : SQLBuilder :=
  match qb with
  | mkSQLBuilder d fs t ws ss gs l _ => mkSQLBuilder d fs t ws ss gs l n
  end.

Definition applyLimitOffset (qb : SQLBuilder) (ds : SelectDataset) : SelectDataset :=
  let ds := if (0 <? limit qb)%N then SelectDataset.Limit (limit qb) ds else ds in
  let ds := if (0 <? offset qb)%N then SelectDataset.Offset (offset qb) ds else ds in
  ds.

Definition Count (qb : SQLBuilder) : result Query :=
  ds <- mainSelect qb ;;
  let ds := applyLimitOffset qb ds in
  let ds := SelectDataset.Prepared true ds in
  Ok (SelectDataset_ToSQL (SelectDataset.Select [OfExpression goqu_COUNT_Star] ds)).

Definition Select (qb : SQLBuilder) : result Query :=
  ds <- mainSelect qb ;;
  let ds := applyLimitOffset qb ds in
  let ds := SelectDataset.Prepared true ds in
  Ok (SelectDataset_ToSQL ds).

Definition Add (entry : list (string * any)) (qb : SQLBuilder) : result Query :=
  Ok (InsertDataset_ToSQL
        (mkInsertDataset (Table_Name (SQLBuilder_Table qb)) (Dialect qb) entry true)).

(** [expressions[i] = handleAny(w)] for every entry of [qb.Wheres] *)
Definition where_expressions (ws : list any) : result (list (option Expression)) :=
  traverse (fun w => handleAny w []) ws.

Definition Edit (entry : list (string * any)) (qb : SQLBuilder) : result Query :=
  if (length (Wheres qb) =? 0)%nat then
    Ok (Values "" [] (Some ErrMissingWhereCondition))
  else
    expressions <- where_expressions (Wheres qb) ;;
    Ok (UpdateDataset_ToSQL
          (mkUpdateDataset (Table_Name (SQLBuilder_Table qb)) (Dialect qb)
                           expressions entry true)).

Definition Delete (qb : SQLBuilder) : result Query :=
  if (length (Wheres qb) =? 0)%nat then
    Ok (Values "" [] (Some ErrMissingWhereCondition))
  else
    expressions <- where_expressions (Wheres qb) ;;
    Ok (DeleteDataset_ToSQL
          (mkDeleteDataset (Table_Name (SQLBuilder_Table qb)) (Dialect qb)
                           expressions true)).

(* ================================================================== *)
(** ** The shape-sniffing decoder *)

(** [boolOpToString] / [stringToBoolOp] and their siblings *)
Definition boolOpToString (op : BooleanOperation) : string :=
  match op with
  | EqOp => "eq"
  | NeqOp => "neq"
  | IsOp => "is"
  | IsNotOp => "isNot"
  | GtOp => "gt"
  | GteOp => "gte"
  | LtOp => "lt"
  | LteOp => "lte"
  | InOp => "in"
  | NotInOp => "notIn"
  | LikeOp => "like"
  | NotLikeOp => "notLike"
  | ILikeOp => "iLike"
  | NotILikeOp => "notILike"
  | _ => "eq"
  end.

Definition stringToBoolOp (s : string) : BooleanOperation :=
  if s =? "eq" then EqOp
  else if s =? "neq" then NeqOp
  else if s =? "is" then IsOp
  else if s =? "isNot" then IsNotOp
  else if s =? "gt" then GtOp
  else if s =? "gte" then GteOp
  else if s =? "lt" then LtOp
  else if s =? "lte" then LteOp
  else if s =? "in" then InOp
  else if s =? "notIn" then NotInOp
  else if s =? "like" then LikeOp
  else if s =? "notLike" then NotLikeOp
  else if s =? "iLike" then ILikeOp
  else if s =? "notILike" then NotILikeOp
  else EqOp.

Definition rangeOpToString (op : RangeOperation) : string :=
  match op with
  | BetweenOp => "between"
  | NotBetweenOp => "notBetween"
  | _ => "between"
  end.

Definition stringToRangeOp (s : string) : RangeOperation :=
  if s =? "between" then BetweenOp
  else if s =? "notBetween" then NotBetweenOp
  else BetweenOp.

Definition expressionListTypeToString (elt : ExpressionListType) : string :=
  match elt with
  | AndType => "AND"
  | OrType => "OR"
  | _ => "AND"
  end.

Definition stringToExpressionListType (s : string) : ExpressionListType :=
  if s =? "OR" then OrType
  else if s =? "AND" then AndType
  else AndType.

(** [strconv.ParseFloat(s, 64)] on the digits of the integer [n]: the
    float64 nearest to [n], a tie going to the even significand; there is
    none ([ErrRange]) when [n] rounds beyond the largest finite float64.
    Up to 2^53 in absolute value every integer is a float64. *)
Definition float64_of_Z (n : Z) : option Z :=
  let a := Z.abs n in
  if (a <? 2 ^ 53)%Z then Some n
  else
    let e := (Z.log2 a - 52)%Z in
    let q := Z.shiftr a e in
    let r := (a - Z.shiftl q e)%Z in
    let half := Z.shiftl 1 (e - 1) in
    let m := if (half <? r)%Z || ((half =? r)%Z && Z.odd q) then (q + 1)%Z else q in
    let f := Z.shiftl m e in
    if (f <? 2 ^ 1024)%Z then Some (Z.sgn n * f)%Z else None.

(** No number of the document is out of the range of float64. *)
Fixpoint numbers_ok (data : json) : bool :=
  match data with
  | JNumber n => match float64_of_Z n with Some _ => true | None => false end
  | JArray elems => forallb numbers_ok elems
  | JObject members => forallb (fun kv => numbers_ok (snd kv)) members
  | _ => true
  end.

(** The entries of a [map[string]any] after the members of an object have
    been stored one after the other: a later member replaces an earlier
    one with the same key.  (A Go map has no order; the entries are listed
    in the order of the members kept.) *)
Fixpoint last_wins {A} (entries : list (string * A)) : list (string * A) :=
  match entries with
  | [] => []
  | (k, x) :: rest =>
      if existsb (fun kv => String.eqb (fst kv) k) rest then last_wins rest
      else (k, x) :: last_wins rest
  end.

(** The value [json.Unmarshal(data, &v)] stores in [v] of type [any]:
    numbers become [float64], arrays [[]any], objects [map[string]any].
    A number out of range is left out (nil) and reported. *)
Fixpoint decode_value (data : json) : any :=
  match data with
  | JNull => Nil
  | JBool b => GoBool b
  | JNumber n => match float64_of_Z n with Some f => GoFloat64 f | None => Nil end
  | JString s => GoString s
  | JArray elems => Slice (map decode_value elems)
  | JObject members =>
      GoMap (last_wins (map (fun kv => (fst kv, decode_value (snd kv))) members))
  end.

(** [json.Unmarshal(data, &v)] for [v] of type [any]: on valid JSON it
    fails only with the type error of a number out of the range of
    float64, wherever in [data] the number is. *)
Definition decode_any (data : json) : result any :=
  if numbers_ok data then Ok (decode_value data) else Err UnmarshalTypeError.

(** [json.Unmarshal(data, &typeDetector)] for a
    [map[string]json.RawMessage]: an object gives its members, null leaves
    the map nil, anything else is a type error. *)
Definition detect (data : json) : result (list (string * json)) :=
  match data with
  | JObject members => Ok members
  | JNull => Ok []
  | _ => Err UnmarshalTypeError
  end.

(** Decoding of one struct field by encoding/json.  The members of the
    object are decoded in document order, each into the field its key
    names.  A value of the wrong type is a type error: the decoder keeps
    the first one, goes on, and returns it when it is done.  So the
    decoding of a struct fails with a type error as soon as one member
    does, and the fields can be followed one at a time. *)

Definition string_or_null (v : json) : bool :=
  match v with
  | JString _ | JNull => true
  | _ => false
  end.

Definition array_or_null (v : json) : bool :=
  match v with
  | JArray _ | JNull => true
  | _ => false
  end.

(** a field of type [string] that holds [cur] before the decoding: a
    string is stored, null leaves the field as it is *)
Definition string_field_from (cur : string) (name : string)
           (aux : list (string * json)) : result string :=
  if forallb string_or_null (bindings name aux)
  then Ok (fold_left (fun cur v => match v with JString s => s | _ => cur end)
                     (bindings name aux) cur)
  else Err UnmarshalTypeError.

(** a field of type [string] of a zero struct *)
Definition string_field : string -> list (string * json) -> result string :=
  string_field_from "".

(** a field of type [json.RawMessage], handed to [k] when [len(raw) > 0],
    that is whenever the key is present: the raw text is stored whatever
    the value is, so the last member is the one that stays *)
Definition raw_field {B} (k : json -> result B) (absent : B)
           (name : string) (aux : list (string * json)) : result B :=
  match field_get k name aux with
  | Some r => r
  | None => Ok absent
  end.

(** a field of type [[]json.RawMessage]: an array stores its elements,
    null the nil slice; the elements that stay are handed to [k] *)
Definition slice_field {B} (k : list json -> result (list B))
           (name : string) (aux : list (string * json)) : result (list B) :=
  if forallb array_or_null (bindings name aux)
  then match field_get (fun v => match v with
                                 | JArray elems => k elems
                                 | _ => Ok []
                                 end) name aux with
       | Some r => r
       | None => Ok []
       end
  else Err UnmarshalTypeError.

(** a field of type [any] of a zero struct: the last member stays, and a
    number out of range in any of them is a type error *)
Definition any_field (name : string) (aux : list (string * json)) : result any :=
  if forallb numbers_ok (bindings name aux)
  then Ok match field_get decode_value name aux with
          | Some v => v
          | None => Nil
          end
  else Err UnmarshalTypeError.

Section InPlace.
Context {A : Type}.
(** [UnmarshalJSON], called on the address of an element *)
Variable decode_into : A -> json -> result A.
Variable zero : A.

(** The loop of encoding/json over the elements of an array decoded into
    a slice whose backing array holds [backing]: element [i] of the array
    is decoded into element [i] of the slice, which is what the backing
    array holds there, or a zero element beyond it.  The error (or panic)
    of an [UnmarshalJSON] method ends the whole decoding. *)
Fixpoint array_into (backing : list A) (elems : list json) : result (list A) :=
  match elems with
  | [] => Ok backing
  | e :: rest =>
      x <- decode_into (hd zero backing) e ;;
      xs <- array_into (tl backing) rest ;;
      Ok (x :: xs)
  end.

(** a field of slice type whose elements have an [UnmarshalJSON] method,
    in a zero struct.  The state is the backing array of the slice, its
    length, and whether a type error has been saved.  An array is decoded
    in place and sets the length (an empty array stores a new, empty
    slice); null stores the nil slice; any other value is a type error. *)
Fixpoint slice_scan (name : string) (members : list (string * json))
         (backing : list A) (len : nat) (saved : bool) : result (list A * bool) :=
  match members with
  | [] => Ok (firstn len backing, saved)
  | (k, v) :: rest =>
      if names_field k name then
        match v with
        | JArray elems =>
            backing' <- array_into backing elems ;;
            slice_scan name rest
                       (match elems with [] => [] | _ :: _ => backing' end)
                       (length elems) saved
        | JNull => slice_scan name rest [] 0 saved
        | _ => slice_scan name rest backing len true
        end
      else slice_scan name rest backing len saved
  end.
End InPlace.

Definition object_or_null (v : json) : bool :=
  match v with
  | JObject _ | JNull => true
  | _ => false
  end.

(** The Case test of [unmarshalExpression]: key [conditions] is present,
    its value decodes into a [[]map[string]any] of non-zero length, and
    the first map has key [when].  The decoding succeeds when every entry
    of the array is an object or null and holds no number out of range. *)
Definition case_shape (typeDetector : list (string * json)) : bool :=
  match map_get (fun v => v) "conditions" typeDetector with
  | Some (JArray (first :: rest)) =>
      forallb (fun entry => object_or_null entry && numbers_ok entry) (first :: rest)
      && match first with
         | JObject testCondition => has_key "when" testCondition
         | _ => false
         end
  | _ => false
  end.

(** The [UnmarshalJSON] methods.  They call back into the two
    mutually recursive entry points, which are passed in.  Each method
    starts with [json.Unmarshal(data, &aux)] where [aux] is itself a
    pointer: on a JSON null this sets [aux] to nil, and the field access
    that follows panics. *)
Section Methods.
Variable unmarshalCondition : json -> result any.
Variable unmarshalExpression : json -> result any.

Definition unmarshalValue (data : json) : result any :=
  match unmarshalExpression data with
  | Ok value => Ok value
  | Err _ => decode_any data
  | Panic => Panic
  end.

Definition BoolOp_UnmarshalJSON (data : json) : result BoolOp :=
  match data with
  | JObject aux =>
      op <- string_field "op" aux ;;
      fieldName <- string_field "fieldName" aux ;;
      tableAlias <- string_field "tableAlias" aux ;;
      value <- wrap "failed to unmarshal value: %w" None
                 (raw_field unmarshalValue Nil "value" aux) ;;
      Ok (mkBoolOp (stringToBoolOp op) fieldName tableAlias value)
  | JNull => Panic
  | _ => Err UnmarshalTypeError
  end.

Definition RangeOp_UnmarshalJSON (data : json) : result RangeOp :=
  match data with
  | JObject aux =>
      op <- string_field "op" aux ;;
      fieldName <- string_field "fieldName" aux ;;
      tableAlias <- string_field "tableAlias" aux ;;
      start <- wrap "failed to unmarshal start: %w" None
                 (raw_field unmarshalValue Nil "start" aux) ;;
      stop <- wrap "failed to unmarshal end: %w" None
                (raw_field unmarshalValue Nil "end" aux) ;;
      Ok (mkRangeOp (stringToRangeOp op) fieldName tableAlias start stop)
  | JNull => Panic
  | _ => Err UnmarshalTypeError
  end.

Definition WhereGroup_UnmarshalJSON (data : json) : result WhereGroup :=
  match data with
  | JObject aux =>
      op <- string_field "op" aux ;;
      conditions <- slice_field
                      (traverse_at unmarshalCondition
                         "failed to unmarshal condition at index %d: %w" 0)
                      "conditions" aux ;;
      Ok (mkWhereGroup (stringToExpressionListType op) conditions)
  | JNull => Panic
  | _ => Err UnmarshalTypeError
  end.

Definition Literal_UnmarshalJSON (data : json) : result Literal :=
  match data with
  | JObject aux =>
      value <- string_field "value" aux ;;
      args <- slice_field
                (traverse_at unmarshalValue
                   "failed to unmarshal arg at index %d: %w" 0)
                "args" aux ;;
      Ok (mkLiteral value args)
  | JNull => Panic
  | _ => Err UnmarshalTypeError
  end.

(** [f.UnmarshalJSON(data)]: the three strings are decoded into [f]
    itself (through the embedded [*Alias]), and [f.Exp] is assigned only
    when key [exp] is present.  [f] is the zero Field when the method is
    reached from [unmarshalExpression]; it is not when encoding/json
    decodes into an element of [Coalesce.Fields] that an earlier [fields]
    member of the same object has filled. *)
Definition Field_UnmarshalJSON (f : Field) (data : json) : result Field :=
  match data with
  | JObject aux =>
      name <- string_field_from (Field_Name f) "name" aux ;;
      tableAlias <- string_field_from (Field_TableAlias f) "tableAlias" aux ;;
      fieldAlias <- string_field_from (Field_FieldAlias f) "fieldAlias" aux ;;
      e <- wrap "failed to unmarshal field expression: %w" None
             (raw_field unmarshalExpression (Field_Exp f) "exp" aux) ;;
      Ok (mkField name tableAlias fieldAlias e)
  | JNull => Panic
  | _ => Err UnmarshalTypeError
  end.

(** [wt.UnmarshalJSON(data)]: [wt.When] and [wt.Then] are assigned only
    when their key is present. *)
Definition WhenThen_UnmarshalJSON (wt : WhenThen) (data : json) : result WhenThen :=
  match data with
  | JObject aux =>
      when <- wrap "failed to unmarshal when: %w" None
                (raw_field
                   (fun raw =>
                      match unmarshalCondition raw with
                      | Ok when => Ok when
                      | Panic => Panic
                      | Err _ =>
                          (* try as expression, then as simple value *)
                          match unmarshalExpression raw with
                          | Ok when => Ok when
                          | Panic => Panic
                          | Err _ => decode_any raw
                          end
                      end) (WhenThen_When wt) "when" aux) ;;
      then_ <- wrap "failed to unmarshal then value: %w" None
                 (raw_field unmarshalValue (WhenThen_Then wt) "then" aux) ;;
      Ok (mkWhenThen when then_)
  | JNull => Panic
  | _ => Err UnmarshalTypeError
  end.

(** [c.UnmarshalJSON(data)] on a zero Case: [json.Unmarshal(data, &aux)]
    decodes [conditions] into [c.Conditions] itself, element by element
    with [WhenThen.UnmarshalJSON], and keeps the raw [else], which is
    decoded afterwards. *)
Definition Case_UnmarshalJSON (data : json) : result Case :=
  match data with
  | JObject aux =>
      conditions <- slice_scan WhenThen_UnmarshalJSON (mkWhenThen Nil Nil)
                      "conditions" aux [] 0 false ;;
      if snd conditions then Err UnmarshalTypeError
      else
        els <- wrap "failed to unmarshal else value: %w" None
                 (raw_field
                    (fun raw =>
                       match unmarshalExpression raw with
                       | Ok elseVal => Ok elseVal
                       | Panic => Panic
                       | Err _ => decode_any raw
                       end) Nil "else" aux) ;;
        Ok (mkCase (fst conditions) els)
  | JNull => Panic
  | _ => Err UnmarshalTypeError
  end.

(** [json.Unmarshal(data, &coalesce)] on a zero Coalesce, which has no
    method of its own: its [Fields] are decoded element by element with
    [Field.UnmarshalJSON] and its [DefaultValue], of type [any],
    generically. *)
Definition Coalesce_Unmarshal (data : json) : result Coalesce :=
  match data with
  | JObject aux =>
      fields <- slice_scan Field_UnmarshalJSON (mkField "" "" "" Nil)
                  "fields" aux [] 0 false ;;
      defaultValue <- any_field "defaultValue" aux ;;
      if snd fields then Err UnmarshalTypeError
      else Ok (mkCoalesce (fst fields) defaultValue)
  | JNull => Ok (mkCoalesce [] Nil)
  | _ => Err UnmarshalTypeError
  end.
End Methods.

Fixpoint unmarshalCondition (data : json) {struct data} : result any :=
  typeDetector <- detect data ;;
  if has_key "op" typeDetector then
    if has_key "fieldName" typeDetector then
      if has_key "start" typeDetector then
        fmap OfRangeOp (RangeOp_UnmarshalJSON unmarshalExpression data)
      else
        fmap OfBoolOp (BoolOp_UnmarshalJSON unmarshalExpression data)
    else if has_key "conditions" typeDetector then
      fmap OfWhereGroup (WhereGroup_UnmarshalJSON unmarshalCondition data)
    else Err ErrUnknownCondition
  else Err ErrUnknownCondition

with unmarshalExpression (data : json) {struct data} : result any :=
  typeDetector <- detect data ;;
  if case_shape typeDetector then
    fmap OfCase (Case_UnmarshalJSON unmarshalCondition unmarshalExpression data)
  else if has_key "fields" typeDetector then
    fmap OfCoalesce (Coalesce_Unmarshal unmarshalExpression data)
  else if has_key "value" typeDetector then
    fmap OfLiteral (Literal_UnmarshalJSON unmarshalExpression data)
  else if has_key "name" typeDetector then
    fmap OfField (Field_UnmarshalJSON unmarshalExpression (mkField "" "" "" Nil) data)
  else if has_key "op" typeDetector && has_key "fieldName" typeDetector then
    if has_key "start" typeDetector then
      fmap OfRangeOp (RangeOp_UnmarshalJSON unmarshalExpression data)
    else
      fmap OfBoolOp (BoolOp_UnmarshalJSON unmarshalExpression data)
  else Err ErrUnknownExpression.

(** The closed forms of the methods. *)
Definition unmarshalValue' : json -> result any := unmarshalValue unmarshalExpression.

(* ================================================================== *)
(** ** Encoding: [json.Marshal] on the values of the package *)

Section TraverseOption.
Context {A B : Type}.
Variable f : A -> option B.
Fixpoint traverse_opt (xs : list A) : option (list B) :=
  match xs with
  | [] => Some []
  | x :: rest =>
      match f x, traverse_opt rest with
      | Some y, Some ys => Some (y :: ys)
      | _, _ => None
      end
  end.
End TraverseOption.

(** *** Strings

    [json.Marshal] writes a string as valid UTF-8: each byte that does not
    start a valid encoding is replaced by U+FFFD (bytes EF BF BD). *)

Definition byte_in (lo hi : nat) (c : ascii) : bool :=
  Nat.leb lo (nat_of_ascii c) && Nat.leb (nat_of_ascii c) hi.

(** [utf8.DecodeRuneInString]: the width of the encoding at the head of
    [s], 0 when there is no valid one. *)
Definition rune_width (s : string) : nat :=
  match s with
  | EmptyString => 0
  | String c0 s1 =>
      if byte_in 0 127 c0 then 1
      else
        let n := if byte_in 194 223 c0 then 2
                 else if byte_in 224 239 c0 then 3
                 else if byte_in 240 244 c0 then 4
                 else 0 in
        (* the range of the second byte *)
        let lo := if is_byte 224 c0 then 160 else if is_byte 240 c0 then 144 else 128 in
        let hi := if is_byte 237 c0 then 159 else if is_byte 244 c0 then 143 else 191 in
        match n, s1 with
        | 2, String c1 _ => if byte_in lo hi c1 then 2 else 0
        | 3, String c1 (String c2 _) =>
            if byte_in lo hi c1 && byte_in 128 191 c2 then 3 else 0
        | 4, String c1 (String c2 (String c3 _)) =>
            if byte_in lo hi c1 && byte_in 128 191 c2 && byte_in 128 191 c3 then 4 else 0
        | _, _ => 0
        end
  end.

Definition replacement : string :=
  String (ascii_of_nat 239) (String (ascii_of_nat 191) (String (ascii_of_nat 189) "")).

(** The string written for [s]; [keep] counts the bytes left of the
    encoding being copied. *)
Fixpoint coerce_from (keep : nat) (s : string) : string :=
  match s with
  | EmptyString => EmptyString
  | String c rest =>
      match keep with
      | S k => String c (coerce_from k rest)
      | O =>
          match rune_width s with
          | O => replacement ++ coerce_from 0 rest
          | S k => String c (coerce_from k rest)
          end
      end
  end.

Definition coerce : string -> string := coerce_from 0.

(** a member of type [string] tagged [omitempty] *)
Definition omitempty_string (key s : string) : list (string * json) :=
  if s =? "" then [] else [(key, JString (coerce s))].

(** a member of slice type without [omitempty]: null for the nil slice
    and an array otherwise.  With no element the two are not told apart
    here, and nothing is said. *)
Definition slice_member (elems : list json) : option json :=
  match elems with
  | [] => None
  | _ => Some (JArray elems)
  end.

(** [json.Marshal(v)], by the dynamic type of [v].  [None] marks the
    values whose encoding is not described here: a slice without element
    where it is not omitted, a float64 beyond 2^53 (written in its
    shortest decimal form, which is not the integer it holds), an [int]
    out of the range of int64 (there is none), maps (encoded with sorted
    keys), sub-queries and goqu objects. *)
Fixpoint Marshal (a : any) {struct a} : option json :=
  match a with
  | Nil => Some JNull
  | NilPointer _ => Some JNull
  | Pointer v => Marshal v
  | GoString s => Some (JString (coerce s))
  | GoBool b => Some (JBool b)
  | GoInt n =>
      if (- 2 ^ 63 <=? n)%Z && (n <? 2 ^ 63)%Z then Some (JNumber n) else None
  | GoFloat64 n =>
      if (Z.abs n <=? 2 ^ 53)%Z then Some (JNumber n) else None
  | Slice elems =>
      match traverse_opt Marshal elems with
      | Some js => slice_member js
      | None => None
      end
  | OfField f => Field_Marshal f
  | OfBoolOp bo => BoolOp_MarshalJSON bo
  | OfRangeOp ro => RangeOp_MarshalJSON ro
  | OfWhereGroup wg => WhereGroup_MarshalJSON wg
  | OfLiteral l => Literal_Marshal l
  | OfCase c => Case_Marshal c
  | OfCoalesce co => Coalesce_Marshal co
  | GoMap _ | OfSQLBuilder _ | OfExpression _ | OfSelectDatasetStruct _ => None
  end

with Field_Marshal (f : Field) {struct f} : option json :=
  match f with
  | mkField name tableAlias fieldAlias e =>
      match (match e with Nil => Some [] | _ => option_map (fun j => [("exp", j)]) (Marshal e) end) with
      | Some exp_member =>
          Some (JObject (omitempty_string "name" name
                           ++ omitempty_string "tableAlias" tableAlias
                           ++ omitempty_string "fieldAlias" fieldAlias
                           ++ exp_member))
      | None => None
      end
  end

with BoolOp_MarshalJSON (bo : BoolOp) {struct bo} : option json :=
  match bo with
  | mkBoolOp op fieldName tableAlias value =>
      match Marshal value with
      | Some v =>
          Some (JObject ([("op", JString (boolOpToString op));
                          ("fieldName", JString (coerce fieldName))]
                           ++ omitempty_string "tableAlias" tableAlias
                           ++ [("value", v)]))
      | None => None
      end
  end

with RangeOp_MarshalJSON (ro : RangeOp) {struct ro} : option json :=
  match ro with
  | mkRangeOp op fieldName tableAlias start stop =>
      match Marshal start, Marshal stop with
      | Some s, Some e =>
          Some (JObject ([("op", JString (rangeOpToString op));
                          ("fieldName", JString (coerce fieldName))]
                           ++ omitempty_string "tableAlias" tableAlias
                           ++ [("start", s); ("end", e)]))
      | _, _ => None
      end
  end

with WhereGroup_MarshalJSON (wg : WhereGroup) {struct wg} : option json :=
  match wg with
  | mkWhereGroup op conditions =>
      match traverse_opt Marshal conditions with
      | Some (c :: cs) =>
          Some (JObject [("op", JString (expressionListTypeToString op));
                         ("conditions", JArray (c :: cs))])
      | _ => None
      end
  end

with Literal_Marshal (l : Literal) {struct l} : option json :=
  match l with
  | mkLiteral value args =>
      match traverse_opt Marshal args with
      | Some [] => Some (JObject [("value", JString (coerce value))])
      | Some xs => Some (JObject [("value", JString (coerce value)); ("args", JArray xs)])
      | None => None
      end
  end

with Case_Marshal (c : Case) {struct c} : option json :=
  match c with
  | mkCase conditions els =>
      match traverse_opt (fun wt =>
                            match wt with
                            | mkWhenThen w t =>
                                match Marshal w, Marshal t with
                                | Some w', Some t' =>
                                    Some (JObject [("when", w'); ("then", t')])
                                | _, _ => None
                                end
                            end) conditions,
            (match els with Nil => Some [] | _ => option_map (fun j => [("else", j)]) (Marshal els) end) with
      | Some (arm :: arms), Some else_member =>
          Some (JObject (("conditions", JArray (arm :: arms)) :: else_member))
      | _, _ => None
      end
  end

with Coalesce_Marshal (co : Coalesce) {struct co} : option json :=
  match co with
  | mkCoalesce fields defaultValue =>
      match traverse_opt Field_Marshal fields,
            (match defaultValue with
             | Nil => Some []
             | _ => option_map (fun j => [("defaultValue", j)]) (Marshal defaultValue)
             end) with
      | Some (f :: fs), Some default_member =>
          Some (JObject (("fields", JArray (f :: fs)) :: default_member))
      | _, _ => None
      end
  end.

(** [decode(encode(x))] for a condition and for an expression *)
Definition roundtrip_condition (x : any) : option (result any) :=
  option_map unmarshalCondition (Marshal x).

Definition roundtrip_expression (x : any) : option (result any) :=
  option_map unmarshalExpression (Marshal x).

(* ================================================================== *)
(** ** Vocabulary of the properties *)

(** The type switch of [WhereGroup.expression]: the expression of one
    child, nil for a child that is none of the three condition structs. *)
Definition condition_expression (cond : any) : result (option Expression) :=
  match cond with
  | OfBoolOp v => BoolOp_expression v
  | OfRangeOp v => RangeOp_expression v
  | OfWhereGroup v => WhereGroup_expression v
  | _ => Ok None
  end.

Definition is_condition (cond : any) : bool :=
  match cond with
  | OfBoolOp _ | OfRangeOp _ | OfWhereGroup _ => true
  | _ => false
  end.

(** The non-nil entries of a list of expressions, in order. *)
Fixpoint non_nil (rs : list (option Expression)) : list Expression :=
  match rs with
  | [] => []
  | Some e :: rest => e :: non_nil rest
  | None :: rest => non_nil rest
  end.

(** [goqu.Or] for [OrType], [goqu.And] otherwise. *)
Definition combine (op : ExpressionListType) (exps : list Expression) : Expression :=
  match op with
  | OrType => goqu_Or exps
  | _ => goqu_And exps
  end.

(** The dataset [mainSelect] starts from. *)
Definition base_dataset (qb : SQLBuilder) : SelectDataset :=
  SelectDataset.WithDialect (Dialect qb)
    (SelectDataset.From (Table_Name (SQLBuilder_Table qb))
                        (Table_Alias (SQLBuilder_Table qb))).

(** The LIMIT (or OFFSET) clause a builder asks for. *)
Definition clause_of (n : N) : option N :=
  if (0 <? n)%N then Some n else None.

(** Nesting depth of joins, the measure of [Relation.join]'s recursion. *)
Fixpoint Relation_depth (r : Relation) : nat :=
  match r with
  | mkRelation _ _ (mkTable _ _ relations) =>
      S (fold_right (fun child d => Nat.max (Relation_depth child) d) 0 relations)
  end.

(** The number of one-element expression lists an expression is wrapped
    in. *)
Fixpoint list_depth (e : Expression) : nat :=
  match e with
  | goqu_And [x] => S (list_depth x)
  | goqu_Or [x] => S (list_depth x)
  | _ => 0
  end.

(** The part of [handleAny] after the pointer test: the type tests, run
    on the value, or on the pointee of a non-nil pointer. *)
Definition typeTests (a : any) (options : handleAnyOptions)
  : result (option Expression) :=
  match a with
  | OfSQLBuilder qb => ds <- mainSelect qb ;; Ok (Some (OfSelectDataset ds))
  | OfField f => Field_expression f
  | OfBoolOp bo => BoolOp_expression bo
  | OfWhereGroup wg => WhereGroup_expression wg
  | OfRangeOp ro => RangeOp_expression ro
  | OfLiteral l => x <- Literal_expression l ;; Ok (Some (with_alias options x))
  | OfCase c => x <- Case_expression c ;; Ok (Some (with_alias options x))
  | OfCoalesce co => x <- Coalesce_expression co ;; Ok (Some (with_alias options x))
  | OfExpression goquExpr => Ok (Some goquExpr)
  | Pointer (OfSelectDatasetStruct ds) => Ok (Some (OfSelectDataset ds))
  | Slice [] => Ok (Some (goqu_L "(?)" [OfExpression (goqu_V (Slice []))]))
  | _ => Ok (Some (goqu_V a))
  end.

(** Before it calls an option, [handleAny] has only tested [a == nil]. *)
Definition is_pointer (a : any) : bool :=
  match a with
  | NilPointer _ | Pointer _ | OfExpression (OfSelectDataset _) => true
  | _ => false
  end.

(** A [*goqu.SelectDataset] has two forms here, the expression it is and
    the address of the struct it points to: the dataset of a value that
    is one. *)
Definition dataset_of (a : any) : option SelectDataset :=
  match a with
  | OfExpression (OfSelectDataset ds) | Pointer (OfSelectDatasetStruct ds) => Some ds
  | _ => None
  end.

(** The dynamic types none of the type tests of [handleAny] matches. *)
Definition is_scalar (a : any) : bool :=
  match a with
  | GoString _ | GoBool _ | GoInt _ | GoFloat64 _ | GoMap _ => true
  | _ => false
  end.

(** Size of a value, the measure of the resolver's recursion. *)
Fixpoint size (a : any) : nat :=
  match a with
  | Pointer p => S (size p)
  | OfSQLBuilder qb => S (SQLBuilder_size qb)
  | OfField f => S (Field_size f)
  | OfBoolOp bo => S (BoolOp_size bo)
  | OfWhereGroup wg => S (WhereGroup_size wg)
  | OfRangeOp ro => S (RangeOp_size ro)
  | OfLiteral l => S (Literal_size l)
  | OfCase c => S (Case_size c)
  | OfCoalesce co => S (Coalesce_size co)
  | _ => 1
  end
with Field_size (f : Field) : nat :=
  match f with mkField _ _ _ e => S (size e) end
with BoolOp_size (bo : BoolOp) : nat :=
  match bo with mkBoolOp _ _ _ value => S (size value) end
with RangeOp_size (ro : RangeOp) : nat :=
  match ro with mkRangeOp _ _ _ start stop => S (size start + size stop) end
with WhereGroup_size (wg : WhereGroup) : nat :=
  match wg with mkWhereGroup _ conditions => S (list_sum (map size conditions)) end
with Literal_size (l : Literal) : nat :=
  match l with mkLiteral _ args => S (list_sum (map size args)) end
with WhenThen_size (wt : WhenThen) : nat :=
  match wt with mkWhenThen w t => S (size w + size t) end
with Case_size (c : Case) : nat :=
  match c with
  | mkCase conditions els => S (list_sum (map WhenThen_size conditions) + size els)
  end
with Coalesce_size (co : Coalesce) : nat :=
  match co with
  | mkCoalesce fields defaultValue =>
      S (list_sum (map Field_size fields) + size defaultValue)
  end
with Relation_size (r : Relation) : nat :=
  match r with
  | mkRelation _ on (mkTable _ _ relations) =>
      S (list_sum (map size on) + list_sum (map Relation_size relations))
  end
with SQLBuilder_size (qb : SQLBuilder) : nat :=
  match qb with
  | mkSQLBuilder _ fields (mkTable _ _ relations) wheres _ _ _ _ =>
      S (list_sum (map Field_size fields)
         + list_sum (map Relation_size relations)
         + list_sum (map size wheres))
  end.

(** [resolvable a]: wherever the resolver goes in [a], a [Field] that
    embeds an expression has an alias or a name, and no join condition is
    a nil pointer to a condition struct. *)
Fixpoint resolvable (a : any) : bool :=
  let tests (a : any) : bool :=
    match a with
    | OfSQLBuilder qb => SQLBuilder_resolvable qb
    | OfField f => Field_resolvable f
    | OfBoolOp bo => BoolOp_resolvable bo
    | OfWhereGroup wg => WhereGroup_resolvable wg
    | OfRangeOp ro => RangeOp_resolvable ro
    | OfLiteral l => Literal_resolvable l
    | OfCase c => Case_resolvable c
    | OfCoalesce co => Coalesce_resolvable co
    | _ => true
    end in
  match a with
  | Pointer p => tests p
  | _ => tests a
  end
with Field_resolvable (f : Field) : bool :=
  match f with
  | mkField name _ fieldAlias e =>
      match e with
      | Nil => true
      | _ => (negb (fieldAlias =? "") || negb (name =? "")) && resolvable e
      end
  end
with BoolOp_resolvable (bo : BoolOp) : bool :=
  match bo with mkBoolOp _ _ _ value => resolvable value end
with RangeOp_resolvable (ro : RangeOp) : bool :=
  match ro with mkRangeOp _ _ _ start stop => resolvable start && resolvable stop end
with WhereGroup_resolvable (wg : WhereGroup) : bool :=
  match wg with
  | mkWhereGroup _ conditions =>
      forallb (fun cond =>
                 match cond with
                 | OfBoolOp v => BoolOp_resolvable v
                 | OfRangeOp v => RangeOp_resolvable v
                 | OfWhereGroup v => WhereGroup_resolvable v
                 | _ => true
                 end) conditions
  end
with Literal_resolvable (l : Literal) : bool :=
  match l with mkLiteral _ args => forallb resolvable args end
with Case_resolvable (c : Case) : bool :=
  match c with
  | mkCase conditions els =>
      forallb (fun wt => match wt with
                         | mkWhenThen w t => resolvable w && resolvable t
                         end) conditions
      && resolvable els
  end
with Coalesce_resolvable (co : Coalesce) : bool :=
  match co with
  | mkCoalesce fields defaultValue =>
      forallb Field_resolvable fields && resolvable defaultValue
  end
with Relation_resolvable (r : Relation) : bool :=
  match r with
  | mkRelation _ on (mkTable _ _ relations) =>
      forallb (fun o =>
                 match o with
                 | OfBoolOp v => BoolOp_resolvable v
                 | OfRangeOp v => RangeOp_resolvable v
                 | OfWhereGroup v => WhereGroup_resolvable v
                 | Pointer (OfBoolOp v) => BoolOp_resolvable v
                 | Pointer (OfRangeOp v) => RangeOp_resolvable v
                 | Pointer (OfWhereGroup v) => WhereGroup_resolvable v
                 | NilPointer ToOther => true
                 | NilPointer _ => false
                 | _ => true
                 end) on
      && forallb Relation_resolvable relations
  end
with SQLBuilder_resolvable (qb : SQLBuilder) : bool :=
  match qb with
  | mkSQLBuilder _ fields (mkTable _ _ relations) wheres _ _ _ _ =>
      forallb Relation_resolvable relations
      && forallb Field_resolvable fields
      && forallb resolvable wheres
  end.

(** What [resolvable] asks of the value the type tests run on. *)
Definition tests_resolvable (a : any) : bool :=
  match a with
  | OfSQLBuilder qb => SQLBuilder_resolvable qb
  | OfField f => Field_resolvable f
  | OfBoolOp bo => BoolOp_resolvable bo
  | OfWhereGroup wg => WhereGroup_resolvable wg
  | OfRangeOp ro => RangeOp_resolvable ro
  | OfLiteral l => Literal_resolvable l
  | OfCase c => Case_resolvable c
  | OfCoalesce co => Coalesce_resolvable co
  | _ => true
  end.

(** *** Shapes of a node, in the words of the specification *)

Inductive shape : Type :=
| CaseShape | CoalesceShape | LiteralShape | FieldShape
| RangeOpShape | BoolOpShape | WhereGroupShape | UnknownShape.

(** the entries of the array under key [conditions] *)
Definition conditions_entries (node : list (string * json)) : option (list json) :=
  match map_get (fun v => v) "conditions" node with
  | Some (JArray elems) => Some elems
  | _ => None
  end.

(** "key [conditions] whose first array entry has key [when]" *)
Definition first_entry_has_when (node : list (string * json)) : bool :=
  match conditions_entries node with
  | Some (JObject first :: _) => has_key "when" first
  | _ => false
  end.

(** every entry of the array under [conditions] decodes as a
    [map[string]any]: it is an object or null, and no number in it is out
    of the range of float64 *)
Definition entries_are_maps (node : list (string * json)) : bool :=
  match conditions_entries node with
  | Some elems => forallb (fun entry => object_or_null entry && numbers_ok entry) elems
  | None => false
  end.

(** "RangeOp when [start] is present and BoolOp otherwise" *)
Definition op_shape (node : list (string * json)) : shape :=
  if has_key "start" node then RangeOpShape else BoolOpShape.

(** The priority order of [decodeExpression] as the specification words
    it. *)
Definition spec_expression_shape (node : list (string * json)) : shape :=
  if first_entry_has_when node then CaseShape
  else if has_key "fields" node then CoalesceShape
  else if has_key "value" node then LiteralShape
  else if has_key "name" node then FieldShape
  else if has_key "op" node && has_key "fieldName" node then op_shape node
  else UnknownShape.

(** The same order with the first rule asking, in addition, that every
    entry of [conditions] decode as a map. *)
Definition expression_shape (node : list (string * json)) : shape :=
  if first_entry_has_when node && entries_are_maps node then CaseShape
  else if has_key "fields" node then CoalesceShape
  else if has_key "value" node then LiteralShape
  else if has_key "name" node then FieldShape
  else if has_key "op" node && has_key "fieldName" node then op_shape node
  else UnknownShape.

(** The priority order of [decodeCondition]. *)
Definition condition_shape (node : list (string * json)) : shape :=
  if has_key "op" node && has_key "fieldName" node then op_shape node
  else if has_key "op" node && has_key "conditions" node then WhereGroupShape
  else UnknownShape.

(** the variant a decoded value belongs to *)
Definition variant_of (v : any) : shape :=
  match v with
  | OfCase _ => CaseShape
  | OfCoalesce _ => CoalesceShape
  | OfLiteral _ => LiteralShape
  | OfField _ => FieldShape
  | OfRangeOp _ => RangeOpShape
  | OfBoolOp _ => BoolOpShape
  | OfWhereGroup _ => WhereGroupShape
  | _ => UnknownShape
  end.

(** "decode as" a shape: the decoder of that variant, or the error given
    for an unknown shape *)
Definition decode_as (unknown : error) (sh : shape) (data : json) : result any :=
  match sh with
  | CaseShape => fmap OfCase (Case_UnmarshalJSON unmarshalCondition unmarshalExpression data)
  | CoalesceShape => fmap OfCoalesce (Coalesce_Unmarshal unmarshalExpression data)
  | LiteralShape => fmap OfLiteral (Literal_UnmarshalJSON unmarshalExpression data)
  | FieldShape =>
      fmap OfField (Field_UnmarshalJSON unmarshalExpression (mkField "" "" "" Nil) data)
  | RangeOpShape => fmap OfRangeOp (RangeOp_UnmarshalJSON unmarshalExpression data)
  | BoolOpShape => fmap OfBoolOp (BoolOp_UnmarshalJSON unmarshalExpression data)
  | WhereGroupShape => fmap OfWhereGroup (WhereGroup_UnmarshalJSON unmarshalCondition data)
  | UnknownShape => Err unknown
  end.

(** *** The conditions that survive a round trip *)

(** The strings [json.Marshal] writes as they are: the valid UTF-8
    strings. *)
Definition utf8 (s : string) : bool := coerce s =? s.

(** Values that JSON gives back as they were: nil, valid UTF-8 strings,
    booleans, float64 numbers up to 2^53 in absolute value, and sequences
    ([[]any]), with at least one element, of such values. *)
Fixpoint plain_value (a : any) : bool :=
  match a with
  | Nil | GoBool _ => true
  | GoString s => utf8 s
  | GoFloat64 n => (Z.abs n <=? 2 ^ 53)%Z
  | Slice elems =>
      match elems with [] => false | _ => forallb plain_value elems end
  | _ => false
  end.

(** A JSON value that is not a key/value node. *)
Definition no_object (j : json) : Prop :=
  match j with JObject _ => False | _ => True end.

(** The operators [boolOpToString] has a case for. *)
Definition written_operator (op : BooleanOperation) : bool :=
  match op with
  | EqOp | NeqOp | IsOp | IsNotOp | GtOp | GteOp | LtOp | LteOp
  | InOp | NotInOp | LikeOp | NotLikeOp | ILikeOp | NotILikeOp => true
  | _ => false
  end.

(** Size of a plain value. *)
Fixpoint size_plain (a : any) : nat :=
  match a with
  | Slice elems => S (list_sum (map size_plain elems))
  | _ => 1
  end.

(** Conditions made of comparisons with a written operator, ranges and
    And/Or groups with at least one child, over plain values and with
    valid UTF-8 names. *)
Fixpoint plain_condition (c : any) : bool :=
  match c with
  | OfBoolOp (mkBoolOp op fieldName tableAlias value) =>
      written_operator op && utf8 fieldName && utf8 tableAlias && plain_value value
  | OfRangeOp (mkRangeOp op fieldName tableAlias start stop) =>
      match op with BetweenOp | NotBetweenOp => true | _ => false end
      && utf8 fieldName && utf8 tableAlias
      && plain_value start && plain_value stop
  | OfWhereGroup (mkWhereGroup op conditions) =>
      match op with AndType | OrType => true | _ => false end
      && match conditions with [] => false | _ => forallb plain_condition conditions end
  | _ => false
  end.

(* ================================================================== *)
(** ** The rest of the package *)

(** *** table.go and expression_sort.go: enumerations as strings *)

Definition joinTypeToString (jt : JoinType) : string :=
  match jt with
  | InnerJoinType => "INNER"
  | LeftJoinType => "LEFT"
  | RightJoinType => "RIGHT"
  | FullOuterJoinType => "FULL OUTER"
  | CrossJoinType => "CROSS"
  | _ => "INNER"
  end.

Definition stringToJoinType (s : string) : JoinType :=
  if s =? "INNER" then InnerJoinType
  else if s =? "LEFT" then LeftJoinType
  else if s =? "RIGHT" then RightJoinType
  else if s =? "FULL OUTER" then FullOuterJoinType
  else if s =? "CROSS" then CrossJoinType
  else InnerJoinType.

Definition sortDirectionToString (sd : SortDirection) : string :=
  match sd with
  | AscDir => "ASC"
  | DescSortDir => "DESC"
  | _ => "ASC"
  end.

Definition stringToSortDirection (s : string) : SortDirection :=
  if s =? "DESC" then DescSortDir
  else if s =? "ASC" then AscDir
  else AscDir.

(** *** The join methods of the builder *)

Module Builder.

(** [qb.Join(joinType, table, on...)]: the conditions are stored as [any]
    in a new relation appended to the relations of the builder's table. *)
Definition Join (joinType : JoinType) (table : Table) (on : list any)
           (qb : SQLBuilder) : SQLBuilder :=
  match qb with
  | mkSQLBuilder d fs (mkTable tn ta relations) ws ss gs l o =>
      mkSQLBuilder d fs (mkTable tn ta (relations ++ [mkRelation joinType on table]))
                   ws ss gs l o
  end.

Definition InnerJoin (tableName tableAlias : string) (on : list any) :=
  Join InnerJoinType (mkTable tableName tableAlias []) on.
Definition LeftJoin (tableName tableAlias : string) (on : list any) :=
  Join LeftJoinType (mkTable tableName tableAlias []) on.
Definition RightJoin (tableName tableAlias : string) (on : list any) :=
  Join RightJoinType (mkTable tableName tableAlias []) on.

End Builder.

(** *** expression_sort.go: the JSON form of a [Sort] *)

(** [s.MarshalJSON()] *)
Definition Sort_MarshalJSON (s : Sort) : json :=
  JObject ([("name", JString (coerce (Sort_Name s)))]
             ++ omitempty_string "tableAlias" (Sort_TableAlias s)
             ++ [("order", JString (sortDirectionToString (Sort_Order s)))]).

(** [s.UnmarshalJSON(data)], on a zero [Sort] *)
Definition Sort_UnmarshalJSON (data : json) : result Sort :=
  match data with
  | JObject aux =>
      name <- string_field "name" aux ;;
      tableAlias <- string_field "tableAlias" aux ;;
      order <- string_field "order" aux ;;
      Ok (mkSort name tableAlias (stringToSortDirection order))
  | JNull => Panic
  | _ => Err UnmarshalTypeError
  end.

(** *** Vocabulary of the further properties *)

(** A tree of conditions: comparisons with a written operator, ranges,
    and groups all of whose children are such trees. *)
Fixpoint condition_tree (c : any) : bool :=
  match c with
  | OfBoolOp bo => written_operator (BoolOp_Op bo)
  | OfRangeOp ro =>
      match RangeOp_Op ro with BetweenOp | NotBetweenOp => true | _ => false end
  | OfWhereGroup (mkWhereGroup op conditions) =>
      match op with AndType | OrType => true | _ => false end
      && forallb condition_tree conditions
  | _ => false
  end.

(** Size of a document. *)
Fixpoint json_size (j : json) : nat :=
  match j with
  | JArray elems => S (list_sum (map json_size elems))
  | JObject members => S (list_sum (map (fun kv => json_size (snd kv)) members))
  | _ => 1
  end.

(** A document in which null does not occur. *)
Fixpoint null_free (j : json) : bool :=
  match j with
  | JNull => false
  | JArray elems => forallb null_free elems
  | JObject members => forallb (fun kv => null_free (snd kv)) members
  | _ => true
  end.

(** The three dynamic types for which [handleAny] looks at the alias. *)
Definition takes_alias (a : any) : bool :=
  match a with
  | OfLiteral _ | OfCase _ | OfCoalesce _ => true
  | _ => false
  end.

(** The goqu join method [Relation.join] picks for a join type. *)
Definition method_of (jt : JoinType) : JoinMethod :=
  match jt with
  | InnerJoinType => InnerJoin
  | LeftJoinType => LeftJoin
  | RightJoinType => RightJoin
  | _ => PlainJoin
  end.

(** The relations of a table and of the tables they join, each relation
    before the relations nested in it. *)
Fixpoint Relation_preorder (r : Relation) : list Relation :=
  match r with
  | mkRelation _ _ (mkTable _ _ relations) =>
      r :: flat_map Relation_preorder relations
  end.

(** The comparisons and ranges in a tree of conditions. *)
Fixpoint leaves (c : any) : nat :=
  match c with
  | OfBoolOp _ | OfRangeOp _ => 1
  | OfWhereGroup (mkWhereGroup _ conditions) => list_sum (map leaves conditions)
  | _ => 0
  end.

(** The errors [unmarshalCondition] returns: the type error of
    encoding/json and "unknown condition type"; the type error of a
    number out of range in the value of a comparison or in a bound of a
    range, wrapped with the name of the member; and any of these wrapped
    once per enclosing group with the index of the child. *)
Fixpoint condition_error (e : error) : bool :=
  match e with
  | UnmarshalTypeError | ErrUnknownCondition => true
  | Wrapf msg (Some _) cause =>
      (msg =? "failed to unmarshal condition at index %d: %w") && condition_error cause
  | Wrapf msg None UnmarshalTypeError =>
      (msg =? "failed to unmarshal value: %w")
      || (msg =? "failed to unmarshal start: %w")
      || (msg =? "failed to unmarshal end: %w")
  | _ => false
  end.

(** The expression of one entry of [r.On] in [Relation.join]: an entry
    that is a [Condition] contributes its expression even when that is
    nil, anything else is skipped. *)
Definition on_expression (o : any) : result (option (option Expression)) :=
  match o with
  | OfBoolOp v => fmap Some (BoolOp_expression v)
  | OfRangeOp v => fmap Some (RangeOp_expression v)
  | OfWhereGroup v => fmap Some (WhereGroup_expression v)
  | Pointer (OfBoolOp v) => fmap Some (BoolOp_expression v)
  | Pointer (OfRangeOp v) => fmap Some (RangeOp_expression v)
  | Pointer (OfWhereGroup v) => fmap Some (WhereGroup_expression v)
  | NilPointer ToOther => Ok None
  | NilPointer _ => Panic
  | _ => Ok None
  end.

(** [j] is the join call made for relation [r]. *)
Definition joined (r : Relation) (j : Join) : Prop :=
  join_method j = method_of (Relation_JoinType r) /\
  join_table j = (Table_Name (Relation_Table r), Table_Alias (Relation_Table r)) /\
  collect on_expression (Relation_On r) = Ok (join_on j).

(** A dataset after further join calls. *)
Definition add_joins (js : list Join) (ds : SelectDataset) : SelectDataset :=
  match ds with
  | mkSelectDataset f d j s w o g l off p => mkSelectDataset f d (j ++ js) s w o g l off p
  end.

(** The part of [mainSelect] after the joins: field selection, WHERE
    conditions, sorting and grouping. *)
Definition select_clauses (qb : SQLBuilder) (ds : SelectDataset) : result SelectDataset :=
  ds <- match Fields qb with
        | [] => Ok ds
        | _ =>
            selects <- traverse (fun f => fmap to_any (Field_expression f)) (Fields qb) ;;
            Ok (SelectDataset.Select selects ds)
        end ;;
  ds <- match Wheres qb with
        | [] => Ok ds
        | _ =>
            expressions <- traverse (fun w => handleAny w []) (Wheres qb) ;;
            Ok (SelectDataset.Where expressions ds)
        end ;;
  let ds := match Sorts qb with
            | [] => ds
            | _ => SelectDataset.Order (map Sort_expression (Sorts qb)) ds
            end in
  let ds := match GroupBy qb with
            | [] => ds
            | _ =>
                SelectDataset.GroupBy
                  (map (fun g =>
                          if negb (String.eqb (Field_Name g) "") then
                            if negb (String.eqb (Field_TableAlias g) "")
                            then OfExpression (identifierExpression g)
                            else GoString (Field_Name g)
                          else if aliased g then GoString (Field_FieldAlias g)
                          else Nil) (GroupBy qb)) ds
            end in
  Ok ds.

(** The value the type tests of [handleAny] run on: the pointee of a
    pointer, the value itself otherwise. *)
Definition tested (a : any) : any :=
  match a with
  | Pointer p => p
  | OfExpression (OfSelectDataset ds) => OfSelectDatasetStruct ds
  | _ => a
  end.

(* ================================================================== *)
(** * Properties *)

Unset Implicit Arguments.

(** ** Generic facts about the loops *)

Lemma traverse_app {A B} (f : A -> result B) (xs ys : list A) :
  traverse f (xs ++ ys) =
  (a <- traverse f xs ;; b <- traverse f ys ;; Ok (a ++ b)%list).
Proof.
  induction xs as [|x xs IH]; simpl.
  - destruct (traverse f ys); reflexivity.
  - destruct (f x); simpl; try reflexivity.
    rewrite IH. destruct (traverse f xs); simpl; try reflexivity.
    destruct (traverse f ys); reflexivity.
Qed.

Lemma collect_traverse {A B} (g : A -> result (option B)) (xs : list A) :
  collect g xs =
  (rs <- traverse g xs ;;
   Ok (flat_map (fun r => match r with Some e => [e] | None => [] end) rs)).
Proof.
  induction xs as [|x xs IH]; simpl; [reflexivity|].
  destruct (g x) as [r| |]; simpl; try reflexivity.
  rewrite IH. destruct (traverse g xs); simpl; try reflexivity.
  destruct r; reflexivity.
Qed.

Lemma non_nil_flat_map (rs : list (option Expression)) :
  flat_map (fun r => match r with Some e => [e] | None => [] end) rs = non_nil rs.
Proof.
  induction rs as [|[e|] rs IH]; simpl; congruence.
Qed.

Lemma traverse_Forall2 {A B} (f : A -> result B) (P : A -> B -> Prop)
      (xs : list A) (ys : list B) :
  (forall x y, P x y -> f x = Ok y) ->
  Forall2 P xs ys -> traverse f xs = Ok ys.
Proof.
  intros Hf H. induction H as [|x y xs ys Hxy _ IH]; simpl; [reflexivity|].
  rewrite (Hf _ _ Hxy). simpl. rewrite IH. reflexivity.
Qed.

Lemma thread_invariant {A S} (step : A -> S -> result S) (I : S -> Prop)
      (xs : list A) :
  Forall (fun x => forall s s', step x s = Ok s' -> I s -> I s') xs ->
  forall s s', thread step xs s = Ok s' -> I s -> I s'.
Proof.
  induction 1 as [|x xs Hx _ IH]; simpl; intros s s' H Hs.
  - inversion H; subst; assumption.
  - destruct (step x s) as [s1| |] eqn:E; simpl in H; try discriminate.
    eapply IH; eauto.
Qed.

Lemma apply_opts_withAlias (names : list string) (options : handleAnyOptions) :
  exists options', apply_opts options (map withAlias names) = Ok options'.
Proof.
  revert options. induction names as [|n names IH]; intros options; simpl; eauto.
Qed.

(** ** Unfolding equations of the mutually recursive methods *)

Lemma WhereGroup_expression_eq (op : ExpressionListType) (conditions : list any) :
  WhereGroup_expression (mkWhereGroup op conditions) =
  (exps <- collect condition_expression conditions ;;
   match exps with
   | [] => Ok None
   | _ => Ok (Some (combine op exps))
   end).
Proof.
  simpl. unfold condition_expression.
  destruct (collect _ conditions) as [[|e exps]| |]; simpl; try reflexivity.
  destruct op; reflexivity.
Qed.

Lemma Relation_join_eq jt on tn ta relations ds :
  Relation_join (mkRelation jt on (mkTable tn ta relations)) ds =
  (onConds <- collect (fun o =>
                         match o with
                         | OfBoolOp v => fmap Some (BoolOp_expression v)
                         | OfRangeOp v => fmap Some (RangeOp_expression v)
                         | OfWhereGroup v => fmap Some (WhereGroup_expression v)
                         | Pointer (OfBoolOp v) => fmap Some (BoolOp_expression v)
                         | Pointer (OfRangeOp v) => fmap Some (RangeOp_expression v)
                         | Pointer (OfWhereGroup v) => fmap Some (WhereGroup_expression v)
                         | NilPointer ToOther => Ok None
                         | NilPointer _ => Panic
                         | _ => Ok None
                         end) on ;;
   thread Relation_join relations
     (SelectDataset.JoinWith
        match jt with
        | InnerJoinType => InnerJoin
        | LeftJoinType => LeftJoin
        | RightJoinType => RightJoin
        | _ => PlainJoin
        end (tn, ta) onConds ds)).
Proof. reflexivity. Qed.

(** ** The mutation guard of [Edit] and [Delete] *)

(** C3. On a builder whose [Wheres] list is empty, [Edit] and [Delete]
    both return the empty query string, nil arguments and
    [ErrMissingWhereCondition]; no dataset reaches goqu's [ToSQL]. *)
Theorem Edit_Delete_missing_where (qb : SQLBuilder) (entry : list (string * any)) :
  Wheres qb = [] ->
  Edit entry qb = Ok (Values "" [] (Some ErrMissingWhereCondition)) /\
  Delete qb = Ok (Values "" [] (Some ErrMissingWhereCondition)).
Proof.
  intros H. unfold Edit, Delete. rewrite H. split; reflexivity.
Qed.

Lemma Edit_Delete_missing_where_witness :
  Edit [("username", GoString "jane_doe")] (New "mysql" "users" "u")
  = Ok (Values "" [] (Some ErrMissingWhereCondition)) /\
  Delete (New "mysql" "users" "u")
  = Ok (Values "" [] (Some ErrMissingWhereCondition)).
Proof.
  apply (Edit_Delete_missing_where (New "mysql" "users" "u")
           [("username", GoString "jane_doe")]).
  reflexivity.
Defined.

(** C10. The guard of [Edit] and [Delete] looks at the length of [Wheres]
    only.  Whenever the list is non-empty and its entries resolve (to the
    expressions [exps], each of which may be nil), both methods go on to
    hand a dataset carrying [exps] to goqu's [ToSQL] -- also when every
    entry resolved to no expression. *)
Theorem guard_tests_length_only
        (qb : SQLBuilder) (entry : list (string * any))
        (exps : list (option Expression)) :
  Wheres qb <> [] ->
  where_expressions (Wheres qb) = Ok exps ->
  Edit entry qb =
    Ok (UpdateDataset_ToSQL
          (mkUpdateDataset (Table_Name (SQLBuilder_Table qb)) (Dialect qb) exps entry true)) /\
  Delete qb =
    Ok (DeleteDataset_ToSQL
          (mkDeleteDataset (Table_Name (SQLBuilder_Table qb)) (Dialect qb) exps true)).
Proof.
  intros Hne Hexps. unfold Edit, Delete.
  destruct (Wheres qb) as [|w ws] eqn:E; [congruence|].
  simpl length. simpl Nat.eqb. cbv iota. rewrite Hexps. split; reflexivity.
Qed.

Lemma guard_tests_length_only_witness :
  let qb := Where [OfWhereGroup (mkWhereGroup AndType [])] (New "mysql" "users" "u") in
  Edit [("active", GoBool false)] qb =
    Ok (UpdateDataset_ToSQL
          (mkUpdateDataset "users" "mysql" [None] [("active", GoBool false)] true)) /\
  Delete qb = Ok (DeleteDataset_ToSQL (mkDeleteDataset "users" "mysql" [None] true)).
Proof.
  apply (guard_tests_length_only
           (Where [OfWhereGroup (mkWhereGroup AndType [])] (New "mysql" "users" "u"))
           [("active", GoBool false)] [None]).
  - discriminate.
  - reflexivity.
Defined.

(** A [Wheres] entry that is not a condition type passes the guard too;
    [handleAny] binds it as a literal value. *)
Example Delete_with_a_scalar_where :
  Delete (mkSQLBuilder "mysql" [] (mkTable "users" "u" []) [GoInt 1] [] [] 10 0)
  = Ok (DeleteDataset_ToSQL
          (mkDeleteDataset "users" "mysql" [Some (goqu_V (GoInt 1))] true)).
Proof. reflexivity. Qed.

(** ** Sequences *)

(** An empty sequence resolves to the literal [(?)] bound to one
    argument, the empty value list, and a non-empty sequence to a bound
    literal holding the very sequence (same elements, same order).  This
    is so for every list of alias options, and in particular for the call
    [BoolOp.expression] makes for an [In] condition.  What SQL goqu writes
    for these literals is not part of the package. *)
Lemma sequence_literal
        (aliases : list string) (x : any) (xs : list any)
        (fieldName tableAlias : string) :
  handleAny (Slice []) (map withAlias aliases)
  = Ok (Some (goqu_L "(?)" [OfExpression (goqu_V (Slice []))])) /\
  handleAny (Slice (x :: xs)) (map withAlias aliases)
  = Ok (Some (goqu_V (Slice (x :: xs)))) /\
  BoolOp_expression (mkBoolOp InOp fieldName tableAlias (Slice []))
  = Ok (Some (BooleanMethod InOp (goqu_C_Table fieldName tableAlias)
                (OfExpression (goqu_L "(?)" [OfExpression (goqu_V (Slice []))])))) /\
  BoolOp_expression (mkBoolOp InOp fieldName tableAlias (Slice (x :: xs)))
  = Ok (Some (BooleanMethod InOp (goqu_C_Table fieldName tableAlias)
                (OfExpression (goqu_V (Slice (x :: xs)))))).
Proof.
  destruct (apply_opts_withAlias aliases (mkOptions "")) as [o Ho].
  repeat split; simpl; try rewrite Ho; reflexivity.
Qed.

(** ** Groups of conditions *)

(** C6. Let [rs] list, child by child, what each child of a group
    produces: the expression (or nil) its own [expression] method
    returns if the child is a [BoolOp], [RangeOp] or [WhereGroup], and nil
    for any other child.  Then the group compiles, without error, to nil
    when no entry of [rs] is an expression, and otherwise to [goqu.Or]
    (for [OrType]) or [goqu.And] of exactly the non-nil entries, in order. *)
Theorem WhereGroup_expression_skips
        (op : ExpressionListType) (conditions : list any)
        (rs : list (option Expression)) :
  Forall2 (fun cond r =>
             if is_condition cond then condition_expression cond = Ok r
             else r = None) conditions rs ->
  WhereGroup_expression (mkWhereGroup op conditions) =
    Ok match non_nil rs with
       | [] => None
       | exps => Some (combine op exps)
       end.
Proof.
  intros H. rewrite WhereGroup_expression_eq, collect_traverse.
  assert (Hrs : traverse condition_expression conditions = Ok rs).
  { apply traverse_Forall2 with (2 := H).
    intros cond r. destruct cond; simpl; intros Hr; subst; auto. }
  rewrite Hrs. simpl. rewrite non_nil_flat_map.
  destruct (non_nil rs); reflexivity.
Qed.

Lemma WhereGroup_expression_skips_witness :
  WhereGroup_expression
    (mkWhereGroup OrType
       [GoString "junk";
        OfBoolOp (mkBoolOp EqOp "role" "u" (GoString "admin"));
        OfWhereGroup (mkWhereGroup AndType [Nil; OfBoolOp (mkBoolOp (OtherBooleanOperation 99) "x" "" Nil)]);
        OfBoolOp (mkBoolOp EqOp "role" "u" (GoString "mod"))])
  = Ok (Some (goqu_Or
                [BooleanMethod EqOp (goqu_C_Table "role" "u")
                   (OfExpression (goqu_V (GoString "admin")));
                 BooleanMethod EqOp (goqu_C_Table "role" "u")
                   (OfExpression (goqu_V (GoString "mod")))])).
Proof.
  apply (WhereGroup_expression_skips OrType _
           [None;
            Some (BooleanMethod EqOp (goqu_C_Table "role" "u")
                    (OfExpression (goqu_V (GoString "admin"))));
            None;
            Some (BooleanMethod EqOp (goqu_C_Table "role" "u")
                    (OfExpression (goqu_V (GoString "mod"))))]).
  repeat constructor.
Defined.

(** ** LIMIT and OFFSET *)

Lemma Relation_depth_child (child : Relation) (relations : list Relation) :
  In child relations ->
  Relation_depth child <=
  fold_right (fun c d => Nat.max (Relation_depth c) d) 0 relations.
Proof.
  induction relations as [|r rs IH]; simpl; [tauto|].
  intros [->|H]; [lia|]. specialize (IH H). lia.
Qed.

(** Joins never touch the LIMIT and OFFSET clauses. *)
Lemma Relation_join_keeps_limit (n : nat) :
  forall r ds ds',
    Relation_depth r < n ->
    Relation_join r ds = Ok ds' ->
    sd_limit ds' = sd_limit ds /\ sd_offset ds' = sd_offset ds.
Proof.
  induction n as [|n IH]; intros r ds ds' Hd H; [lia|].
  destruct r as [jt on [tn ta relations]].
  rewrite Relation_join_eq in H.
  destruct (collect _ on) as [onConds| |]; simpl in H; try discriminate.
  apply (thread_invariant Relation_join
           (fun s => sd_limit s = sd_limit ds /\ sd_offset s = sd_offset ds)) in H.
  - exact H.
  - apply Forall_forall. intros child Hin s s' Hs [Hl Ho].
    simpl in Hd. pose proof (Relation_depth_child child relations Hin).
    destruct (IH child s s') as [Hl' Ho']; [lia|assumption|]. split; congruence.
  - destruct ds; split; reflexivity.
Qed.

Lemma mainSelect_eq dialect fields tn ta relations wheres sorts groupBy l o :
  mainSelect (mkSQLBuilder dialect fields (mkTable tn ta relations) wheres sorts groupBy l o) =
  (ds <- thread Relation_join relations
           (SelectDataset.WithDialect dialect (SelectDataset.From tn ta)) ;;
   ds <- match fields with
         | [] => Ok ds
         | _ =>
             selects <- traverse (fun f => fmap to_any (Field_expression f)) fields ;;
             Ok (SelectDataset.Select selects ds)
         end ;;
   ds <- match wheres with
         | [] => Ok ds
         | _ =>
             expressions <- traverse (fun w => handleAny w []) wheres ;;
             Ok (SelectDataset.Where expressions ds)
         end ;;
   let ds := match sorts with
             | [] => ds
             | _ => SelectDataset.Order (map Sort_expression sorts) ds
             end in
   let ds := match groupBy with
             | [] => ds
             | _ =>
                 SelectDataset.GroupBy
                   (map (fun g =>
                           if negb (String.eqb (Field_Name g) "") then
                             if negb (String.eqb (Field_TableAlias g) "")
                             then OfExpression (identifierExpression g)
                             else GoString (Field_Name g)
                           else if aliased g then GoString (Field_FieldAlias g)
                           else Nil) groupBy) ds
             end in
   Ok ds).
Proof. reflexivity. Qed.

(** [mainSelect] leaves the LIMIT and OFFSET clauses unset. *)
Lemma mainSelect_no_limit (qb : SQLBuilder) (ds : SelectDataset) :
  mainSelect qb = Ok ds -> sd_limit ds = None /\ sd_offset ds = None.
Proof.
  destruct qb as [dialect fields [tn ta relations] wheres sorts groupBy l o].
  rewrite mainSelect_eq.
  destruct (thread Relation_join relations _) as [ds1| |] eqn:E1; simpl; try discriminate.
  assert (H1 : sd_limit ds1 = None /\ sd_offset ds1 = None).
  { apply (thread_invariant Relation_join
             (fun s => sd_limit s = None /\ sd_offset s = None)) in E1.
    - exact E1.
    - apply Forall_forall. intros r _ s s' Hs [Hl Ho].
      destruct (Relation_join_keeps_limit (S (Relation_depth r)) r s s') as [Hl' Ho'];
        [lia|assumption|]. split; congruence.
    - split; reflexivity. }
  assert (Hsel : forall r : result SelectDataset,
             (forall d, r = Ok d -> sd_limit d = None /\ sd_offset d = None) ->
             forall k : SelectDataset -> result SelectDataset,
               (forall d d', k d = Ok d' ->
                             sd_limit d = None /\ sd_offset d = None ->
                             sd_limit d' = None /\ sd_offset d' = None) ->
               forall d', bind r k = Ok d' -> sd_limit d' = None /\ sd_offset d' = None).
  { intros r Hr k Hk d' Hb. destruct r as [d| |]; simpl in Hb; try discriminate.
    eapply Hk; eauto. }
  intros H. revert H. apply Hsel.
  - intros d Hd. destruct fields as [|f fs].
    + inversion Hd; subst; assumption.
    + destruct (traverse _ (f :: fs)) as [sel| |]; simpl in Hd; try discriminate.
      inversion Hd; subst. destruct ds1; assumption.
  - intros d d' Hd Hlim. revert Hd. apply Hsel.
    + intros d0 Hd0. destruct wheres as [|w ws].
      * inversion Hd0; subst; assumption.
      * destruct (traverse _ (w :: ws)) as [es| |]; simpl in Hd0; try discriminate.
        inversion Hd0; subst. destruct d; assumption.
    + intros d0 d1 Hd1 Hlim0. inversion Hd1; subst.
      destruct sorts, groupBy; destruct d0; assumption.
Qed.

(** C9. A builder made by [New] has limit 10 and offset 0, and [Select]
    and [Count] on it hand goqu a prepared dataset whose LIMIT clause is
    10.  For any builder [qb] on which [mainSelect] succeeds, the dataset
    [Select] and [Count] compile is prepared, has a LIMIT clause (with
    value [limit qb]) exactly when [limit qb > 0] and an OFFSET clause
    exactly when [offset qb > 0]; so after [Limit(0)] there is no LIMIT
    clause and after [Offset(0)] no OFFSET clause. *)
Theorem New_default_limit
        (dialect tableName tableAlias : string)
        (qb : SQLBuilder) (ds0 : SelectDataset) :
  mainSelect qb = Ok ds0 ->
  limit (New dialect tableName tableAlias) = 10%N /\
  Select (New dialect tableName tableAlias) =
    Ok (SelectDataset_ToSQL
          (mkSelectDataset (tableName, tableAlias) dialect [] [] [] [] []
                           (Some 10%N) None true)) /\
  Count (New dialect tableName tableAlias) =
    Ok (SelectDataset_ToSQL
          (mkSelectDataset (tableName, tableAlias) dialect [] [OfExpression goqu_COUNT_Star]
                           [] [] [] (Some 10%N) None true)) /\
  (exists ds, Select qb = Ok (SelectDataset_ToSQL ds) /\
              sd_limit ds = clause_of (limit qb) /\
              sd_offset ds = clause_of (offset qb) /\
              sd_prepared ds = true) /\
  (exists ds, Count qb = Ok (SelectDataset_ToSQL ds) /\
              sd_limit ds = clause_of (limit qb) /\
              sd_offset ds = clause_of (offset qb) /\
              sd_prepared ds = true) /\
  sd_limit (applyLimitOffset (Limit 0 qb) ds0) = None /\
  sd_offset (applyLimitOffset (Offset 0 qb) ds0) = None.
Proof.
  intros H. destruct (mainSelect_no_limit qb ds0 H) as [Hl Ho].
  assert (Happly : sd_limit (applyLimitOffset qb ds0) = clause_of (limit qb) /\
                   sd_offset (applyLimitOffset qb ds0) = clause_of (offset qb)).
  { unfold applyLimitOffset, clause_of.
    destruct (0 <? limit qb)%N, (0 <? offset qb)%N; destruct ds0; simpl in *; auto. }
  destruct Happly as [Al Ao].
  repeat split; try reflexivity.
  - exists (SelectDataset.Prepared true (applyLimitOffset qb ds0)).
    unfold Select. rewrite H. simpl.
    destruct (applyLimitOffset qb ds0); simpl in *; auto.
  - exists (SelectDataset.Select [OfExpression goqu_COUNT_Star]
              (SelectDataset.Prepared true (applyLimitOffset qb ds0))).
    unfold Count. rewrite H. simpl.
    destruct (applyLimitOffset qb ds0); simpl in *; auto.
  - destruct qb; unfold applyLimitOffset; simpl.
    match goal with |- context [(0 <? ?o)%N] => destruct (0 <? o)%N end;
      destruct ds0; simpl in *; auto.
  - destruct qb; unfold applyLimitOffset; simpl.
    match goal with |- context [(0 <? ?o)%N] => destruct (0 <? o)%N end;
      destruct ds0; simpl in *; auto.
Qed.

Lemma New_default_limit_witness :
  exists ds,
    Select (Limit 0 (Where [OfBoolOp (mkBoolOp EqOp "status" "u" (GoString "active"))]
                       (New "mysql" "users" "u")))
    = Ok (SelectDataset_ToSQL ds) /\
    sd_limit ds = None /\ sd_offset ds = None /\ sd_prepared ds = true.
Proof.
  refine (proj1 (proj2 (proj2 (proj2
            (New_default_limit "mysql" "users" "u"
               (Limit 0 (Where [OfBoolOp (mkBoolOp EqOp "status" "u" (GoString "active"))]
                           (New "mysql" "users" "u")))
               (mkSelectDataset ("users", "u") "mysql" [] []
                  [Some (BooleanMethod EqOp (goqu_C_Table "status" "u")
                           (OfExpression (goqu_V (GoString "active"))))]
                  [] [] None None false)
               _))))).
  reflexivity.
Defined.

(** ** A group around a single child *)

Lemma combine_single_neq (op : ExpressionListType) (e : Expression) :
  combine op [e] <> e.
Proof.
  intros H. apply (f_equal list_depth) in H.
  destruct op; simpl in H; lia.
Qed.

Lemma handleAny_of_condition (child : any) :
  is_condition child = true -> handleAny child [] = condition_expression child.
Proof.
  destruct child; simpl; intros H; try discriminate H; reflexivity.
Qed.

(** C8 (amended).  A group (And, Or, and any other operator value, which
    is taken as And) around exactly one child that is a [BoolOp], a
    [RangeOp] or a [WhereGroup] value compiles to [goqu.And] or [goqu.Or]
    of the one expression the child compiles to on its own, nothing else
    being added, and to nil when the child compiles to nil.  The result
    is that one-element list, never the expression of the child itself.
    Around a child of any other type the group compiles to nil. *)
Theorem single_child_group (op : ExpressionListType) (child : any) :
  WhereGroup_expression (mkWhereGroup op [child])
  = (if is_condition child
     then fmap (option_map (fun e => combine op [e])) (handleAny child [])
     else Ok None) /\
  (forall e, combine op [e] <> e) /\
  (forall e, is_condition child = true -> handleAny child [] = Ok (Some e) ->
             WhereGroup_expression (mkWhereGroup op [child]) = Ok (Some (combine op [e])) /\
             WhereGroup_expression (mkWhereGroup op [child]) <> handleAny child []).
Proof.
  assert (E : WhereGroup_expression (mkWhereGroup op [child])
              = (if is_condition child
                 then fmap (option_map (fun e => combine op [e])) (handleAny child [])
                 else Ok None)).
  { rewrite WhereGroup_expression_eq.
    destruct (is_condition child) eqn:Hc.
    - rewrite (handleAny_of_condition child Hc).
      unfold condition_expression.
      destruct child; try discriminate Hc; simpl;
        match goal with
        | |- context [bind ?r _] => destruct r as [[x|]| |]; simpl; try reflexivity
        end; destruct op; reflexivity.
    - destruct child; try discriminate Hc; reflexivity. }
  split; [exact E|]. split; [intros e; apply combine_single_neq|].
  intros e Hc He. rewrite E, Hc, He. simpl. split; [reflexivity|].
  intros H. inversion H as [H1]. exact (combine_single_neq op e H1).
Qed.

(** C8 as stated fails.  A pointer to a condition resolves on its own,
    but a group skips it and compiles to nil; and around a condition
    value the group gives a one-element list, not the expression of the
    child. *)
Lemma pointer_child_is_skipped :
  let bo := mkBoolOp EqOp "status" "u" (GoString "active") in
  let e := BooleanMethod EqOp (goqu_C_Table "status" "u")
             (OfExpression (goqu_V (GoString "active"))) in
  handleAny (Pointer (OfBoolOp bo)) [] = Ok (Some e) /\
  WhereGroup_expression (mkWhereGroup AndType [Pointer (OfBoolOp bo)]) = Ok None /\
  handleAny (OfBoolOp bo) [] = Ok (Some e) /\
  WhereGroup_expression (mkWhereGroup AndType [OfBoolOp bo]) = Ok (Some (goqu_And [e])) /\
  goqu_And [e] <> e.
Proof.
  cbv zeta. repeat split; try reflexivity. discriminate.
Qed.

(** ** The dynamic value resolver *)

Lemma handleAny_Pointer (p : any) (opts : list handleAnyOption) :
  handleAny (Pointer p) opts =
  (options <- apply_opts (mkOptions "") opts ;; typeTests p options).
Proof.
  simpl. destruct (apply_opts (mkOptions "") opts); simpl; reflexivity.
Qed.

Lemma handleAny_value (a : any) (opts : list handleAnyOption) :
  is_nil a = false -> is_pointer a = false ->
  handleAny a opts =
  (options <- apply_opts (mkOptions "") opts ;; typeTests a options).
Proof.
  destruct a as [| | | | | | | [|x xs] | | | | | | | | | | e | ];
    simpl; intros; try discriminate;
    try (destruct e; try discriminate);
    destruct (apply_opts (mkOptions "") opts); reflexivity.
Qed.

Lemma resolvable_Pointer (p : any) : resolvable (Pointer p) = tests_resolvable p.
Proof. destruct p; reflexivity. Qed.

Lemma resolvable_value (a : any) :
  is_pointer a = false -> resolvable a = tests_resolvable a.
Proof. destruct a; simpl; intros; try discriminate; reflexivity. Qed.

Lemma handleAny_dataset (ds : SelectDataset) (opts : list handleAnyOption) :
  handleAny (OfExpression (OfSelectDataset ds)) opts =
  (options <- apply_opts (mkOptions "") opts ;;
   Ok (Some (goqu_V (OfSelectDatasetStruct ds)))).
Proof.
  simpl. destruct (apply_opts (mkOptions "") opts); reflexivity.
Qed.

Lemma Field_expression_eq name tableAlias fieldAlias e :
  Field_expression (mkField name tableAlias fieldAlias e) =
  if is_nil e then
    if negb (fieldAlias =? "")
    then Ok (Some (As (goqu_C_Table name tableAlias) fieldAlias))
    else Ok (Some (goqu_C_Table name tableAlias))
  else
    handleAny e [if negb (fieldAlias =? "") then withAlias fieldAlias
                 else if negb (name =? "") then withAlias name
                 else None].
Proof.
  destruct e; reflexivity.
Qed.

Lemma BoolOp_expression_eq op fieldName tableAlias value :
  BoolOp_expression (mkBoolOp op fieldName tableAlias value) =
  match op with
  | OtherBooleanOperation _ => Ok None
  | _ => v <- handleAny value [] ;;
         Ok (Some (BooleanMethod op (goqu_C_Table fieldName tableAlias) (to_any v)))
  end.
Proof. destruct op; reflexivity. Qed.

Lemma RangeOp_expression_eq op fieldName tableAlias start stop :
  RangeOp_expression (mkRangeOp op fieldName tableAlias start stop) =
  (s <- handleAny start [] ;;
   e <- handleAny stop [] ;;
   Ok (Some (match op with
             | NotBetweenOp => NotBetween
             | _ => Between
             end (goqu_C_Table fieldName tableAlias) (goqu_Range (to_any s) (to_any e))))).
Proof.
  simpl. destruct (handleAny start []); simpl; try reflexivity.
  destruct (handleAny stop []); simpl; try reflexivity.
  destruct op; reflexivity.
Qed.

Lemma Literal_expression_eq value args :
  Literal_expression (mkLiteral value args) =
  (argContainer <- traverse (fun arg => fmap to_any (handleAny arg [])) args ;;
   Ok (goqu_L value argContainer)).
Proof. reflexivity. Qed.

Lemma Case_expression_eq conditions els :
  Case_expression (mkCase conditions els) =
  (caseExpr <- thread (fun cond caseExpr =>
                         match cond with
                         | mkWhenThen w t =>
                             w' <- handleAny w [] ;;
                             t' <- handleAny t [] ;;
                             Ok (When caseExpr (to_any w') (to_any t'))
                         end) conditions goqu_Case ;;
   if is_nil els then Ok caseExpr
   else e <- handleAny els [] ;; Ok (Else caseExpr (to_any e))).
Proof.
  simpl. destruct (thread _ conditions goqu_Case); simpl; try reflexivity.
  destruct els; reflexivity.
Qed.

Lemma Coalesce_expression_eq fields defaultValue :
  Coalesce_expression (mkCoalesce fields defaultValue) =
  (fs <- traverse (fun f => fmap to_any (Field_expression f)) fields ;;
   if is_nil defaultValue then Ok (goqu_COALESCE fs)
   else d <- handleAny defaultValue [] ;; Ok (goqu_COALESCE (fs ++ [to_any d]))).
Proof.
  simpl. destruct (traverse _ fields); simpl; try reflexivity.
  destruct defaultValue; reflexivity.
Qed.

(** Loops whose body returns, return. *)
Lemma traverse_total {A B} (f : A -> result B) (xs : list A) :
  (forall x, In x xs -> exists y, f x = Ok y) ->
  exists ys, traverse f xs = Ok ys.
Proof.
  induction xs as [|x xs IH]; simpl; intros H; [eauto|].
  destruct (H x (or_introl eq_refl)) as [y Hy]. rewrite Hy. simpl.
  destruct IH as [ys Hys]; [intros; apply H; auto|]. rewrite Hys. simpl. eauto.
Qed.

Lemma collect_total {A B} (g : A -> result (option B)) (xs : list A) :
  (forall x, In x xs -> exists y, g x = Ok y) ->
  exists ys, collect g xs = Ok ys.
Proof.
  intros H. rewrite collect_traverse.
  destruct (traverse_total g xs H) as [rs Hrs]. rewrite Hrs. simpl. eauto.
Qed.

Lemma thread_total {A S} (step : A -> S -> result S) (xs : list A) :
  (forall x, In x xs -> forall s, exists s', step x s = Ok s') ->
  forall s, exists s', thread step xs s = Ok s'.
Proof.
  induction xs as [|x xs IH]; simpl; intros H s; [eauto|].
  destruct (H x (or_introl eq_refl) s) as [s1 Hs1]. rewrite Hs1. simpl.
  apply IH. intros; apply H; auto.
Qed.

Lemma list_sum_In {A} (m : A -> nat) (x : A) (xs : list A) :
  In x xs -> m x <= list_sum (map m xs).
Proof.
  induction xs as [|y ys IH]; simpl; [tauto|].
  intros [->|H]; [lia|]. specialize (IH H). lia.
Qed.

Lemma forallb_In {A} (p : A -> bool) (x : A) (xs : list A) :
  forallb p xs = true -> In x xs -> p x = true.
Proof. intros H Hin. rewrite forallb_forall in H. auto. Qed.

(** On resolvable values every method of the resolver returns.  The ten
    mutually recursive methods are handled together, by induction on a
    bound on the size of the value. *)
Lemma resolver_total_upto (n : nat) :
  (forall a opts options,
      size a < n -> resolvable a = true ->
      apply_opts (mkOptions "") opts = Ok options ->
      exists r, handleAny a opts = Ok r) /\
  (forall f, Field_size f < n -> Field_resolvable f = true ->
             exists r, Field_expression f = Ok r) /\
  (forall bo, BoolOp_size bo < n -> BoolOp_resolvable bo = true ->
              exists r, BoolOp_expression bo = Ok r) /\
  (forall wg, WhereGroup_size wg < n -> WhereGroup_resolvable wg = true ->
              exists r, WhereGroup_expression wg = Ok r) /\
  (forall ro, RangeOp_size ro < n -> RangeOp_resolvable ro = true ->
              exists r, RangeOp_expression ro = Ok r) /\
  (forall l, Literal_size l < n -> Literal_resolvable l = true ->
             exists r, Literal_expression l = Ok r) /\
  (forall c, Case_size c < n -> Case_resolvable c = true ->
             exists r, Case_expression c = Ok r) /\
  (forall co, Coalesce_size co < n -> Coalesce_resolvable co = true ->
              exists r, Coalesce_expression co = Ok r) /\
  (forall qb, SQLBuilder_size qb < n -> SQLBuilder_resolvable qb = true ->
              exists ds, mainSelect qb = Ok ds) /\
  (forall r ds, Relation_size r < n -> Relation_resolvable r = true ->
                exists ds', Relation_join r ds = Ok ds').
Proof.
  induction n as [|n IH].
  { repeat split; intros; lia. }
  destruct IH as (IHany & IHField & IHBoolOp & IHGroup & IHRange & IHLiteral
                  & IHCase & IHCoalesce & IHBuilder & IHJoin).
  assert (Hnil : forall a, size a < n -> resolvable a = true ->
                           exists r, handleAny a [] = Ok r).
  { intros a Hs Hr. apply (IHany a [] (mkOptions "")); auto. }
  assert (Hcond : forall c, size c <= n -> 
                            match c with
                            | OfBoolOp v => BoolOp_resolvable v
                            | OfRangeOp v => RangeOp_resolvable v
                            | OfWhereGroup v => WhereGroup_resolvable v
                            | _ => true
                            end = true ->
                            exists r, condition_expression c = Ok r).
  { intros c Hs Hr. destruct c; simpl in *; eauto. }
  assert (Htests : forall p options, size p <= n -> tests_resolvable p = true ->
                                     exists r, typeTests p options = Ok r).
  { intros p options Hs Hr.
    destruct p as [| |p'| | | | | [|x xs] | | | | | | | | | | | ]; simpl in *; eauto.
    - destruct p'; eauto.
    - destruct (IHBuilder qb) as [ds Hds]; auto. rewrite Hds. simpl. eauto.
    - destruct (IHLiteral l) as [x Hx]; auto. rewrite Hx. simpl. eauto.
    - destruct (IHCase c) as [x Hx]; auto. rewrite Hx. simpl. eauto.
    - destruct (IHCoalesce co) as [x Hx]; auto. rewrite Hx. simpl. eauto. }
  repeat split.
  - (* handleAny *)
    intros a opts options Hs Hr Ho.
    destruct (is_pointer a) eqn:Hp.
    + destruct a as [| | | | | | | | | | | | | | | | | e | ]; try discriminate.
      * simpl. rewrite Ho. simpl. eauto.
      * rewrite handleAny_Pointer, Ho. simpl.
        rewrite resolvable_Pointer in Hr. simpl in Hs. apply Htests; auto; lia.
      * destruct e; try discriminate. rewrite handleAny_dataset, Ho. simpl. eauto.
    + destruct (is_nil a) eqn:Hn.
      * destruct a; try discriminate. simpl. eauto.
      * rewrite handleAny_value, Ho by assumption. simpl.
        rewrite resolvable_value in Hr by assumption. apply Htests; auto; lia.
  - (* Field.expression *)
    intros [name tableAlias fieldAlias e] Hs Hr. rewrite Field_expression_eq.
    simpl in Hs, Hr. destruct (is_nil e) eqn:Hn.
    + destruct (negb (fieldAlias =? "")); eauto.
    + assert (Hr' : (negb (fieldAlias =? "") || negb (name =? "")) && resolvable e = true).
      { destruct e; try discriminate; assumption. }
      apply andb_prop in Hr'. destruct Hr' as [Hname He].
      destruct (negb (fieldAlias =? "")) eqn:Ha.
      * apply (IHany e _ (mkOptions fieldAlias)); auto; lia.
      * simpl in Hname. rewrite Hname.
        apply (IHany e _ (mkOptions name)); auto; lia.
  - (* BoolOp.expression *)
    intros [op fieldName tableAlias value] Hs Hr. rewrite BoolOp_expression_eq.
    simpl in Hs, Hr.
    destruct (Hnil value) as [v Hv]; auto; [lia|].
    destruct op; try (rewrite Hv; simpl); eauto.
  - (* WhereGroup.expression *)
    intros [op conditions] Hs Hr. rewrite WhereGroup_expression_eq.
    simpl in Hs, Hr.
    destruct (collect_total condition_expression conditions) as [exps He].
    { intros c Hin. apply Hcond.
      - pose proof (list_sum_In size c conditions Hin). lia.
      - apply (forallb_In _ c conditions Hr Hin). }
    rewrite He. simpl. destruct exps; eauto.
  - (* RangeOp.expression *)
    intros [op fieldName tableAlias start stop] Hs Hr. rewrite RangeOp_expression_eq.
    simpl in Hs, Hr. apply andb_prop in Hr. destruct Hr as [Hr1 Hr2].
    destruct (Hnil start) as [s Hs1]; auto; [lia|].
    destruct (Hnil stop) as [e He]; auto; [lia|].
    rewrite Hs1, He. simpl. eauto.
  - (* Literal.expression *)
    intros [value args] Hs Hr. rewrite Literal_expression_eq.
    simpl in Hs, Hr.
    destruct (traverse_total (fun arg => fmap to_any (handleAny arg [])) args) as [xs Hxs].
    { intros arg Hin. destruct (Hnil arg) as [x Hx].
      - pose proof (list_sum_In size arg args Hin). lia.
      - apply (forallb_In _ arg args Hr Hin).
      - rewrite Hx. simpl. eauto. }
    rewrite Hxs. simpl. eauto.
  - (* Case.expression *)
    intros [conditions els] Hs Hr. rewrite Case_expression_eq.
    simpl in Hs, Hr. apply andb_prop in Hr. destruct Hr as [Hr1 Hr2].
    destruct (thread_total
                (fun cond caseExpr =>
                   match cond with
                   | mkWhenThen w t =>
                       w' <- handleAny w [] ;;
                       t' <- handleAny t [] ;;
                       Ok (When caseExpr (to_any w') (to_any t'))
                   end) conditions) with (s := goqu_Case) as [caseExpr Hc].
    { intros [w t] Hin s.
      pose proof (list_sum_In WhenThen_size _ conditions Hin) as Hsz. simpl in Hsz.
      pose proof (forallb_In _ _ conditions Hr1 Hin) as Hwt. simpl in Hwt.
      apply andb_prop in Hwt. destruct Hwt as [Hw Ht].
      destruct (Hnil w) as [w' Hw']; auto; [lia|].
      destruct (Hnil t) as [t' Ht']; auto; [lia|].
      rewrite Hw', Ht'. simpl. eauto. }
    rewrite Hc. simpl. destruct (is_nil els); eauto.
    destruct (Hnil els) as [e He]; auto; [lia|]. rewrite He. simpl. eauto.
  - (* Coalesce.expression *)
    intros [fields defaultValue] Hs Hr. rewrite Coalesce_expression_eq.
    simpl in Hs, Hr. apply andb_prop in Hr. destruct Hr as [Hr1 Hr2].
    destruct (traverse_total (fun f => fmap to_any (Field_expression f)) fields) as [fs Hfs].
    { intros f Hin. destruct (IHField f) as [x Hx].
      - pose proof (list_sum_In Field_size f fields Hin). lia.
      - apply (forallb_In _ f fields Hr1 Hin).
      - rewrite Hx. simpl. eauto. }
    rewrite Hfs. simpl. destruct (is_nil defaultValue); eauto.
    destruct (Hnil defaultValue) as [d Hd]; auto; [lia|]. rewrite Hd. simpl. eauto.
  - (* mainSelect *)
    intros [dialect fields [tn ta relations] wheres sorts groupBy l o] Hs Hr.
    rewrite mainSelect_eq. simpl in Hs, Hr.
    apply andb_prop in Hr. destruct Hr as [Hr Hr3].
    apply andb_prop in Hr. destruct Hr as [Hr1 Hr2].
    destruct (thread_total Relation_join relations) with
      (s := SelectDataset.WithDialect dialect (SelectDataset.From tn ta)) as [ds1 H1].
    { intros r Hin s. apply IHJoin.
      - pose proof (list_sum_In Relation_size r relations Hin). lia.
      - apply (forallb_In _ r relations Hr1 Hin). }
    rewrite H1. simpl.
    destruct (traverse_total (fun f => fmap to_any (Field_expression f)) fields) as [fs Hfs].
    { intros f Hin. destruct (IHField f) as [x Hx].
      - pose proof (list_sum_In Field_size f fields Hin). lia.
      - apply (forallb_In _ f fields Hr2 Hin).
      - rewrite Hx. simpl. eauto. }
    destruct (traverse_total (fun w => handleAny w []) wheres) as [ws Hws].
    { intros w Hin. apply Hnil.
      - pose proof (list_sum_In size w wheres Hin). lia.
      - apply (forallb_In _ w wheres Hr3 Hin). }
    destruct fields as [|f fields']; [|rewrite Hfs]; simpl;
      (destruct wheres as [|w wheres']; [|rewrite Hws]; simpl; eauto).
  - (* Relation.join *)
    intros [jt on [tn ta relations]] ds Hs Hr.
    rewrite Relation_join_eq. simpl in Hs, Hr.
    apply andb_prop in Hr. destruct Hr as [Hr1 Hr2].
    match goal with
    | |- context [collect ?g on] =>
        destruct (collect_total g on) as [onConds Hon]
    end.
    { intros o Hin.
      pose proof (list_sum_In size o on Hin) as Hsz.
      pose proof (forallb_In _ o on Hr1 Hin) as Ho. simpl in Ho.
      assert (Hm : forall r : result (option Expression),
                 (exists x, r = Ok x) -> exists y, fmap Some r = Ok y).
      { intros r [x ->]. simpl. eauto. }
      destruct o as [|[]|p| | | | | | | | | | | | | | | | ]; simpl in *;
        try discriminate; eauto.
      - destruct p; simpl in *; eauto.
        + apply Hm, IHBoolOp; auto; lia.
        + apply Hm, IHGroup; auto; lia.
        + apply Hm, IHRange; auto; lia.
      - apply Hm, IHBoolOp; auto; lia.
      - apply Hm, IHGroup; auto; lia.
      - apply Hm, IHRange; auto; lia. }
    rewrite Hon. simpl.
    apply thread_total. intros r Hin s. apply IHJoin.
    + pose proof (list_sum_In Relation_size r relations Hin). lia.
    + apply (forallb_In _ r relations Hr2 Hin).
Qed.

(** X16. Called with options none of which is the nil function,
    [handleAny]
    - returns (an expression or nil) on every resolvable value, that is
      whenever no [Field] met on the way embeds an expression without
      having an alias or a name and no join condition is a nil pointer to
      a condition struct;
    - yields the literal NULL for the nil value and for a nil pointer;
    - dereferences a non-nil pointer once, before any type test, and then
      runs the type tests -- not the nil test and the pointer test -- on
      the pointee: pointer and pointee resolve alike when the pointee is
      neither nil nor a pointer, and a pointee that is nil or a pointer
      is bound as a literal value, unless it is a [*goqu.SelectDataset],
      which is a pointer and an expression, and is returned;
    - binds a value that matches none of the type tests as a single
      literal value. *)
Theorem handleAny_resolves
        (a p : any) (t : PointerType)
        (opts : list handleAnyOption) (options : handleAnyOptions) :
  apply_opts (mkOptions "") opts = Ok options ->
  resolvable a = true ->
  (exists r, handleAny a opts = Ok r) /\
  handleAny Nil opts = Ok (Some (goqu_L "NULL" [])) /\
  handleAny (NilPointer t) opts = Ok (Some (goqu_L "NULL" [])) /\
  handleAny (Pointer p) opts = typeTests p options /\
  (is_nil p || is_pointer p = false -> handleAny (Pointer p) opts = handleAny p opts) /\
  (is_nil p || is_pointer p = true ->
   handleAny (Pointer p) opts
   = Ok (Some match dataset_of p with
              | Some ds => OfSelectDataset ds
              | None => goqu_V p
              end)) /\
  (is_scalar a = true -> handleAny a opts = Ok (Some (goqu_V a))).
Proof.
  intros Ho Hr.
  assert (Hp : handleAny (Pointer p) opts = typeTests p options).
  { rewrite handleAny_Pointer, Ho. reflexivity. }
  repeat split.
  - destruct (resolver_total_upto (S (size a))) as [H _].
    apply (H a opts options); auto.
  - simpl. rewrite Ho. reflexivity.
  - exact Hp.
  - intros H. apply orb_false_elim in H. destruct H as [Hn Hptr].
    rewrite Hp, handleAny_value, Ho by assumption. reflexivity.
  - intros H. rewrite Hp.
    destruct p as [| |p'| | | | | | | | | | | | | | | e | ]; try discriminate.
    + reflexivity.
    + reflexivity.
    + destruct p'; reflexivity.
    + destruct e; try discriminate. reflexivity.
  - intros H. destruct a; try discriminate; simpl; rewrite Ho; reflexivity.
Qed.

Lemma handleAny_resolves_witness :
  let f := OfField (mkField "" "" "total"
                      (OfLiteral (mkLiteral "SUM(?)" [OfField (mkField "amount" "o" "" Nil)]))) in
  exists r, handleAny f [withAlias "x"] = Ok r.
Proof.
  refine (proj1 (handleAny_resolves
                   (OfField (mkField "" "" "total"
                      (OfLiteral (mkLiteral "SUM(?)" [OfField (mkField "amount" "o" "" Nil)]))))
                   Nil ToOther [withAlias "x"] (mkOptions "x") _ _)).
  - reflexivity.
  - reflexivity.
Defined.

(** Resolution does not restart on the pointee.  A pointer to a pointer
    to a [Field] is bound as a literal value, whereas the pointer to the
    [Field] resolves to the column reference. *)
Lemma handleAny_does_not_restart :
  handleAny (Pointer (Pointer (OfField (mkField "id" "u" "" Nil)))) []
  = Ok (Some (goqu_V (Pointer (OfField (mkField "id" "u" "" Nil))))) /\
  handleAny (Pointer (OfField (mkField "id" "u" "" Nil))) []
  = Ok (Some (goqu_C_Table "id" "u")) /\
  handleAny (Pointer (Pointer (OfField (mkField "id" "u" "" Nil)))) []
  <> handleAny (Pointer (OfField (mkField "id" "u" "" Nil))) [].
Proof.
  repeat split. discriminate.
Qed.

(** A [*goqu.SelectDataset], the type of a compiled sub-query, is a
    pointer: [handleAny] dereferences it, the struct it points to is no
    [exp.Expression], and it is bound as a literal value. *)
Lemma handleAny_SelectDataset (ds : SelectDataset) (aliases : list string) :
  handleAny (OfExpression (OfSelectDataset ds)) (map withAlias aliases)
  = Ok (Some (goqu_V (OfSelectDatasetStruct ds))) /\
  handleAny (Pointer (OfSelectDatasetStruct ds)) (map withAlias aliases)
  = Ok (Some (goqu_V (OfSelectDatasetStruct ds))) /\
  handleAny (Pointer (OfExpression (OfSelectDataset ds))) (map withAlias aliases)
  = Ok (Some (OfSelectDataset ds)) /\
  handleAny (Pointer (Pointer (OfSelectDatasetStruct ds))) (map withAlias aliases)
  = Ok (Some (OfSelectDataset ds)).
Proof.
  destruct (apply_opts_withAlias aliases (mkOptions "")) as [o Ho].
  repeat split; simpl; rewrite Ho; reflexivity.
Qed.

Lemma handleAny_nil_option_panics (e : any) :
  is_nil e = false -> handleAny e [None] = Panic.
Proof.
  destruct e as [| | | | | | | | | | | | | | | | | x | ]; simpl; intros H;
    try discriminate H; try reflexivity.
  destruct x; reflexivity.
Qed.

(** C4 at the failing inputs.  A [Field] that embeds an expression and
    has neither an alias nor a name makes [Field.expression] leave its
    option at the zero value, the nil function, and hand it to
    [handleAny], which calls it.  So [handleAny] panics on every such
    field, whatever the field embeds and whatever alias options
    [handleAny] itself was called with; with nothing embedded the same
    field resolves to its column. *)
Theorem handleAny_unnamed_expression_field
        (tableAlias : string) (e : any) (aliases : list string) :
  handleAny (OfField (mkField "" tableAlias "" e)) (map withAlias aliases)
  = (if is_nil e then Ok (Some (goqu_C_Table "" tableAlias)) else Panic) /\
  Field_expression (mkField "" tableAlias "" e)
  = (if is_nil e then Ok (Some (goqu_C_Table "" tableAlias)) else Panic) /\
  handleAny (OfField (mkField "" "" "" (OfLiteral (mkLiteral "NOW()" [])))) [] = Panic.
Proof.
  assert (E : Field_expression (mkField "" tableAlias "" e)
              = (if is_nil e then Ok (Some (goqu_C_Table "" tableAlias)) else Panic)).
  { rewrite Field_expression_eq. simpl.
    destruct (is_nil e) eqn:Hn; [reflexivity|].
    apply handleAny_nil_option_panics. exact Hn. }
  split; [|split; [exact E | reflexivity]].
  destruct (apply_opts_withAlias aliases (mkOptions "")) as [o Ho].
  rewrite handleAny_value, Ho by reflexivity. simpl. exact E.
Qed.

(** ** The shape-sniffing decoder *)

Lemma unmarshalCondition_eq (data : json) :
  unmarshalCondition data =
  (typeDetector <- detect data ;;
   if has_key "op" typeDetector then
     if has_key "fieldName" typeDetector then
       if has_key "start" typeDetector then
         fmap OfRangeOp (RangeOp_UnmarshalJSON unmarshalExpression data)
       else
         fmap OfBoolOp (BoolOp_UnmarshalJSON unmarshalExpression data)
     else if has_key "conditions" typeDetector then
       fmap OfWhereGroup (WhereGroup_UnmarshalJSON unmarshalCondition data)
     else Err ErrUnknownCondition
   else Err ErrUnknownCondition).
Proof. destruct data; reflexivity. Qed.

Lemma unmarshalExpression_eq (data : json) :
  unmarshalExpression data =
  (typeDetector <- detect data ;;
   if case_shape typeDetector then
     fmap OfCase (Case_UnmarshalJSON unmarshalCondition unmarshalExpression data)
   else if has_key "fields" typeDetector then
     fmap OfCoalesce (Coalesce_Unmarshal unmarshalExpression data)
   else if has_key "value" typeDetector then
     fmap OfLiteral (Literal_UnmarshalJSON unmarshalExpression data)
   else if has_key "name" typeDetector then
     fmap OfField (Field_UnmarshalJSON unmarshalExpression (mkField "" "" "" Nil) data)
   else if has_key "op" typeDetector && has_key "fieldName" typeDetector then
     if has_key "start" typeDetector then
       fmap OfRangeOp (RangeOp_UnmarshalJSON unmarshalExpression data)
     else
       fmap OfBoolOp (BoolOp_UnmarshalJSON unmarshalExpression data)
   else Err ErrUnknownExpression).
Proof. destruct data; reflexivity. Qed.

(** The Case test of the code is the first rule of [expression_shape]. *)
Lemma case_shape_spec (node : list (string * json)) :
  case_shape node = first_entry_has_when node && entries_are_maps node.
Proof.
  unfold case_shape, first_entry_has_when, entries_are_maps, conditions_entries.
  destruct (map_get (fun v => v) "conditions" node) as [[| | | |[|first rest]|]|];
    try reflexivity.
  destruct first; simpl; rewrite ?andb_false_r; try reflexivity.
  apply andb_comm.
Qed.

Lemma fmap_variant {A} (inj : A -> any) (sh : shape) (r : result A) (v : any) :
  (forall x, variant_of (inj x) = sh) ->
  fmap inj r = Ok v -> variant_of v = sh.
Proof.
  intros Hinj H. destruct r; simpl in H; try discriminate.
  inversion H; subst. apply Hinj.
Qed.

(** A decoder only returns values of its own variant. *)
Lemma decode_as_variant (unknown : error) (sh : shape) (data : json) (v : any) :
  decode_as unknown sh data = Ok v -> variant_of v = sh.
Proof.
  destruct sh; simpl; try discriminate;
    apply fmap_variant; reflexivity.
Qed.

(** A struct field holds what its key holds, transformed. *)
Lemma find_with_map {A} (same : string -> string -> bool) (f : json -> A)
      (key : string) (members : list (string * json)) :
  find_with same f key members = option_map f (find_with same (fun v => v) key members).
Proof.
  induction members as [|[k v] rest IH]; simpl; [reflexivity|].
  rewrite IH. destruct (find_with same (fun v => v) key rest); simpl; [reflexivity|].
  destruct (same k key); reflexivity.
Qed.

Lemma has_key_existsb (key : string) (members : list (string * json)) :
  has_key key members = existsb (fun kv => fst kv =? key) members.
Proof.
  unfold has_key, map_get.
  induction members as [|[k v] rest IH]; simpl; [reflexivity|].
  destruct (find_with String.eqb (fun _ => tt) key rest); simpl in *.
  - rewrite <- IH. apply eq_sym, orb_true_r.
  - rewrite <- IH, orb_false_r. destruct (k =? key); reflexivity.
Qed.

(** Which keys a node has does not depend on the order of its members. *)
Lemma has_key_Permutation (key : string) (node node' : list (string * json)) :
  Permutation node node' -> has_key key node' = has_key key node.
Proof.
  intros HP. rewrite !has_key_existsb.
  apply eq_true_iff_eq. rewrite !existsb_exists.
  split; intros [x [Hin Hx]]; exists x; split; auto.
  - eapply Permutation_in; [apply Permutation_sym|]; eauto.
  - eapply Permutation_in; eauto.
Qed.

Lemma condition_shape_Permutation (node node' : list (string * json)) :
  Permutation node node' -> condition_shape node' = condition_shape node.
Proof.
  intros HP. unfold condition_shape, op_shape.
  rewrite !(has_key_Permutation _ node node' HP). reflexivity.
Qed.

Lemma unmarshalCondition_dispatch (node : list (string * json)) :
  unmarshalCondition (JObject node) =
  decode_as ErrUnknownCondition (condition_shape node) (JObject node).
Proof.
  rewrite unmarshalCondition_eq. unfold condition_shape, op_shape. simpl bind.
  destruct (has_key "op" node), (has_key "fieldName" node),
    (has_key "start" node), (has_key "conditions" node); reflexivity.
Qed.

Lemma unmarshalExpression_dispatch (node : list (string * json)) :
  unmarshalExpression (JObject node) =
  decode_as ErrUnknownExpression (expression_shape node) (JObject node).
Proof.
  rewrite unmarshalExpression_eq. unfold expression_shape, op_shape. simpl bind.
  rewrite case_shape_spec.
  destruct (first_entry_has_when node && entries_are_maps node),
    (has_key "fields" node), (has_key "value" node), (has_key "name" node),
    (has_key "op" node), (has_key "fieldName" node), (has_key "start" node);
    reflexivity.
Qed.

(** The elements of a slice field are decoded once the field is. *)
Lemma slice_field_bind {B} (k : list json -> result (list B))
      (name : string) (aux : list (string * json)) :
  k [] = Ok [] ->
  slice_field k name aux = (elems <- slice_field (fun x => Ok x) name aux ;; k elems).
Proof.
  intros Hk. unfold slice_field, field_get.
  destruct (forallb array_or_null (bindings name aux)); [|reflexivity].
  rewrite (find_with_map names_field (fun v => match v with
                                                | JArray elems => k elems
                                                | _ => Ok []
                                                end)).
  rewrite (find_with_map names_field (fun v => match v with
                                                | JArray elems => Ok elems
                                                | _ => Ok []
                                                end)).
  destruct (find_with names_field (fun v => v) name aux) as [[]|]; simpl;
    auto.
Qed.

Lemma WhereGroup_children (node : list (string * json)) (op : string) (elems : list json) :
  string_field "op" node = Ok op ->
  slice_field (fun x => Ok x) "conditions" node = Ok elems ->
  WhereGroup_UnmarshalJSON unmarshalCondition (JObject node) =
  fmap (mkWhereGroup (stringToExpressionListType op))
       (traverse_at unmarshalCondition
          "failed to unmarshal condition at index %d: %w" 0 elems).
Proof.
  intros Hop Hc. simpl. rewrite Hop. simpl.
  rewrite slice_field_bind, Hc by reflexivity. reflexivity.
Qed.

Lemma Literal_args (node : list (string * json)) (value : string) (elems : list json) :
  string_field "value" node = Ok value ->
  slice_field (fun x => Ok x) "args" node = Ok elems ->
  Literal_UnmarshalJSON unmarshalExpression (JObject node) =
  fmap (mkLiteral value)
       (traverse_at unmarshalValue'
          "failed to unmarshal arg at index %d: %w" 0 elems).
Proof.
  intros Hv Ha. simpl. rewrite Hv. simpl.
  rewrite slice_field_bind, Ha by reflexivity. reflexivity.
Qed.

Lemma fmap_fmap {A B C} (f : A -> B) (g : B -> C) (r : result A) :
  fmap g (fmap f r) = fmap (fun x => g (f x)) r.
Proof. destruct r; reflexivity. Qed.

(** What the two decoders do with a node that is not a key/value node. *)
Lemma unmarshalCondition_node (data : json) :
  unmarshalCondition data
  = match data with
    | JObject node => decode_as ErrUnknownCondition (condition_shape node) data
    | JNull => Err ErrUnknownCondition
    | _ => Err UnmarshalTypeError
    end.
Proof.
  destruct data; try reflexivity. apply unmarshalCondition_dispatch.
Qed.

Lemma unmarshalExpression_node (data : json) :
  unmarshalExpression data
  = match data with
    | JObject node => decode_as ErrUnknownExpression (expression_shape node) data
    | JNull => Err ErrUnknownExpression
    | _ => Err UnmarshalTypeError
    end.
Proof.
  destruct data; try reflexivity. apply unmarshalExpression_dispatch.
Qed.

(** C2 (amended).  [unmarshalCondition] fails with the type error of
    encoding/json on a node that is neither a key/value node nor null
    (an array, a string, a number, a boolean), and with the
    unknown-condition error on null.  A key/value node it hands to the
    decoder of its shape: with keys [op] and [fieldName], to the RangeOp
    decoder when [start] is present and to the BoolOp decoder otherwise
    (so with [op], [fieldName] and [start] the result is never a BoolOp,
    in whatever order the members come); with [op] and [conditions] but
    no [fieldName], to the WhereGroup decoder, which, once encoding/json
    has stored the string [op] and the array [conditions], decodes each
    entry of [conditions] by [unmarshalCondition]; any other key/value
    node fails with the unknown-condition error. *)
Theorem unmarshalCondition_priority
        (data : json) (node node' : list (string * json))
        (op : string) (elems : list json) :
  Permutation node node' ->
  unmarshalCondition data
  = match data with
    | JObject members => decode_as ErrUnknownCondition (condition_shape members) data
    | JNull => Err ErrUnknownCondition
    | _ => Err UnmarshalTypeError
    end /\
  condition_shape node' = condition_shape node /\
  (forall v, unmarshalCondition (JObject node) = Ok v ->
             variant_of v = condition_shape node) /\
  (has_key "op" node && has_key "fieldName" node = true ->
   condition_shape node = if has_key "start" node then RangeOpShape else BoolOpShape) /\
  (has_key "op" node && has_key "fieldName" node && has_key "start" node = true ->
   forall bo, unmarshalCondition (JObject node) <> Ok (OfBoolOp bo) /\
              unmarshalCondition (JObject node') <> Ok (OfBoolOp bo)) /\
  (has_key "op" node && has_key "conditions" node && negb (has_key "fieldName" node) = true ->
   condition_shape node = WhereGroupShape /\
   (string_field "op" node = Ok op ->
    slice_field (fun raw => Ok raw) "conditions" node = Ok elems ->
    unmarshalCondition (JObject node)
    = fmap (fun cs => OfWhereGroup (mkWhereGroup (stringToExpressionListType op) cs))
           (traverse_at unmarshalCondition
              "failed to unmarshal condition at index %d: %w" 0 elems))) /\
  (condition_shape node = UnknownShape ->
   unmarshalCondition (JObject node) = Err ErrUnknownCondition).
Proof.
  intros HP.
  pose proof (unmarshalCondition_dispatch node) as Hd.
  pose proof (unmarshalCondition_dispatch node') as Hd'.
  pose proof (condition_shape_Permutation node node' HP) as Hs.
  repeat split.
  - apply unmarshalCondition_node.
  - exact Hs.
  - intros v Hv. rewrite Hd in Hv. eapply decode_as_variant; eauto.
  - intros H. unfold condition_shape, op_shape. rewrite H. reflexivity.
  - intros Hv. rewrite Hd in Hv. apply decode_as_variant in Hv.
    unfold condition_shape, op_shape in Hv.
    apply andb_prop in H. destruct H as [H H3]. rewrite H, H3 in Hv. discriminate.
  - intros Hv. rewrite Hd', Hs in Hv. apply decode_as_variant in Hv.
    unfold condition_shape, op_shape in Hv.
    apply andb_prop in H. destruct H as [H H3]. rewrite H, H3 in Hv. discriminate.
  - apply andb_prop in H. destruct H as [H Hf]. apply andb_prop in H.
    destruct H as [Ho Hc]. apply negb_true_iff in Hf.
    unfold condition_shape. rewrite Ho, Hc, Hf. reflexivity.
  - intros Hop Hcs.
    apply andb_prop in H. destruct H as [H Hf]. apply andb_prop in H.
    destruct H as [Ho Hc]. apply negb_true_iff in Hf.
    rewrite Hd. unfold condition_shape. rewrite Ho, Hc, Hf. simpl andb. cbv iota.
    unfold decode_as. rewrite (WhereGroup_children node op elems Hop Hcs).
    apply fmap_fmap.
  - intros H. rewrite Hd, H. reflexivity.
Qed.

Lemma unmarshalCondition_priority_witness :
  let node := [("op", JString "notBetween"); ("fieldName", JString "age");
               ("start", JNumber 18); ("end", JNumber 65)] in
  let node' := [("fieldName", JString "age"); ("op", JString "notBetween");
                ("start", JNumber 18); ("end", JNumber 65)] in
  condition_shape node' = condition_shape node.
Proof.
  refine (proj1 (proj2 (unmarshalCondition_priority
                          (JString "age")
                          [("op", JString "notBetween"); ("fieldName", JString "age");
                           ("start", JNumber 18); ("end", JNumber 65)]
                          [("fieldName", JString "age"); ("op", JString "notBetween");
                           ("start", JNumber 18); ("end", JNumber 65)]
                          "" [] _))).
  apply perm_swap.
Defined.

(** C2 as stated fails on a node that is not a key/value node: the list
    of conditions given where one condition is expected, or a plain
    string, fails with the type error of encoding/json, not with the
    unknown-condition error. *)
Lemma condition_list_is_a_type_error :
  let data := JArray [JObject [("op", JString "eq"); ("fieldName", JString "a");
                               ("value", JNumber 1)]] in
  unmarshalCondition data = Err UnmarshalTypeError /\
  unmarshalCondition (JString "active") = Err UnmarshalTypeError /\
  unmarshalCondition data <> Err ErrUnknownCondition.
Proof.
  repeat split. discriminate.
Qed.

(** C1 (amended).  [unmarshalExpression] fails with the type error of
    encoding/json on a node that is neither a key/value node nor null,
    and with the unknown-expression error on null.  A key/value node it
    hands to the decoder of the first rule that applies: (1) key
    [conditions] holds a non-empty array all of whose entries are objects
    (or null) without a number out of the range of float64, and whose
    first entry has key [when]: Case; (2) key [fields]: Coalesce; (3) key
    [value]: Literal, which, once encoding/json has stored the string
    [value] and the array [args], decodes each entry of [args] as an
    expression and, when that fails, as a raw value; (4) key [name]:
    Field; (5) keys [op] and [fieldName]: RangeOp when [start] is present,
    BoolOp otherwise; and a key/value node under no rule fails with the
    unknown-expression error.  A node with key [value] never decodes as a
    Field: it is handed to the Literal decoder unless rule (1) or (2)
    applies. *)
Theorem unmarshalExpression_priority
        (data : json) (node : list (string * json))
        (value : string) (elems : list json) :
  unmarshalExpression data
  = match data with
    | JObject members => decode_as ErrUnknownExpression (expression_shape members) data
    | JNull => Err ErrUnknownExpression
    | _ => Err UnmarshalTypeError
    end /\
  (forall v, unmarshalExpression (JObject node) = Ok v ->
             variant_of v = expression_shape node) /\
  (expression_shape node = UnknownShape ->
   unmarshalExpression (JObject node) = Err ErrUnknownExpression) /\
  (has_key "value" node = true ->
   forall f, unmarshalExpression (JObject node) <> Ok (OfField f)) /\
  (has_key "value" node = true ->
   first_entry_has_when node && entries_are_maps node = false ->
   has_key "fields" node = false ->
   expression_shape node = LiteralShape) /\
  (expression_shape node = LiteralShape ->
   string_field "value" node = Ok value ->
   slice_field (fun raw => Ok raw) "args" node = Ok elems ->
   unmarshalExpression (JObject node)
   = fmap (fun args => OfLiteral (mkLiteral value args))
          (traverse_at unmarshalValue'
             "failed to unmarshal arg at index %d: %w" 0 elems)) /\
  (forall raw,
      unmarshalValue' raw = match unmarshalExpression raw with
                            | Ok v => Ok v
                            | Err _ => decode_any raw
                            | Panic => Panic
                            end) /\
  (forall raw,
      decode_any raw = if numbers_ok raw then Ok (decode_value raw)
                       else Err UnmarshalTypeError).
Proof.
  pose proof (unmarshalExpression_dispatch node) as Hd.
  repeat split.
  - apply unmarshalExpression_node.
  - intros v Hv. rewrite Hd in Hv. eapply decode_as_variant; eauto.
  - intros H. rewrite Hd, H. reflexivity.
  - intros Hvalue f Hf. rewrite Hd in Hf. apply decode_as_variant in Hf.
    unfold expression_shape, op_shape in Hf. rewrite Hvalue in Hf.
    destruct (first_entry_has_when node && entries_are_maps node),
      (has_key "fields" node); discriminate.
  - intros Hvalue Hcase Hfields. unfold expression_shape.
    rewrite Hcase, Hfields, Hvalue. reflexivity.
  - intros Hs Hv Ha. rewrite Hd, Hs. unfold decode_as.
    rewrite (Literal_args node value elems Hv Ha). apply fmap_fmap.
Qed.

Lemma unmarshalExpression_priority_witness :
  unmarshalExpression (JObject [("name", JString "total"); ("value", JString "SUM(?)")])
  <> Ok (OfField (mkField "total" "" "" Nil)).
Proof.
  refine (proj1 (proj2 (proj2 (proj2
            (unmarshalExpression_priority JNull
               [("name", JString "total"); ("value", JString "SUM(?)")] "" []))))
            _ (mkField "total" "" "" Nil)).
  reflexivity.
Defined.

(** C1 as stated fails on a node whose [conditions] array starts with an
    entry having key [when] but also holds an entry that is not an object:
    the test decode into [[]map[string]any] fails, the Case rule is
    skipped and the node is decoded by a later rule, here as a Literal. *)
Lemma case_rule_needs_object_entries :
  let node := [("conditions", JArray [JObject [("when", JNumber 1); ("then", JNumber 2)];
                                      JNumber 3]);
               ("value", JString "x")] in
  spec_expression_shape node = CaseShape /\
  unmarshalExpression (JObject node) = Ok (OfLiteral (mkLiteral "x" [])) /\
  unmarshalExpression (JObject node)
  <> decode_as ErrUnknownExpression (spec_expression_shape node) (JObject node).
Proof.
  repeat split. discriminate.
Qed.

(** The same happens when an entry holds a number out of the range of
    float64, and a node that is no key/value node fails with the type
    error of encoding/json. *)
Example case_rule_needs_numbers_in_range :
  unmarshalExpression
    (JObject [("conditions", JArray [JObject [("when", JNumber (10 ^ 999));
                                              ("then", JNumber 2)]]);
              ("value", JString "x")])
  = Ok (OfLiteral (mkLiteral "x" [])) /\
  unmarshalExpression (JArray []) = Err UnmarshalTypeError.
Proof.
  split; vm_compute; reflexivity.
Qed.

(** A node that is neither an object nor null fails in both decoders
    with the type error of encoding/json, before any shape is tested. *)
Remark unmarshal_non_object (data : json) :
  detect data = Err UnmarshalTypeError ->
  unmarshalCondition data = Err UnmarshalTypeError /\
  unmarshalExpression data = Err UnmarshalTypeError.
Proof.
  intros H. rewrite unmarshalCondition_eq, unmarshalExpression_eq, H.
  split; reflexivity.
Qed.

(** ** Round trip *)

(** C7 at the failing inputs.  [boolOpToString] has no case for the four
    regular-expression operators and writes them as "eq": a BoolOp with
    such an operator is encoded and decoded back as an equality.  (The
    strings come back as [json.Marshal] writes them, that is unchanged
    when they are valid UTF-8.) *)
Theorem regexp_operator_roundtrip (fieldName tableAlias value : string) :
  let x op := OfBoolOp (mkBoolOp op fieldName tableAlias (GoString value)) in
  let y op := OfBoolOp (mkBoolOp op (coerce fieldName) (coerce tableAlias)
                                 (GoString (coerce value))) in
  roundtrip_condition (x RegexpLikeOp) = Some (Ok (y EqOp)) /\
  roundtrip_condition (x RegexpNotLikeOp) = Some (Ok (y EqOp)) /\
  roundtrip_condition (x RegexpILikeOp) = Some (Ok (y EqOp)) /\
  roundtrip_condition (x RegexpNotILikeOp) = Some (Ok (y EqOp)) /\
  roundtrip_condition (x LikeOp) = Some (Ok (y LikeOp)) /\
  (utf8 fieldName && utf8 tableAlias && utf8 value = true -> forall op, y op = x op) /\
  x RegexpLikeOp <> x EqOp /\
  x RegexpLikeOp <> y EqOp.
Proof.
  assert (H : forall op,
             roundtrip_condition
               (OfBoolOp (mkBoolOp op fieldName tableAlias (GoString value)))
             = Some (Ok (OfBoolOp (mkBoolOp (stringToBoolOp (boolOpToString op))
                                            (coerce fieldName) (coerce tableAlias)
                                            (GoString (coerce value)))))).
  { intros op. unfold roundtrip_condition. simpl Marshal. unfold omitempty_string.
    destruct (tableAlias =? "") eqn:E.
    - apply String.eqb_eq in E. subst. reflexivity.
    - reflexivity. }
  cbv beta zeta. rewrite !H. repeat split; try discriminate.
  intros Hu op. unfold utf8 in Hu.
  apply andb_prop in Hu. destruct Hu as [Hu Hv].
  apply andb_prop in Hu. destruct Hu as [Hf Ht].
  apply String.eqb_eq in Hf, Ht, Hv. rewrite Hf, Ht, Hv. reflexivity.
Qed.

(** Outside the four operators the round trip of conditions works: a
    condition made of comparisons with a written operator, ranges and
    And/Or groups over plain values is decoded back as it was. *)

Lemma traverse_opt_Forall2 {A B} (f : A -> option B) (xs : list A) (ys : list B) :
  Forall2 (fun x y => f x = Some y) xs ys -> traverse_opt f xs = Some ys.
Proof.
  induction 1 as [|x y xs ys Hxy _ IH]; simpl; [reflexivity|].
  rewrite Hxy, IH. reflexivity.
Qed.

Lemma traverse_at_Forall2 {A B} (f : A -> result B) (msg : string)
      (xs : list A) (ys : list B) :
  Forall2 (fun x y => f x = Ok y) xs ys ->
  forall i, traverse_at f msg i xs = Ok ys.
Proof.
  induction 1 as [|x y xs ys Hxy _ IH]; simpl; intros i; [reflexivity|].
  rewrite Hxy. simpl. rewrite IH. reflexivity.
Qed.

Lemma Forall2_of_In {A B} (R : A -> B -> Prop) (xs : list A) :
  (forall x, In x xs -> exists y, R x y) -> exists ys, Forall2 R xs ys.
Proof.
  induction xs as [|x xs IH]; intros H.
  - exists []. constructor.
  - destruct (H x (or_introl eq_refl)) as [y Hy].
    destruct IH as [ys Hys]; [intros; apply H; right; assumption|].
    exists (y :: ys). constructor; assumption.
Qed.

Lemma Forall2_In_right {A B} (R : A -> B -> Prop) (xs : list A) (ys : list B) (y : B) :
  Forall2 R xs ys -> In y ys -> exists x, In x xs /\ R x y.
Proof.
  induction 1 as [|x y' xs ys Hxy _ IH]; simpl; [tauto|].
  intros [->|Hin]; [eauto|].
  destruct (IH Hin) as [x' [Hx' Hr]]. eauto.
Qed.

Lemma Forall2_map_eq {A B} (g : B -> A) (xs : list A) (ys : list B) :
  Forall2 (fun x y => g y = x) xs ys -> map g ys = xs.
Proof.
  induction 1; simpl; congruence.
Qed.

(** Up to 2^53 an integer is the float64 that holds it. *)
Lemma float64_small (n : Z) :
  (Z.abs n <=? 2 ^ 53)%Z = true -> float64_of_Z n = Some n.
Proof.
  intros H. apply Z.leb_le in H. unfold float64_of_Z.
  destruct (Z.abs n <? 2 ^ 53)%Z eqn:E; [reflexivity|].
  apply Z.ltb_ge in E.
  assert (Ha : Z.abs n = (2 ^ 53)%Z) by (apply Z.le_antisymm; assumption).
  destruct (Z.abs_eq_or_opp n) as [Hn|Hn]; rewrite Hn in Ha.
  - subst n. vm_compute. reflexivity.
  - assert (n = (- 2 ^ 53)%Z) by (rewrite <- Ha; symmetry; apply Z.opp_involutive).
    subst n. vm_compute. reflexivity.
Qed.

Lemma utf8_coerce (s : string) : utf8 s = true -> coerce s = s.
Proof. unfold utf8. apply String.eqb_eq. Qed.

(** A plain value is encoded to a JSON value that is no object and that
    generic decoding turns back into the value. *)
Lemma plain_value_encoding (n : nat) :
  forall a, size_plain a < n -> plain_value a = true ->
            exists j, Marshal a = Some j /\ numbers_ok j = true /\
                      decode_value j = a /\ no_object j.
Proof.
  induction n as [|n IH]; intros a Hs Hp; [lia|].
  destruct a; try discriminate Hp.
  - exists JNull. repeat split.
  - exists (JString (coerce s)). simpl in Hp.
    repeat split. simpl. rewrite (utf8_coerce s Hp). reflexivity.
  - exists (JBool b). repeat split.
  - exists (JNumber n0). cbn [plain_value] in Hp.
    cbn [Marshal numbers_ok decode_value]. rewrite Hp, (float64_small n0 Hp).
    repeat split.
  - destruct elems as [|x0 xs]; [discriminate Hp|].
    cbn [plain_value] in Hp. cbn [size_plain] in Hs.
    assert (H : exists js,
               Forall2 (fun x j => Marshal x = Some j /\ numbers_ok j = true /\
                                   decode_value j = x) (x0 :: xs) js).
    { apply Forall2_of_In. intros x Hin.
      destruct (IH x) as [j [Hj [Hn [Hd _]]]]; eauto.
      - pose proof (list_sum_In size_plain x (x0 :: xs) Hin). lia.
      - apply (forallb_In _ x (x0 :: xs) Hp Hin). }
    destruct H as [js Hjs].
    assert (Hm : traverse_opt Marshal (x0 :: xs) = Some js).
    { apply traverse_opt_Forall2.
      eapply Forall2_impl; [|exact Hjs]. intros x j [H _]. exact H. }
    exists (JArray js). repeat split.
    + cbn [Marshal]. rewrite Hm.
      inversion Hjs; subst. reflexivity.
    + cbn [numbers_ok]. apply forallb_forall. intros j Hin.
      destruct (Forall2_In_right _ _ _ j Hjs Hin) as [x [_ [_ [Hn _]]]]. exact Hn.
    + cbn [decode_value]. f_equal. apply Forall2_map_eq.
      eapply Forall2_impl; [|exact Hjs]. intros x j [_ [_ H]]. exact H.
Qed.

Lemma unmarshalValue_plain (j : json) :
  no_object j -> unmarshalValue' j = decode_any j.
Proof.
  unfold unmarshalValue', unmarshalValue. rewrite unmarshalExpression_eq.
  destruct j; simpl; intros H; try reflexivity. contradiction.
Qed.

Lemma plain_value_decoded (a : any) :
  plain_value a = true ->
  exists j, Marshal a = Some j /\ unmarshalValue' j = Ok a.
Proof.
  intros Hp.
  destruct (plain_value_encoding (S (size_plain a)) a) as [j [Hj [Hn [Hd Hno]]]]; auto.
  exists j. split; [exact Hj|].
  rewrite (unmarshalValue_plain j Hno). unfold decode_any. rewrite Hn, Hd. reflexivity.
Qed.

Lemma written_operator_roundtrip (op : BooleanOperation) :
  written_operator op = true -> stringToBoolOp (boolOpToString op) = op.
Proof. destruct op; simpl; intros; try discriminate; reflexivity. Qed.

(** The decoders on the members the encoders write. *)
Lemma BoolOp_of_members (op fieldName tableAlias : string) (j : json) (value : any) :
  unmarshalValue' j = Ok value ->
  BoolOp_UnmarshalJSON unmarshalExpression
    (JObject ([("op", JString op); ("fieldName", JString fieldName)]
                ++ (if tableAlias =? "" then [] else [("tableAlias", JString tableAlias)])
                ++ [("value", j)])%list)
  = Ok (mkBoolOp (stringToBoolOp op) fieldName tableAlias value).
Proof.
  intros Hu. unfold unmarshalValue' in Hu.
  destruct (tableAlias =? "") eqn:E.
  - apply String.eqb_eq in E. subst tableAlias.
    cbn. unfold raw_field, field_get. cbn. rewrite Hu. reflexivity.
  - cbn. unfold raw_field, field_get. cbn. rewrite Hu. reflexivity.
Qed.

Lemma RangeOp_of_members (op fieldName tableAlias : string) (js je : json)
      (start stop : any) :
  unmarshalValue' js = Ok start ->
  unmarshalValue' je = Ok stop ->
  RangeOp_UnmarshalJSON unmarshalExpression
    (JObject ([("op", JString op); ("fieldName", JString fieldName)]
                ++ (if tableAlias =? "" then [] else [("tableAlias", JString tableAlias)])
                ++ [("start", js); ("end", je)])%list)
  = Ok (mkRangeOp (stringToRangeOp op) fieldName tableAlias start stop).
Proof.
  intros Hs He. unfold unmarshalValue' in Hs, He.
  destruct (tableAlias =? "") eqn:E.
  - apply String.eqb_eq in E. subst tableAlias.
    cbn. unfold raw_field, field_get. cbn. rewrite Hs. cbn. rewrite He. reflexivity.
  - cbn. unfold raw_field, field_get. cbn. rewrite Hs. cbn. rewrite He. reflexivity.
Qed.

Lemma WhereGroup_of_members (op : string) (js : list json) :
  WhereGroup_UnmarshalJSON unmarshalCondition
    (JObject [("op", JString op); ("conditions", JArray js)]) =
  fmap (mkWhereGroup (stringToExpressionListType op))
       (traverse_at unmarshalCondition
          "failed to unmarshal condition at index %d: %w" 0 js).
Proof. reflexivity. Qed.

Lemma omitempty_coerce (key s : string) :
  omitempty_string key s
  = if coerce s =? "" then [] else [(key, JString (coerce s))].
Proof.
  unfold omitempty_string. destruct s as [|c s]; [reflexivity|].
  replace (coerce (String c s) =? "") with false; [reflexivity|].
  symmetry. unfold coerce. cbn [coerce_from].
  destruct (rune_width (String c s)); reflexivity.
Qed.

Lemma plain_condition_roundtrip_upto (n : nat) :
  forall c, size c < n -> plain_condition c = true ->
            exists j, Marshal c = Some j /\ unmarshalCondition j = Ok c.
Proof.
  induction n as [|n IH]; intros c Hs Hp; [lia|].
  destruct c; try discriminate.
  - (* BoolOp *)
    destruct bo as [op fieldName tableAlias value]. cbn [plain_condition] in Hp.
    apply andb_prop in Hp. destruct Hp as [Hp Hv].
    apply andb_prop in Hp. destruct Hp as [Hp Hta].
    apply andb_prop in Hp. destruct Hp as [Hop Hfn].
    destruct (plain_value_decoded value Hv) as [j [Hj Hu]].
    eexists. split.
    + cbn [Marshal BoolOp_MarshalJSON]. rewrite Hj, omitempty_coerce. reflexivity.
    + rewrite unmarshalCondition_dispatch.
      replace (condition_shape _) with BoolOpShape
        by (destruct (coerce tableAlias =? ""); reflexivity).
      unfold decode_as.
      rewrite (BoolOp_of_members _ _ _ j value Hu).
      cbn [fmap bind].
      rewrite (written_operator_roundtrip op Hop),
        (utf8_coerce _ Hfn), (utf8_coerce _ Hta). reflexivity.
  - (* WhereGroup *)
    destruct wg as [op conditions].
    destruct conditions as [|c0 cs]; [cbn in Hp; rewrite andb_false_r in Hp; discriminate|].
    cbn [plain_condition] in Hp. cbn [size WhereGroup_size] in Hs.
    apply andb_prop in Hp. destruct Hp as [Hop Hcs].
    assert (H : exists js,
               Forall2 (fun x j => Marshal x = Some j /\ unmarshalCondition j = Ok x)
                       (c0 :: cs) js).
    { apply Forall2_of_In. intros x Hin. apply IH.
      - pose proof (list_sum_In size x (c0 :: cs) Hin). lia.
      - apply (forallb_In _ x (c0 :: cs) Hcs Hin). }
    destruct H as [js Hjs].
    assert (Hm : traverse_opt Marshal (c0 :: cs) = Some js).
    { apply traverse_opt_Forall2.
      eapply Forall2_impl; [|exact Hjs]. intros x j [H _]. exact H. }
    assert (Hu : forall i, traverse_at unmarshalCondition
                             "failed to unmarshal condition at index %d: %w" i js
                           = Ok (c0 :: cs)).
    { apply traverse_at_Forall2. apply Forall2_flip.
      eapply Forall2_impl; [|exact Hjs]. intros x j [_ H]. exact H. }
    exists (JObject [("op", JString (expressionListTypeToString op));
                     ("conditions", JArray js)]).
    split.
    + cbn [Marshal WhereGroup_MarshalJSON]. rewrite Hm.
      inversion Hjs; subst. reflexivity.
    + rewrite unmarshalCondition_dispatch.
      replace (condition_shape _) with WhereGroupShape by reflexivity.
      unfold decode_as. rewrite WhereGroup_of_members, (Hu 0). simpl.
      destruct op; try discriminate; reflexivity.
  - (* RangeOp *)
    destruct ro as [op fieldName tableAlias start stop]. cbn [plain_condition] in Hp.
    apply andb_prop in Hp. destruct Hp as [Hp Hstop].
    apply andb_prop in Hp. destruct Hp as [Hp Hstart].
    apply andb_prop in Hp. destruct Hp as [Hp Hta].
    apply andb_prop in Hp. destruct Hp as [Hop Hfn].
    destruct (plain_value_decoded start Hstart) as [js [Hjs Hus]].
    destruct (plain_value_decoded stop Hstop) as [je [Hje Hue]].
    eexists. split.
    + cbn [Marshal RangeOp_MarshalJSON]. rewrite Hjs, Hje, omitempty_coerce. reflexivity.
    + rewrite unmarshalCondition_dispatch.
      replace (condition_shape _) with RangeOpShape
        by (destruct (coerce tableAlias =? ""); reflexivity).
      unfold decode_as.
      rewrite (RangeOp_of_members _ _ _ js je start stop Hus Hue).
      cbn [fmap bind].
      rewrite (utf8_coerce _ Hfn), (utf8_coerce _ Hta).
      destruct op; try discriminate; reflexivity.
Qed.

(** Both encodings of a group without children are read as the group
    without children. *)
Lemma empty_group_decoded (op : string) :
  unmarshalCondition (JObject [("op", JString op); ("conditions", JNull)])
  = Ok (OfWhereGroup (mkWhereGroup (stringToExpressionListType op) [])) /\
  unmarshalCondition (JObject [("op", JString op); ("conditions", JArray [])])
  = Ok (OfWhereGroup (mkWhereGroup (stringToExpressionListType op) [])).
Proof. split; reflexivity. Qed.

(** X1. A condition made of comparisons with a written operator, ranges
    and And/Or groups with at least one child, with names that are valid
    UTF-8, over nil, valid UTF-8 strings, booleans, float64 numbers up to
    2^53 and non-empty sequences of such, is written as JSON and read back
    by [unmarshalCondition] unchanged.  (Of a group without children
    [json.Marshal] writes null or the empty array; both are read as the
    group without children.) *)
Theorem plain_condition_roundtrip (c : any) :
  plain_condition c = true ->
  roundtrip_condition c = Some (Ok c) /\
  forall op,
    unmarshalCondition (JObject [("op", JString op); ("conditions", JNull)])
    = Ok (OfWhereGroup (mkWhereGroup (stringToExpressionListType op) [])) /\
    unmarshalCondition (JObject [("op", JString op); ("conditions", JArray [])])
    = Ok (OfWhereGroup (mkWhereGroup (stringToExpressionListType op) [])).
Proof.
  intros H. split; [|apply empty_group_decoded].
  destruct (plain_condition_roundtrip_upto (S (size c)) c) as [j [Hj Hu]]; auto.
  unfold roundtrip_condition. rewrite Hj. simpl. rewrite Hu. reflexivity.
Qed.

(* ================================================================== *)
(** * Further properties of the package *)

(** ** Enumerations as strings *)

(** X3. Writing a range operator, a group operator, a join type or a sort
    direction as a string and reading it back gives the constant back for
    every named constant, and the default (Between, And, Inner, Asc) for
    any other value of the underlying integer type. *)
Theorem enum_string_roundtrip
        (ro : RangeOperation) (lt : ExpressionListType)
        (jt : JoinType) (sd : SortDirection) :
  stringToRangeOp (rangeOpToString ro)
  = match ro with OtherRangeOperation _ => BetweenOp | _ => ro end /\
  stringToExpressionListType (expressionListTypeToString lt)
  = match lt with OtherExpressionListType _ => AndType | _ => lt end /\
  stringToJoinType (joinTypeToString jt)
  = match jt with OtherJoinType _ => InnerJoinType | _ => jt end /\
  stringToSortDirection (sortDirectionToString sd)
  = match sd with OtherSortDirection _ => AscDir | _ => sd end.
Proof.
  repeat split; [destruct ro|destruct lt|destruct jt|destruct sd]; reflexivity.
Qed.

Lemma stringToBoolOp_written (s : string) :
  written_operator (stringToBoolOp s) = true.
Proof.
  unfold stringToBoolOp.
  repeat match goal with
         | |- context [if ?b then _ else _] => destruct b; [reflexivity|]
         end.
  reflexivity.
Qed.

Ltac first_branch :=
  repeat match goal with
         | |- context [if ?b then _ else _] => destruct b; [reflexivity|]
         end;
  reflexivity.

(** X4. Whatever string is read, the operator, join type or sort
    direction obtained is one that is written back as a string that reads
    as the same value: reading, writing and reading again is reading once.
    In particular a boolean operator read from a string is always one of
    the fourteen that [boolOpToString] writes. *)
Theorem read_write_read (s : string) :
  written_operator (stringToBoolOp s) = true /\
  stringToBoolOp (boolOpToString (stringToBoolOp s)) = stringToBoolOp s /\
  stringToRangeOp (rangeOpToString (stringToRangeOp s)) = stringToRangeOp s /\
  stringToExpressionListType (expressionListTypeToString (stringToExpressionListType s))
  = stringToExpressionListType s /\
  stringToJoinType (joinTypeToString (stringToJoinType s)) = stringToJoinType s /\
  stringToSortDirection (sortDirectionToString (stringToSortDirection s))
  = stringToSortDirection s.
Proof.
  split; [apply stringToBoolOp_written|].
  split; [apply written_operator_roundtrip, stringToBoolOp_written|].
  repeat split.
  - unfold stringToRangeOp at 2 3. first_branch.
  - unfold stringToExpressionListType at 2 3. first_branch.
  - unfold stringToJoinType at 2 3. first_branch.
  - unfold stringToSortDirection at 2 3. first_branch.
Qed.

(** ** What the decoder hands to the compiler *)

Lemma fmap_Ok_inv {A B} (f : A -> B) (r : result A) (y : B) :
  fmap f r = Ok y -> exists x, r = Ok x /\ f x = y.
Proof.
  destruct r; simpl; intros H; try discriminate. inversion H; eauto.
Qed.

Lemma bind_Ok_inv {A B} (r : result A) (k : A -> result B) (y : B) :
  bind r k = Ok y -> exists x, r = Ok x /\ k x = Ok y.
Proof.
  destruct r; simpl; intros H; try discriminate. eauto.
Qed.

(** Only an object is decoded into a condition or an expression. *)
Lemma decoded_is_object (data : json) (v : any) :
  unmarshalCondition data = Ok v \/ unmarshalExpression data = Ok v ->
  exists node, data = JObject node.
Proof.
  intros H.
  destruct data as [| b | n | s | elems | node]; [| | | | |eauto];
    (destruct H as [H|H];
     [rewrite unmarshalCondition_eq in H|rewrite unmarshalExpression_eq in H];
     discriminate H).
Qed.

Lemma decoded_variant (data : json) (v : any) :
  unmarshalCondition data = Ok v \/ unmarshalExpression data = Ok v ->
  exists unknown, decode_as unknown (variant_of v) data = Ok v.
Proof.
  intros H. destruct (decoded_is_object data v H) as [node ->].
  assert (Hd : exists unknown sh, decode_as unknown sh (JObject node) = Ok v).
  { destruct H as [H|H].
    - rewrite unmarshalCondition_dispatch in H. eauto.
    - rewrite unmarshalExpression_dispatch in H. eauto. }
  destruct Hd as [unknown [sh Hd]].
  rewrite (decode_as_variant _ _ _ _ Hd). eauto.
Qed.

Lemma decoded_BoolOp (data : json) (bo : BoolOp) :
  unmarshalCondition data = Ok (OfBoolOp bo) \/
  unmarshalExpression data = Ok (OfBoolOp bo) ->
  BoolOp_UnmarshalJSON unmarshalExpression data = Ok bo.
Proof.
  intros H. destruct (decoded_variant _ _ H) as [unknown Hd].
  simpl in Hd. apply fmap_Ok_inv in Hd.
  destruct Hd as [x [Hx Hinj]]. inversion Hinj; subst. exact Hx.
Qed.

Lemma BoolOp_UnmarshalJSON_operator (data : json) (bo : BoolOp) :
  BoolOp_UnmarshalJSON unmarshalExpression data = Ok bo ->
  written_operator (BoolOp_Op bo) = true.
Proof.
  destruct data; try discriminate. unfold BoolOp_UnmarshalJSON. intros H.
  do 4 (apply bind_Ok_inv in H; destruct H as [? [_ H]]).
  inversion H; subst. simpl. apply stringToBoolOp_written.
Qed.

(** X6. A comparison that comes out of the decoder carries one of the
    fourteen written operators, so compiling it never takes the default
    branch of [BoolOp.expression]: whenever the compilation returns, it
    returns an expression, not nil. *)
Theorem decoded_BoolOp_compiles
        (data : json) (bo : BoolOp) (r : option Expression) :
  unmarshalCondition data = Ok (OfBoolOp bo) \/
  unmarshalExpression data = Ok (OfBoolOp bo) ->
  BoolOp_expression bo = Ok r ->
  written_operator (BoolOp_Op bo) = true /\ exists e, r = Some e.
Proof.
  intros Hd Hr.
  pose proof (BoolOp_UnmarshalJSON_operator data bo (decoded_BoolOp data bo Hd)) as Hw.
  split; [exact Hw|].
  destruct bo as [op fieldName tableAlias value]. simpl in Hw.
  rewrite BoolOp_expression_eq in Hr.
  destruct op; try discriminate;
    apply bind_Ok_inv in Hr; destruct Hr as [v [_ Hr]]; inversion Hr; eauto.
Qed.

Lemma decoded_BoolOp_compiles_witness :
  written_operator
    (BoolOp_Op (mkBoolOp EqOp "status" "u" (GoString "active"))) = true /\
  exists e,
    Some (BooleanMethod EqOp (goqu_C_Table "status" "u")
            (OfExpression (goqu_V (GoString "active")))) = Some e.
Proof.
  apply (decoded_BoolOp_compiles
           (JObject [("op", JString "regexp"); ("fieldName", JString "status");
                     ("tableAlias", JString "u"); ("value", JString "active")])
           (mkBoolOp EqOp "status" "u" (GoString "active"))).
  - left. reflexivity.
  - reflexivity.
Defined.

(** ** Sorts *)

(** X5. A sort is written as JSON with its strings made valid UTF-8
    and read back as written, its direction being kept when it is one of
    the two named constants and read back as ascending otherwise, which
    is also how [Sort.expression] compiles it.  So when its name and table
    alias are valid UTF-8, the round trip gives the same sort up to the
    direction, and never changes the ORDER BY term the sort stands for. *)
Theorem Sort_roundtrip (s : Sort) :
  Sort_UnmarshalJSON (Sort_MarshalJSON s)
  = Ok (mkSort (coerce (Sort_Name s)) (coerce (Sort_TableAlias s))
               (match Sort_Order s with
                | OtherSortDirection _ => AscDir
                | named => named
                end)) /\
  (utf8 (Sort_Name s) && utf8 (Sort_TableAlias s) = true ->
   Sort_UnmarshalJSON (Sort_MarshalJSON s)
   = Ok (mkSort (Sort_Name s) (Sort_TableAlias s)
                (match Sort_Order s with
                 | OtherSortDirection _ => AscDir
                 | named => named
                 end)) /\
   fmap Sort_expression (Sort_UnmarshalJSON (Sort_MarshalJSON s))
   = Ok (Sort_expression s)).
Proof.
  destruct s as [name tableAlias order].
  assert (H : Sort_UnmarshalJSON (Sort_MarshalJSON (mkSort name tableAlias order))
              = Ok (mkSort (coerce name) (coerce tableAlias)
                           (stringToSortDirection (sortDirectionToString order)))).
  { unfold Sort_MarshalJSON. rewrite omitempty_coerce. simpl Sort_Name.
    simpl Sort_TableAlias. simpl Sort_Order.
    destruct (coerce tableAlias =? "") eqn:E.
    - apply String.eqb_eq in E. rewrite E. reflexivity.
    - reflexivity. }
  rewrite H. split.
  - simpl. destruct order; reflexivity.
  - intros Hu. apply andb_prop in Hu. destruct Hu as [Hn Ht].
    simpl in Hn, Ht. rewrite (utf8_coerce _ Hn), (utf8_coerce _ Ht).
    split; destruct order; reflexivity.
Qed.

(** ** Round trips *)

Lemma plain_condition_roundtrip_witness :
  roundtrip_condition
    (OfWhereGroup
       (mkWhereGroup OrType
          [OfBoolOp (mkBoolOp InOp "status" "u"
                       (Slice [GoString "active"; GoString "pending"]));
           OfRangeOp (mkRangeOp NotBetweenOp "age" "" (GoFloat64 18) (GoFloat64 65));
           OfWhereGroup (mkWhereGroup AndType
                           [OfBoolOp (mkBoolOp IsOp "deleted_at" "u" Nil)])]))
  = Some (Ok (OfWhereGroup
       (mkWhereGroup OrType
          [OfBoolOp (mkBoolOp InOp "status" "u"
                       (Slice [GoString "active"; GoString "pending"]));
           OfRangeOp (mkRangeOp NotBetweenOp "age" "" (GoFloat64 18) (GoFloat64 65));
           OfWhereGroup (mkWhereGroup AndType
                           [OfBoolOp (mkBoolOp IsOp "deleted_at" "u" Nil)])]))).
Proof.
  refine (proj1 (plain_condition_roundtrip
           (OfWhereGroup
              (mkWhereGroup OrType
                 [OfBoolOp (mkBoolOp InOp "status" "u"
                              (Slice [GoString "active"; GoString "pending"]));
                  OfRangeOp (mkRangeOp NotBetweenOp "age" ""
                               (GoFloat64 18) (GoFloat64 65));
                  OfWhereGroup (mkWhereGroup AndType
                                  [OfBoolOp (mkBoolOp IsOp "deleted_at" "u" Nil)])])) _)).
  reflexivity.
Defined.

(** An [int] is a number that has a float64 near it. *)
Lemma float64_of_int64 (n : Z) :
  (- 2 ^ 63 <= n < 2 ^ 63)%Z -> exists f, float64_of_Z n = Some f.
Proof.
  intros Hn. unfold float64_of_Z.
  destruct (Z.abs n <? 2 ^ 53)%Z eqn:E; [eauto|].
  apply Z.ltb_ge in E.
  set (a := Z.abs n) in *.
  assert (Ha : (a <= 2 ^ 63)%Z).
  { unfold a. apply Z.abs_le. split; [|apply Z.lt_le_incl]; apply Hn. }
  assert (Hl1 : (53 <= Z.log2 a)%Z).
  { rewrite <- (Z.log2_pow2 53) by discriminate. apply Z.log2_le_mono. exact E. }
  assert (Hl2 : (Z.log2 a <= 63)%Z).
  { rewrite <- (Z.log2_pow2 63) by discriminate. apply Z.log2_le_mono. exact Ha. }
  set (e := (Z.log2 a - 52)%Z).
  assert (He : (1 <= e <= 11)%Z) by (unfold e; split; lia).
  set (q := Z.shiftr a e).
  set (m := if (_ || _)%bool then (q + 1)%Z else q).
  assert (Hp : (0 < 2 ^ e)%Z) by (apply Z.pow_pos_nonneg; lia).
  assert (Hq : (q * 2 ^ e <= a)%Z).
  { unfold q. rewrite Z.shiftr_div_pow2 by lia.
    rewrite Z.mul_comm. apply Z.mul_div_le. exact Hp. }
  assert (Hm : (m <= q + 1)%Z) by (unfold m; destruct (_ || _)%bool; lia).
  assert (Hpe : (2 ^ e <= 2 ^ 11)%Z) by (apply Z.pow_le_mono_r; lia).
  assert (Hf : (Z.shiftl m e <= 2 ^ 63 + 2 ^ 11)%Z).
  { rewrite Z.shiftl_mul_pow2 by lia.
    apply Z.le_trans with ((q + 1) * 2 ^ e)%Z.
    - apply Z.mul_le_mono_nonneg_r; [apply Z.lt_le_incl; exact Hp | exact Hm].
    - rewrite Z.mul_add_distr_r, Z.mul_1_l.
      apply Z.add_le_mono; [apply Z.le_trans with a; assumption | exact Hpe]. }
  assert (Hlt : (Z.shiftl m e <? 2 ^ 1024)%Z = true).
  { apply Z.ltb_lt. eapply Z.le_lt_trans; [exact Hf|]. vm_compute. reflexivity. }
  rewrite Hlt. eauto.
Qed.

(** X2. The value of a comparison, a range bound or a literal argument
    that is nil, a valid UTF-8 string, a boolean, a float64 up to 2^53 or
    a non-empty sequence of such is written as JSON and read back by
    [unmarshalValue] unchanged.  A Go [int] is not: it is written as a
    number and read back as the float64 nearest to it, which holds the
    same integer up to 2^53 and need not beyond (2^53 + 1 comes back as
    2^53). *)
Theorem plain_value_roundtrip (a : any) (n : Z) :
  plain_value a = true ->
  (- 2 ^ 63 <= n < 2 ^ 63)%Z ->
  (exists j, Marshal a = Some j /\ unmarshalValue' j = Ok a) /\
  (exists f, float64_of_Z n = Some f /\
             Marshal (GoInt n) = Some (JNumber n) /\
             unmarshalValue' (JNumber n) = Ok (GoFloat64 f) /\
             ((Z.abs n <= 2 ^ 53)%Z -> f = n)) /\
  (Marshal (GoInt (2 ^ 53 + 1)) = Some (JNumber (2 ^ 53 + 1)) /\
   unmarshalValue' (JNumber (2 ^ 53 + 1)) = Ok (GoFloat64 (2 ^ 53))).
Proof.
  intros H Hn. split; [apply plain_value_decoded; exact H|]. split.
  - destruct (float64_of_int64 n Hn) as [f Hf]. exists f.
    split; [exact Hf|]. split; [|split].
    + cbn [Marshal].
      replace ((- 2 ^ 63 <=? n)%Z && (n <? 2 ^ 63)%Z) with true; [reflexivity|].
      symmetry. apply andb_true_intro. split; [apply Z.leb_le|apply Z.ltb_lt]; apply Hn.
    + rewrite unmarshalValue_plain by exact I.
      unfold decode_any. cbn [numbers_ok decode_value]. rewrite Hf. reflexivity.
    + intros Hs. apply Z.leb_le in Hs. rewrite (float64_small n Hs) in Hf.
      inversion Hf. reflexivity.
  - split; vm_compute; reflexivity.
Qed.

Lemma plain_value_roundtrip_witness :
  (exists j, Marshal (Slice [GoString "a"; Nil; GoBool true; GoFloat64 3]) = Some j /\
             unmarshalValue' j = Ok (Slice [GoString "a"; Nil; GoBool true; GoFloat64 3])) /\
  (exists f, float64_of_Z 42 = Some f /\
             Marshal (GoInt 42) = Some (JNumber 42) /\
             unmarshalValue' (JNumber 42) = Ok (GoFloat64 f) /\
             ((Z.abs 42 <= 2 ^ 53)%Z -> f = 42%Z)) /\
  (Marshal (GoInt (2 ^ 53 + 1)) = Some (JNumber (2 ^ 53 + 1)) /\
   unmarshalValue' (JNumber (2 ^ 53 + 1)) = Ok (GoFloat64 (2 ^ 53))).
Proof.
  apply (plain_value_roundtrip (Slice [GoString "a"; Nil; GoBool true; GoFloat64 3]) 42).
  - reflexivity.
  - split; [discriminate | reflexivity].
Defined.

(** ** Invariants of the decoder *)

Lemma find_with_In {A} (same : string -> string -> bool) (f : json -> A)
      (key : string) (members : list (string * json)) (r : A) :
  find_with same f key members = Some r ->
  exists k v, In (k, v) members /\ r = f v.
Proof.
  induction members as [|[k v] rest IH]; simpl; [discriminate|].
  destruct (find_with same f key rest) as [r'|].
  - intros H. inversion H; subst. destruct IH as [k' [v' [Hin Hr]]]; eauto.
  - destruct (same k key); [|discriminate].
    intros H. inversion H; subst. eauto.
Qed.

Lemma json_size_member (k : string) (v : json) (members : list (string * json)) :
  In (k, v) members -> json_size v < json_size (JObject members).
Proof.
  intros H. simpl.
  pose proof (list_sum_In (fun kv => json_size (snd kv)) (k, v) members H) as Hle.
  simpl in Hle. lia.
Qed.

Lemma json_size_elem (e : json) (elems : list json) :
  In e elems -> json_size e < json_size (JArray elems).
Proof.
  intros H. simpl. pose proof (list_sum_In json_size e elems H). lia.
Qed.

Lemma wrap_Ok_inv {A} (msg : string) (index : option nat) (r : result A) (y : A) :
  wrap msg index r = Ok y -> r = Ok y.
Proof. destruct r; simpl; intros H; try discriminate; exact H. Qed.

Lemma traverse_at_Ok_inv {A B} (f : A -> result B) (msg : string) (xs : list A) :
  forall i ys, traverse_at f msg i xs = Ok ys ->
               Forall2 (fun x y => f x = Ok y) xs ys.
Proof.
  induction xs as [|x xs IH]; simpl; intros i ys H.
  - inversion H. constructor.
  - apply bind_Ok_inv in H. destruct H as [y [Hy H]].
    apply bind_Ok_inv in H. destruct H as [ys' [Hys H]].
    inversion H; subst. constructor; [apply (wrap_Ok_inv _ _ _ _ Hy)|eauto].
Qed.

Lemma traverse_Ok_inv {A B} (f : A -> result B) (xs : list A) :
  forall ys, traverse f xs = Ok ys -> Forall2 (fun x y => f x = Ok y) xs ys.
Proof.
  induction xs as [|x xs IH]; simpl; intros ys H.
  - inversion H. constructor.
  - apply bind_Ok_inv in H. destruct H as [y [Hy H]].
    apply bind_Ok_inv in H. destruct H as [ys' [Hys H]].
    inversion H; subst. constructor; auto.
Qed.

(** What a slice field hands back comes from the entries of an array
    bound in the object. *)
Lemma slice_field_Ok_inv {B} (k : list json -> result (list B))
      (name : string) (aux : list (string * json)) (ys : list B) :
  slice_field k name aux = Ok ys ->
  ys = [] \/ exists key elems, In (key, JArray elems) aux /\ k elems = Ok ys.
Proof.
  unfold slice_field, field_get. intros H.
  destruct (forallb array_or_null (bindings name aux)); [|discriminate H].
  destruct (find_with _ _ name aux) as [r|] eqn:E.
  - apply find_with_In in E. destruct E as [key [v [Hin Hr]]]. subst r.
    destruct v; try (inversion H; auto; fail).
    right. eauto.
  - inversion H. auto.
Qed.

Lemma raw_field_Ok_inv {B} (k : json -> result B) (absent : B)
      (name : string) (aux : list (string * json)) (y : B) :
  raw_field k absent name aux = Ok y ->
  y = absent \/ exists key v, In (key, v) aux /\ k v = Ok y.
Proof.
  unfold raw_field, field_get. intros H.
  destruct (find_with _ _ name aux) as [r|] eqn:E.
  - apply find_with_In in E. destruct E as [key [v [Hin Hr]]]. subst r. eauto.
  - inversion H. auto.
Qed.


Lemma condition_shape_cases (node : list (string * json)) :
  condition_shape node = RangeOpShape \/ condition_shape node = BoolOpShape \/
  condition_shape node = WhereGroupShape \/ condition_shape node = UnknownShape.
Proof.
  unfold condition_shape, op_shape.
  destruct (has_key "op" node), (has_key "fieldName" node),
    (has_key "start" node), (has_key "conditions" node); simpl; auto.
Qed.

Lemma decoded_condition_upto (n : nat) :
  forall data c, json_size data < n ->
                 unmarshalCondition data = Ok c -> condition_tree c = true.
Proof.
  induction n as [|n IH]; intros data c Hs H; [lia|].
  destruct (decoded_is_object data c (or_introl H)) as [node ->].
  rewrite unmarshalCondition_dispatch in H.
  pose proof (decode_as_variant _ _ _ _ H) as Hv.
  destruct (condition_shape_cases node) as [E|[E|[E|E]]];
    rewrite E in H, Hv; destruct c; try discriminate Hv; simpl in H;
    try discriminate H;
    apply fmap_Ok_inv in H; destruct H as [x [Hx Hinj]]; inversion Hinj; subst; clear Hinj.
  - (* RangeOp *)
    unfold RangeOp_UnmarshalJSON in Hx.
    do 5 (apply bind_Ok_inv in Hx; destruct Hx as [? [_ Hx]]).
    inversion Hx; subst. simpl.
    unfold stringToRangeOp.
    repeat match goal with
           | |- context [if ?b then _ else _] => destruct b; [reflexivity|]
           end; reflexivity.
  - (* BoolOp *)
    simpl. apply (BoolOp_UnmarshalJSON_operator (JObject node) _ Hx).
  - (* WhereGroup *)
    unfold WhereGroup_UnmarshalJSON in Hx.
    apply bind_Ok_inv in Hx. destruct Hx as [op [_ Hx]].
    apply bind_Ok_inv in Hx. destruct Hx as [conditions [Hc Hx]].
    inversion Hx; subst. simpl.
    apply andb_true_intro. split.
    + unfold stringToExpressionListType.
      repeat match goal with
             | |- context [if ?b then _ else _] => destruct b; [reflexivity|]
             end; reflexivity.
    + apply slice_field_Ok_inv in Hc. destruct Hc as [->|[key [elems [Hin Hc]]]];
        [reflexivity|].
      apply traverse_at_Ok_inv in Hc.
      pose proof (json_size_member _ _ _ Hin) as Hlt.
      apply forallb_forall. intros y Hy.
      destruct (Forall2_In_right _ _ _ _ Hc Hy) as [x [Hxin Hxy]].
      apply (IH x y); [|exact Hxy].
      pose proof (json_size_elem _ _ Hxin). lia.
Qed.

Lemma non_nil_nil (rs : list (option Expression)) :
  non_nil rs = [] <-> Forall (fun r => r = None) rs.
Proof.
  induction rs as [|[e|] rs IH]; simpl.
  - split; auto.
  - split; [discriminate|]. intros H. inversion H; discriminate.
  - rewrite IH. split; intros H; [constructor; auto|inversion H; auto].
Qed.

Lemma list_sum_zero {A} (m : A -> nat) (xs : list A) :
  list_sum (map m xs) = 0 <-> Forall (fun x => m x = 0) xs.
Proof.
  induction xs as [|x xs IH]; simpl.
  - split; auto.
  - split.
    + intros H. constructor; [lia|apply IH; lia].
    + intros H. inversion H; subst. apply IH in H3. lia.
Qed.

Lemma condition_tree_compiles_upto (n : nat) :
  forall c r, size c < n -> condition_tree c = true ->
              condition_expression c = Ok r -> (r = None <-> leaves c = 0).
Proof.
  induction n as [|n IH]; intros c r Hs Ht Hr; [lia|].
  destruct c; try discriminate Ht.
  - (* BoolOp *)
    destruct bo as [op fieldName tableAlias value]. simpl in Ht.
    unfold condition_expression in Hr.
    rewrite BoolOp_expression_eq in Hr.
    destruct op; try discriminate Ht;
      apply bind_Ok_inv in Hr; destruct Hr as [v [_ Hr]]; inversion Hr;
      simpl; split; discriminate.
  - (* WhereGroup *)
    destruct wg as [op conditions]. simpl in Ht, Hs.
    unfold condition_expression in Hr.
    apply andb_prop in Ht. destruct Ht as [_ Ht].
    rewrite WhereGroup_expression_eq, collect_traverse in Hr.
    apply bind_Ok_inv in Hr. destruct Hr as [exps [He Hr]].
    apply bind_Ok_inv in He. destruct He as [rs [Hrs He]].
    inversion He; subst exps; clear He. rewrite non_nil_flat_map in Hr.
    apply traverse_Ok_inv in Hrs.
    assert (Hall : Forall2 (fun x r => r = None <-> leaves x = 0) conditions rs).
    { clear Hr. induction Hrs as [|x r' xs rs' Hx Hrest IHrs]; constructor.
      - apply IH; [simpl in Hs; lia| |exact Hx].
        simpl in Ht. apply andb_prop in Ht. tauto.
      - apply IHrs; simpl in Hs, Ht; [lia|].
        apply andb_prop in Ht. tauto. }
    assert (Hiff : non_nil rs = [] <-> list_sum (map leaves conditions) = 0).
    { rewrite non_nil_nil, list_sum_zero. clear -Hall.
      induction Hall as [|x r' xs rs' Hx _ IHall].
      - split; constructor.
      - split; intros H; inversion H; subst; constructor; tauto. }
    simpl. rewrite <- Hiff.
    destruct (non_nil rs); inversion Hr; split; intros; try discriminate; reflexivity.
  - (* RangeOp *)
    destruct ro as [op fieldName tableAlias start stop].
    unfold condition_expression in Hr.
    rewrite RangeOp_expression_eq in Hr.
    apply bind_Ok_inv in Hr. destruct Hr as [s [_ Hr]].
    apply bind_Ok_inv in Hr. destruct Hr as [e [_ Hr]].
    inversion Hr. simpl. split; discriminate.
Qed.

Lemma handleAny_condition (c : any) :
  is_condition c = true -> handleAny c [] = condition_expression c.
Proof.
  intros H. rewrite handleAny_value; destruct c; try discriminate; reflexivity.
Qed.

(** X7. Whatever [unmarshalCondition] returns is a tree of conditions:
    a comparison with one of the fourteen written operators, a range with
    one of the two range operators, or an And/Or group whose children are
    again such trees.  Compiling it, by [handleAny] as the builder does,
    therefore drops no child for its type, and gives nil exactly when the
    tree contains no comparison and no range. *)
Theorem decoded_condition_tree
        (data : json) (c : any) (r : option Expression) :
  unmarshalCondition data = Ok c ->
  condition_tree c = true /\
  (handleAny c [] = Ok r -> (r = None <-> leaves c = 0)).
Proof.
  intros H.
  pose proof (decoded_condition_upto (S (json_size data)) data c
                                     (Nat.lt_succ_diag_r _) H) as Ht.
  split; [exact Ht|]. intros Hr.
  rewrite handleAny_condition in Hr by (destruct c; try discriminate Ht; reflexivity).
  apply (condition_tree_compiles_upto (S (size c)) c r); auto.
Qed.

Lemma decoded_condition_tree_witness :
  condition_tree
    (OfWhereGroup (mkWhereGroup AndType
       [OfBoolOp (mkBoolOp EqOp "status" "u" (GoString "active"));
        OfWhereGroup (mkWhereGroup AndType [])])) = true /\
  (handleAny
     (OfWhereGroup (mkWhereGroup AndType
        [OfBoolOp (mkBoolOp EqOp "status" "u" (GoString "active"));
         OfWhereGroup (mkWhereGroup AndType [])])) []
   = Ok (Some (goqu_And
                 [BooleanMethod EqOp (goqu_C_Table "status" "u")
                    (OfExpression (goqu_V (GoString "active")))])) ->
   (Some (goqu_And
            [BooleanMethod EqOp (goqu_C_Table "status" "u")
               (OfExpression (goqu_V (GoString "active")))]) = None <->
    leaves
      (OfWhereGroup (mkWhereGroup AndType
         [OfBoolOp (mkBoolOp EqOp "status" "u" (GoString "active"));
          OfWhereGroup (mkWhereGroup AndType [])])) = 0)).
Proof.
  apply (decoded_condition_tree
           (JObject [("op", JString "and");
                     ("conditions",
                      JArray [JObject [("op", JString "eq");
                                       ("fieldName", JString "status");
                                       ("tableAlias", JString "u");
                                       ("value", JString "active")];
                              JObject [("op", JString "AND");
                                       ("conditions", JArray [])]])])).
  reflexivity.
Defined.

Lemma bind_Err_inv {A B} (r : result A) (k : A -> result B) (e : error) :
  bind r k = Err e -> r = Err e \/ exists x, r = Ok x /\ k x = Err e.
Proof.
  destruct r as [a|e'|]; simpl; intros H; try discriminate.
  - right. exists a. auto.
  - left. inversion H. reflexivity.
Qed.

Lemma fmap_Err_inv {A B} (f : A -> B) (r : result A) (e : error) :
  fmap f r = Err e -> r = Err e.
Proof. destruct r; simpl; intros H; try discriminate; inversion H; reflexivity. Qed.

Lemma string_field_from_Err (cur name : string) (aux : list (string * json)) (e : error) :
  string_field_from cur name aux = Err e -> e = UnmarshalTypeError.
Proof.
  unfold string_field_from.
  destruct (forallb string_or_null (bindings name aux));
    intros H; inversion H; reflexivity.
Qed.

Lemma string_field_Err (name : string) (aux : list (string * json)) (e : error) :
  string_field name aux = Err e -> e = UnmarshalTypeError.
Proof. apply string_field_from_Err. Qed.

Lemma decode_any_Err (data : json) (e : error) :
  decode_any data = Err e -> e = UnmarshalTypeError /\ numbers_ok data = false.
Proof.
  unfold decode_any. destruct (numbers_ok data); intros H; inversion H. auto.
Qed.

(** The one error of [unmarshalValue] is the type error of a number out
    of the range of float64; any other failure to decode an expression
    ends in a generic value. *)
Lemma unmarshalValue_Err (data : json) (e : error) :
  unmarshalValue' data = Err e -> e = UnmarshalTypeError /\ numbers_ok data = false.
Proof.
  unfold unmarshalValue', unmarshalValue.
  destruct (unmarshalExpression data); try discriminate.
  apply decode_any_Err.
Qed.

Lemma value_field_Err (msg name : string) (aux : list (string * json)) (e : error) :
  wrap msg None (raw_field (unmarshalValue unmarshalExpression) Nil name aux) = Err e ->
  e = Wrapf msg None UnmarshalTypeError.
Proof.
  unfold raw_field, field_get.
  destruct (find_with _ _ name aux) as [r|] eqn:E; [|discriminate].
  apply find_with_In in E. destruct E as [k [v [_ ->]]].
  destruct (unmarshalValue unmarshalExpression v) as [x|e'|] eqn:Ev; try discriminate.
  apply (unmarshalValue_Err v e') in Ev. destruct Ev as [-> _].
  simpl. intros H. inversion H. reflexivity.
Qed.

(** The loop with indices stops at the first entry that fails, and
    reports its index and its error. *)
Lemma traverse_at_Err_inv {A B} (f : A -> result B) (msg : string) (xs : list A) :
  forall i e,
    traverse_at f msg i xs = Err e ->
    exists k x cause,
      nth_error xs k = Some x /\ f x = Err cause /\
      e = Wrapf msg (Some (i + k)) cause /\
      forall j y, j < k -> nth_error xs j = Some y -> exists v, f y = Ok v.
Proof.
  induction xs as [|x xs IH]; simpl; intros i e H; [discriminate|].
  destruct (f x) as [y|cause|] eqn:E; simpl in H; try discriminate.
  - apply bind_Err_inv in H. destruct H as [H|[ys [_ H]]]; [|discriminate].
    destruct (IH _ _ H) as [k [x' [cause [Hn [Hf [He Hbefore]]]]]].
    exists (S k), x', cause. repeat split; auto.
    + rewrite He. f_equal. f_equal. lia.
    + intros [|j] y' Hj Hy; simpl in Hy.
      * inversion Hy; subst. eauto.
      * apply (Hbefore j); [lia|exact Hy].
  - inversion H; subst. exists 0, x, cause. repeat split; auto.
    + f_equal. f_equal. lia.
    + intros j y Hj. lia.
Qed.

Lemma slice_field_Err_inv {B} (k : list json -> result (list B))
      (name : string) (aux : list (string * json)) (e : error) :
  slice_field k name aux = Err e ->
  e = UnmarshalTypeError \/ exists key elems, In (key, JArray elems) aux /\ k elems = Err e.
Proof.
  unfold slice_field, field_get. intros H.
  destruct (forallb array_or_null (bindings name aux));
    [|inversion H; auto].
  destruct (find_with _ _ name aux) as [r|] eqn:E; [|discriminate].
  apply find_with_In in E. destruct E as [key [v [Hin Hr]]]. subst r.
  destruct v; try discriminate; try (inversion H; auto; fail).
  right. eauto.
Qed.

Lemma unmarshalCondition_errors_upto (n : nat) :
  forall data e, json_size data < n ->
                 unmarshalCondition data = Err e -> condition_error e = true.
Proof.
  induction n as [|n IH]; intros data e Hs H; [lia|].
  destruct data as [| b | z | s | elems | node];
    try (rewrite unmarshalCondition_eq in H; inversion H; reflexivity).
  rewrite unmarshalCondition_dispatch in H.
  destruct (condition_shape_cases node) as [E|[E|[E|E]]]; rewrite E in H; simpl in H.
  - (* RangeOp *)
    apply fmap_Err_inv in H.
    repeat (apply bind_Err_inv in H;
            destruct H as [H|[? [_ H]]];
            [first [apply string_field_Err in H; subst; reflexivity
                   |apply value_field_Err in H; subst; reflexivity]|]).
    discriminate.
  - (* BoolOp *)
    apply fmap_Err_inv in H.
    repeat (apply bind_Err_inv in H;
            destruct H as [H|[? [_ H]]];
            [first [apply string_field_Err in H; subst; reflexivity
                   |apply value_field_Err in H; subst; reflexivity]|]).
    discriminate.
  - (* WhereGroup *)
    apply fmap_Err_inv in H.
    apply bind_Err_inv in H. destruct H as [H|[op [_ H]]];
      [apply string_field_Err in H; subst; reflexivity|].
    apply bind_Err_inv in H. destruct H as [H|[cs [_ H]]]; [|discriminate].
    apply slice_field_Err_inv in H. destruct H as [->|[key [elems [Hin H]]]];
      [reflexivity|].
    apply traverse_at_Err_inv in H.
    destruct H as [k [x [cause [Hn [Hf [-> _]]]]]].
    simpl. apply (IH x); [|exact Hf].
    pose proof (json_size_member _ _ _ Hin).
    pose proof (json_size_elem x elems (nth_error_In _ _ Hn)). lia.
  - inversion H. reflexivity.
Qed.

(** X8. The only errors [unmarshalCondition] returns are the type error
    of encoding/json and "unknown condition type"; the type error of a
    number out of the range of float64 in the value of a comparison or in
    a bound of a range, wrapped with the name of that member; and any of
    these wrapped once per enclosing group with the index of the child.
    A number out of range is indeed the only error [unmarshalValue]
    returns: any other failure to decode a value as an expression ends in
    a generic value. *)
Theorem unmarshalCondition_errors (data : json) (e : error) :
  unmarshalCondition data = Err e ->
  condition_error e = true /\
  forall v e', unmarshalValue' v = Err e' ->
               e' = UnmarshalTypeError /\ numbers_ok v = false.
Proof.
  intros H. split.
  - apply (unmarshalCondition_errors_upto (S (json_size data)) data e); auto.
  - intros v e'. apply unmarshalValue_Err.
Qed.

Lemma unmarshalCondition_errors_witness :
  condition_error
    (Wrapf "failed to unmarshal condition at index %d: %w" (Some 1)
       (Wrapf "failed to unmarshal value: %w" None UnmarshalTypeError))
  = true /\
  forall v e', unmarshalValue' v = Err e' ->
               e' = UnmarshalTypeError /\ numbers_ok v = false.
Proof.
  apply (unmarshalCondition_errors
           (JObject [("op", JString "AND");
                     ("conditions",
                      JArray [JObject [("op", JString "eq");
                                       ("fieldName", JString "a");
                                       ("value", JObject [("op", JString "?")])];
                              JObject [("op", JString "eq");
                                       ("fieldName", JString "b");
                                       ("value", JNumber (10 ^ 999))]])])).
  vm_compute. reflexivity.
Defined.

(** X9. When encoding/json has stored the operator and the array of
    conditions of a group (no member [op] is anything but a string or
    null, no member [conditions] anything but an array or null) and the
    group fails, it fails on one of its children: the error carries the
    index of the first child that fails and wraps that child's error;
    every child before it decodes. *)
Theorem WhereGroup_first_failure
        (node : list (string * json)) (op : string) (elems : list json) (e : error) :
  string_field "op" node = Ok op ->
  slice_field (fun raw => Ok raw) "conditions" node = Ok elems ->
  WhereGroup_UnmarshalJSON unmarshalCondition (JObject node) = Err e ->
  exists k x cause,
    nth_error elems k = Some x /\
    unmarshalCondition x = Err cause /\
    e = Wrapf "failed to unmarshal condition at index %d: %w" (Some k) cause /\
    forall j y, j < k -> nth_error elems j = Some y ->
                exists c, unmarshalCondition y = Ok c.
Proof.
  intros Hop Hc H. rewrite (WhereGroup_children node op elems Hop Hc) in H.
  apply fmap_Err_inv in H. apply traverse_at_Err_inv in H.
  destruct H as [k [x [cause [Hn [Hf [He Hb]]]]]].
  exists k, x, cause. repeat split; auto.
Qed.

Lemma WhereGroup_first_failure_witness :
  exists k x cause,
    nth_error [JObject [("op", JString "eq"); ("fieldName", JString "a")];
               JObject [("op", JString "eq")];
               JNumber 3] k = Some x /\
    unmarshalCondition x = Err cause /\
    Wrapf "failed to unmarshal condition at index %d: %w" (Some 1) ErrUnknownCondition
    = Wrapf "failed to unmarshal condition at index %d: %w" (Some k) cause /\
    forall j y, j < k ->
                nth_error [JObject [("op", JString "eq"); ("fieldName", JString "a")];
                           JObject [("op", JString "eq")];
                           JNumber 3] j = Some y ->
                exists c, unmarshalCondition y = Ok c.
Proof.
  apply (WhereGroup_first_failure
           [("op", JNull); ("op", JString "OR");
            ("conditions", JArray [JNumber 1]);
            ("Conditions",
             JArray [JObject [("op", JString "eq"); ("fieldName", JString "a")];
                     JObject [("op", JString "eq")];
                     JNumber 3])]
           "OR").
  - reflexivity.
  - reflexivity.
  - reflexivity.
Defined.

(** A member of the wrong type makes the group fail with the type error
    of encoding/json, whatever the other members hold. *)
Example WhereGroup_type_error :
  unmarshalCondition
    (JObject [("op", JNumber 7); ("op", JString "OR"); ("conditions", JArray [JObject []])])
  = Err UnmarshalTypeError.
Proof. reflexivity. Qed.

Lemma bind_Panic_inv {A B} (r : result A) (k : A -> result B) :
  bind r k = Panic -> r = Panic \/ exists x, r = Ok x /\ k x = Panic.
Proof.
  destruct r as [a|e'|]; simpl; intros H; try discriminate.
  - right. exists a. auto.
  - left. reflexivity.
Qed.

Lemma fmap_Panic_inv {A B} (f : A -> B) (r : result A) :
  fmap f r = Panic -> r = Panic.
Proof. destruct r; simpl; intros H; try discriminate; reflexivity. Qed.

Lemma wrap_Panic_inv {A} (msg : string) (index : option nat) (r : result A) :
  wrap msg index r = Panic -> r = Panic.
Proof. destruct r; simpl; intros H; try discriminate; reflexivity. Qed.

Lemma string_field_from_no_panic (cur name : string) (aux : list (string * json)) :
  string_field_from cur name aux <> Panic.
Proof.
  unfold string_field_from.
  destruct (forallb string_or_null (bindings name aux)); discriminate.
Qed.

Lemma string_field_no_panic (name : string) (aux : list (string * json)) :
  string_field name aux <> Panic.
Proof. apply string_field_from_no_panic. Qed.

Lemma traverse_Panic_inv {A B} (f : A -> result B) (xs : list A) :
  traverse f xs = Panic -> exists x, In x xs /\ f x = Panic.
Proof.
  induction xs as [|x xs IH]; simpl; [discriminate|]. intros H.
  apply bind_Panic_inv in H. destruct H as [H|[y [_ H]]]; [eauto|].
  apply bind_Panic_inv in H. destruct H as [H|[ys [_ H]]]; [|discriminate].
  destruct (IH H) as [x' [Hin Hx]]. eauto.
Qed.

Lemma traverse_at_Panic_inv {A B} (f : A -> result B) (msg : string) (xs : list A) :
  forall i, traverse_at f msg i xs = Panic -> exists x, In x xs /\ f x = Panic.
Proof.
  induction xs as [|x xs IH]; simpl; [discriminate|]. intros i H.
  apply bind_Panic_inv in H. destruct H as [H|[y [_ H]]].
  - apply wrap_Panic_inv in H. eauto.
  - apply bind_Panic_inv in H. destruct H as [H|[ys [_ H]]]; [|discriminate].
    destruct (IH _ H) as [x' [Hin Hx]]. eauto.
Qed.

Lemma slice_field_Panic_inv {B} (k : list json -> result (list B))
      (name : string) (aux : list (string * json)) :
  slice_field k name aux = Panic ->
  exists key elems, In (key, JArray elems) aux /\ k elems = Panic.
Proof.
  unfold slice_field, field_get. intros H.
  destruct (forallb array_or_null (bindings name aux)); [|discriminate H].
  destruct (find_with _ _ name aux) as [r|] eqn:E; [|discriminate].
  apply find_with_In in E. destruct E as [key [v [Hin Hr]]]. subst r.
  destruct v; try discriminate. eauto.
Qed.

Lemma array_into_Panic_inv {A} (decode_into : A -> json -> result A) (zero : A)
      (elems : list json) :
  forall backing,
    array_into decode_into zero backing elems = Panic ->
    exists receiver x, In x elems /\ decode_into receiver x = Panic.
Proof.
  induction elems as [|x elems IH]; simpl; intros backing H; [discriminate|].
  apply bind_Panic_inv in H. destruct H as [H|[y [_ H]]]; [eauto|].
  apply bind_Panic_inv in H. destruct H as [H|[ys [_ H]]]; [|discriminate].
  destruct (IH _ H) as [receiver [x' [Hin Hx]]]. eauto.
Qed.

Lemma slice_scan_Panic_inv {A} (decode_into : A -> json -> result A) (zero : A)
      (name : string) (members : list (string * json)) :
  forall backing len saved,
    slice_scan decode_into zero name members backing len saved = Panic ->
    exists key elems receiver x,
      In (key, JArray elems) members /\ In x elems /\ decode_into receiver x = Panic.
Proof.
  induction members as [|[k v] rest IH]; intros backing len saved H;
    cbn [slice_scan] in H; [discriminate|].
  assert (Hrest : forall b l s,
             slice_scan decode_into zero name rest b l s = Panic ->
             exists key elems receiver x,
               In (key, JArray elems) ((k, v) :: rest) /\ In x elems /\
               decode_into receiver x = Panic).
  { intros b l s Hs. destruct (IH _ _ _ Hs) as [key [elems [r [x [Hin Hx]]]]].
    exists key, elems, r, x. split; [right; exact Hin | exact Hx]. }
  destruct (names_field k name); [|eauto].
  destruct v; eauto.
  apply bind_Panic_inv in H. destruct H as [H|[b [_ H]]]; [|eauto].
  apply array_into_Panic_inv in H. destruct H as [r [x [Hin Hx]]].
  exists k, elems, r, x. split; [left; reflexivity | auto].
Qed.

Lemma decode_any_no_panic (data : json) : decode_any data <> Panic.
Proof. unfold decode_any. destruct (numbers_ok data); discriminate. Qed.

Lemma any_field_no_panic (name : string) (aux : list (string * json)) :
  any_field name aux <> Panic.
Proof.
  unfold any_field. destruct (forallb numbers_ok (bindings name aux)); discriminate.
Qed.

Lemma raw_field_Panic_inv {B} (k : json -> result B) (absent : B)
      (name : string) (aux : list (string * json)) :
  raw_field k absent name aux = Panic ->
  exists key v, In (key, v) aux /\ k v = Panic.
Proof.
  unfold raw_field, field_get. intros H.
  destruct (find_with _ _ name aux) as [r|] eqn:E; [|discriminate].
  apply find_with_In in E. destruct E as [key [v [Hin Hr]]]. subst r. eauto.
Qed.

Lemma null_free_member (k : string) (v : json) (members : list (string * json)) :
  null_free (JObject members) = true -> In (k, v) members -> null_free v = true.
Proof.
  simpl. intros H Hin.
  apply (forallb_In (fun kv => null_free (snd kv)) (k, v) members H Hin).
Qed.

Lemma null_free_elem (e : json) (elems : list json) :
  null_free (JArray elems) = true -> In e elems -> null_free e = true.
Proof. simpl. intros H Hin. apply (forallb_In null_free e elems H Hin). Qed.

(** The decoders of the structs, on an object none of whose parts makes
    the two entry points panic. *)
Section NoPanic.
Variable node : list (string * json).
Hypothesis Hfree : null_free (JObject node) = true.
Hypothesis inner :
  forall v, json_size v < json_size (JObject node) -> null_free v = true ->
            unmarshalCondition v <> Panic /\ unmarshalExpression v <> Panic.

Lemma member_no_panic (k : string) (v : json) :
  In (k, v) node ->
  unmarshalCondition v <> Panic /\ unmarshalExpression v <> Panic.
Proof.
  intros Hin. apply inner.
  - apply (json_size_member _ _ _ Hin).
  - apply (null_free_member _ _ _ Hfree Hin).
Qed.

Lemma entry_no_panic (k : string) (elems : list json) (x : json) :
  In (k, JArray elems) node -> In x elems ->
  null_free x = true /\ json_size x < json_size (JObject node) /\
  unmarshalCondition x <> Panic /\ unmarshalExpression x <> Panic.
Proof.
  intros Hin Hx.
  pose proof (json_size_member _ _ _ Hin) as H1.
  pose proof (json_size_elem _ _ Hx) as H2.
  pose proof (null_free_elem _ _ (null_free_member _ _ _ Hfree Hin) Hx) as H3.
  split; [exact H3|]. split; [lia|]. apply inner; [lia|exact H3].
Qed.

Lemma value_no_panic (msg name : string) (aux : list (string * json)) :
  (forall k v, In (k, v) aux -> unmarshalExpression v <> Panic) ->
  wrap msg None (raw_field (unmarshalValue unmarshalExpression) Nil name aux) <> Panic.
Proof.
  intros Haux H. apply wrap_Panic_inv, raw_field_Panic_inv in H.
  destruct H as [k [v [Hin H]]]. unfold unmarshalValue in H.
  destruct (unmarshalExpression v) eqn:E; try discriminate.
  - apply (decode_any_no_panic v H).
  - apply (Haux k v Hin E).
Qed.

Lemma value_into_no_panic (msg name : string) (absent : any) (aux : list (string * json)) :
  (forall k v, In (k, v) aux -> unmarshalExpression v <> Panic) ->
  wrap msg None (raw_field (unmarshalValue unmarshalExpression) absent name aux) <> Panic.
Proof.
  intros Haux H. apply wrap_Panic_inv, raw_field_Panic_inv in H.
  destruct H as [k [v [Hin H]]]. unfold unmarshalValue in H.
  destruct (unmarshalExpression v) eqn:E; try discriminate.
  - apply (decode_any_no_panic v H).
  - apply (Haux k v Hin E).
Qed.

Lemma Field_no_panic (f : Field) (aux : list (string * json)) :
  (forall k v, In (k, v) aux -> unmarshalExpression v <> Panic) ->
  Field_UnmarshalJSON unmarshalExpression f (JObject aux) <> Panic.
Proof.
  intros Haux H. unfold Field_UnmarshalJSON in H.
  do 3 (apply bind_Panic_inv in H;
        destruct H as [H|[? [_ H]]]; [apply (string_field_from_no_panic _ _ _ H)|]).
  apply bind_Panic_inv in H. destruct H as [H|[? [_ H]]]; [|discriminate].
  apply wrap_Panic_inv, raw_field_Panic_inv in H.
  destruct H as [k [v [Hin H]]]. apply (Haux k v Hin H).
Qed.

Lemma decode_as_no_panic (unknown : error) (sh : shape) :
  decode_as unknown sh (JObject node) <> Panic.
Proof.
  assert (Hexp : forall k v, In (k, v) node -> unmarshalExpression v <> Panic).
  { intros k v Hin. apply (member_no_panic k v Hin). }
  destruct sh; simpl; intros H; try discriminate; apply fmap_Panic_inv in H.
  - (* Case *)
    apply bind_Panic_inv in H. destruct H as [H|[arms [_ H]]].
    + apply slice_scan_Panic_inv in H.
      destruct H as [k [elems [receiver [entry [Hin [Hx H]]]]]].
      destruct (entry_no_panic k elems entry Hin Hx) as [Hnf [Hlt _]].
      destruct entry as [| | | | |arm]; try discriminate.
      unfold WhenThen_UnmarshalJSON in H.
      assert (Harm : forall k' v', In (k', v') arm ->
                                   unmarshalCondition v' <> Panic /\
                                   unmarshalExpression v' <> Panic).
      { intros k' v' Hin'. apply inner.
        - pose proof (json_size_member _ _ _ Hin'). lia.
        - apply (null_free_member _ _ _ Hnf Hin'). }
      apply bind_Panic_inv in H. destruct H as [H|[w [_ H]]].
      * apply wrap_Panic_inv, raw_field_Panic_inv in H.
        destruct H as [k' [v' [Hin' H]]].
        destruct (Harm k' v' Hin') as [Hc He].
        destruct (unmarshalCondition v'); try discriminate; [|tauto].
        destruct (unmarshalExpression v'); try discriminate; [|tauto].
        apply (decode_any_no_panic v' H).
      * apply bind_Panic_inv in H. destruct H as [H|[t [_ H]]]; [|discriminate].
        revert H. apply value_into_no_panic.
        intros k' v' Hin'. apply (Harm k' v' Hin').
    + destruct (snd arms); [discriminate|].
      apply bind_Panic_inv in H. destruct H as [H|[els [_ H]]]; [|discriminate].
      apply wrap_Panic_inv, raw_field_Panic_inv in H. destruct H as [k [v [Hin H]]].
      pose proof (Hexp k v Hin).
      destruct (unmarshalExpression v); try discriminate; [|tauto].
      apply (decode_any_no_panic v H).
  - (* Coalesce *)
    apply bind_Panic_inv in H. destruct H as [H|[fs [_ H]]].
    + apply slice_scan_Panic_inv in H.
      destruct H as [k [elems [receiver [entry [Hin [Hx H]]]]]].
      destruct (entry_no_panic k elems entry Hin Hx) as [Hnf [Hlt _]].
      destruct entry as [| | | | |f]; try discriminate.
      revert H. apply Field_no_panic. intros k' v' Hin'. apply inner.
      * pose proof (json_size_member _ _ _ Hin'). lia.
      * apply (null_free_member _ _ _ Hnf Hin').
    + apply bind_Panic_inv in H. destruct H as [H|[d [_ H]]].
      * apply (any_field_no_panic _ _ H).
      * destruct (snd fs); discriminate.
  - (* Literal *)
    apply bind_Panic_inv in H.
    destruct H as [H|[? [_ H]]]; [apply (string_field_no_panic _ _ H)|].
    apply bind_Panic_inv in H. destruct H as [H|[args [_ H]]]; [|discriminate].
    apply slice_field_Panic_inv in H. destruct H as [k [elems [Hin H]]].
    apply traverse_at_Panic_inv in H. destruct H as [entry [Hx H]].
    destruct (entry_no_panic k elems entry Hin Hx) as [_ [_ [_ He]]].
    unfold unmarshalValue in H.
    destruct (unmarshalExpression entry); try discriminate; [|tauto].
    apply (decode_any_no_panic entry H).
  - (* Field *)
    revert H. apply (Field_no_panic (mkField "" "" "" Nil) node). exact Hexp.
  - (* RangeOp *)
    do 3 (apply bind_Panic_inv in H;
          destruct H as [H|[? [_ H]]]; [apply (string_field_no_panic _ _ H)|]).
    apply bind_Panic_inv in H.
    destruct H as [H|[? [_ H]]]; [apply (value_no_panic _ _ _ Hexp H)|].
    apply bind_Panic_inv in H.
    destruct H as [H|[? [_ H]]]; [apply (value_no_panic _ _ _ Hexp H)|].
    discriminate.
  - (* BoolOp *)
    do 3 (apply bind_Panic_inv in H;
          destruct H as [H|[? [_ H]]]; [apply (string_field_no_panic _ _ H)|]).
    apply bind_Panic_inv in H.
    destruct H as [H|[? [_ H]]]; [apply (value_no_panic _ _ _ Hexp H)|].
    discriminate.
  - (* WhereGroup *)
    apply bind_Panic_inv in H.
    destruct H as [H|[? [_ H]]]; [apply (string_field_no_panic _ _ H)|].
    apply bind_Panic_inv in H. destruct H as [H|[cs [_ H]]]; [|discriminate].
    apply slice_field_Panic_inv in H. destruct H as [k [elems [Hin H]]].
    apply traverse_at_Panic_inv in H. destruct H as [entry [Hx H]].
    destruct (entry_no_panic k elems entry Hin Hx) as [_ [_ [Hc _]]]. tauto.
Qed.
End NoPanic.

Lemma no_panic_upto (n : nat) :
  forall data, json_size data < n -> null_free data = true ->
               unmarshalCondition data <> Panic /\ unmarshalExpression data <> Panic.
Proof.
  induction n as [|n IH]; intros data Hs Hf; [lia|].
  destruct data as [| b | z | s | elems | node];
    try (rewrite unmarshalCondition_eq, unmarshalExpression_eq; split; discriminate).
  rewrite unmarshalCondition_dispatch, unmarshalExpression_dispatch.
  split; apply decode_as_no_panic; auto; intros v Hv Hvf; apply IH; auto; lia.
Qed.

(** X10. On a document in which null does not occur, neither
    [unmarshalCondition] nor [unmarshalExpression] nor [unmarshalValue]
    panics: each returns a value or an error.  (A null entry in the
    [conditions] of a CASE or in the [fields] of a COALESCE does make them
    panic.) *)
Theorem null_free_no_panic (data : json) :
  null_free data = true ->
  unmarshalCondition data <> Panic /\
  unmarshalExpression data <> Panic /\
  unmarshalValue' data <> Panic.
Proof.
  intros H.
  destruct (no_panic_upto (S (json_size data)) data (Nat.lt_succ_diag_r _) H) as [Hc He].
  repeat split; auto.
  unfold unmarshalValue', unmarshalValue.
  destruct (unmarshalExpression data); try discriminate; [|tauto].
  apply decode_any_no_panic.
Qed.

Lemma null_free_no_panic_witness :
  unmarshalCondition
    (JObject [("op", JString "eq"); ("fieldName", JString "a");
              ("value", JObject [("fields", JArray [JNumber 1])])]) <> Panic /\
  unmarshalExpression
    (JObject [("op", JString "eq"); ("fieldName", JString "a");
              ("value", JObject [("fields", JArray [JNumber 1])])]) <> Panic /\
  unmarshalValue'
    (JObject [("op", JString "eq"); ("fieldName", JString "a");
              ("value", JObject [("fields", JArray [JNumber 1])])]) <> Panic.
Proof.
  apply (null_free_no_panic
           (JObject [("op", JString "eq"); ("fieldName", JString "a");
                     ("value", JObject [("fields", JArray [JNumber 1])])])).
  reflexivity.
Defined.

(** A null entry where a struct is expected does make the decoder panic. *)
Example null_entry_panics :
  unmarshalExpression (JObject [("fields", JArray [JNull])]) = Panic /\
  unmarshalCondition
    (JObject [("op", JString "eq"); ("fieldName", JString "a");
              ("value", JObject [("fields", JArray [JNull])])]) = Panic.
Proof. split; reflexivity. Qed.

(** ** The SELECT statement *)

Lemma add_joins_nil (ds : SelectDataset) : add_joins [] ds = ds.
Proof. destruct ds. simpl. rewrite app_nil_r. reflexivity. Qed.

Lemma add_joins_add_joins (js1 js2 : list Join) (ds : SelectDataset) :
  add_joins js2 (add_joins js1 ds) = add_joins (js1 ++ js2)%list ds.
Proof. destruct ds. simpl. rewrite app_assoc. reflexivity. Qed.

Lemma thread_app {A S} (step : A -> S -> result S) (xs ys : list A) (s : S) :
  thread step (xs ++ ys) s = (s' <- thread step xs s ;; thread step ys s').
Proof.
  revert s. induction xs as [|x xs IH]; intros s; simpl; [reflexivity|].
  destruct (step x s); simpl; auto.
Qed.

(** A list of relations adds the joins of its relations, one after the
    other, given that each relation does. *)
Lemma thread_joins (relations : list Relation) :
  Forall (fun r => forall ds ds',
              Relation_join r ds = Ok ds' ->
              exists js, ds' = add_joins js ds /\
                         Forall2 joined (Relation_preorder r) js) relations ->
  forall ds ds',
    thread Relation_join relations ds = Ok ds' ->
    exists js, ds' = add_joins js ds /\
               Forall2 joined (flat_map Relation_preorder relations) js.
Proof.
  induction 1 as [|r rs Hr _ IH]; simpl; intros ds ds' H.
  - inversion H; subst. exists []. split; [symmetry; apply add_joins_nil|constructor].
  - apply bind_Ok_inv in H. destruct H as [ds1 [H1 H]].
    destruct (Hr _ _ H1) as [js1 [-> Hj1]].
    destruct (IH _ _ H) as [js2 [-> Hj2]].
    exists (js1 ++ js2)%list. split; [apply add_joins_add_joins|].
    apply Forall2_app; assumption.
Qed.

Lemma Relation_join_preorder (n : nat) :
  forall r ds ds',
    Relation_depth r < n ->
    Relation_join r ds = Ok ds' ->
    exists js, ds' = add_joins js ds /\ Forall2 joined (Relation_preorder r) js.
Proof.
  induction n as [|n IH]; intros r ds ds' Hd H; [lia|].
  destruct r as [jt on [tn ta relations]].
  rewrite Relation_join_eq in H.
  apply bind_Ok_inv in H. destruct H as [onConds [Hon H]].
  apply thread_joins in H.
  - destruct H as [js [-> Hjs]].
    exists (mkJoin (method_of jt) (tn, ta) onConds :: js). split.
    + destruct ds. simpl. rewrite <- app_assoc. destruct jt; reflexivity.
    + simpl. constructor; [|exact Hjs].
      repeat split. exact Hon.
  - apply Forall_forall. intros child Hin s s' Hs.
    simpl in Hd. pose proof (Relation_depth_child child relations Hin).
    apply (IH child s s'); [lia|exact Hs].
Qed.

Lemma mainSelect_joins (relations : list Relation) (ds ds' : SelectDataset) :
  thread Relation_join relations ds = Ok ds' ->
  exists js, ds' = add_joins js ds /\
             Forall2 joined (flat_map Relation_preorder relations) js.
Proof.
  apply thread_joins. apply Forall_forall. intros r _ s s' Hs.
  apply (Relation_join_preorder (S (Relation_depth r)) r s s'); [lia|exact Hs].
Qed.

Lemma mainSelect_dataset (qb : SQLBuilder) (ds : SelectDataset) :
  mainSelect qb = Ok ds ->
  sd_from ds = (Table_Name (SQLBuilder_Table qb), Table_Alias (SQLBuilder_Table qb)) /\
  sd_dialect ds = Dialect qb /\
  Forall2 joined
          (flat_map Relation_preorder (Table_Relations (SQLBuilder_Table qb)))
          (sd_joins ds) /\
  Forall2 (fun f x => fmap to_any (Field_expression f) = Ok x) (Fields qb) (sd_select ds) /\
  Forall2 (fun w x => handleAny w [] = Ok x) (Wheres qb) (sd_where ds) /\
  sd_order ds = map Sort_expression (Sorts qb) /\
  length (sd_groupBy ds) = length (GroupBy qb) /\
  sd_limit ds = None /\ sd_offset ds = None /\ sd_prepared ds = false.
Proof.
  destruct qb as [dialect fields [tn ta relations] wheres sorts groupBy l o].
  rewrite mainSelect_eq. intros H.
  apply bind_Ok_inv in H. destruct H as [ds1 [H1 H]].
  apply mainSelect_joins in H1. destruct H1 as [js [-> Hjs]].
  apply bind_Ok_inv in H. destruct H as [ds2 [H2 H]].
  apply bind_Ok_inv in H. destruct H as [ds3 [H3 H]].
  assert (Hsel : exists selects,
             ds2 = SelectDataset.Select selects
                     (add_joins js (SelectDataset.WithDialect dialect
                                      (SelectDataset.From tn ta))) /\
             Forall2 (fun f x => fmap to_any (Field_expression f) = Ok x) fields selects).
  { destruct fields as [|f fs].
    - inversion H2; subst. exists []. split; [reflexivity|constructor].
    - apply bind_Ok_inv in H2. destruct H2 as [selects [Hs H2]].
      inversion H2; subst. exists selects. split; [reflexivity|].
      apply traverse_Ok_inv in Hs. exact Hs. }
  destruct Hsel as [selects [-> Hsel]].
  assert (Hwh : exists es,
             ds3 = SelectDataset.Where es
                     (SelectDataset.Select selects
                        (add_joins js (SelectDataset.WithDialect dialect
                                         (SelectDataset.From tn ta)))) /\
             Forall2 (fun w x => handleAny w [] = Ok x) wheres es).
  { destruct wheres as [|w ws].
    - inversion H3; subst. exists []. split; [reflexivity|constructor].
    - apply bind_Ok_inv in H3. destruct H3 as [es [Hs H3]].
      inversion H3; subst. exists es. split; [reflexivity|].
      apply traverse_Ok_inv in Hs. exact Hs. }
  destruct Hwh as [es [-> Hwh]].
  inversion H; subst; clear H.
  destruct sorts as [|s ss], groupBy as [|g gs]; simpl;
    repeat split; auto; rewrite ?length_map; reflexivity.
Qed.

(** X11. The dataset [mainSelect] builds, clause by clause: FROM is the
    builder's table under its alias; there is one join call per relation,
    a relation before the relations nested in its table and these before
    its next sibling, each with the method of its join type (the plain
    [Join] for any type but inner, left and right) and the expressions of
    its conditions; the select list, the WHERE list and the ORDER BY list
    have one entry per field, condition and sort of the builder, in order;
    LIMIT and OFFSET are not set. *)
Theorem mainSelect_clauses (qb : SQLBuilder) (ds : SelectDataset) :
  mainSelect qb = Ok ds ->
  sd_from ds = (Table_Name (SQLBuilder_Table qb), Table_Alias (SQLBuilder_Table qb)) /\
  sd_dialect ds = Dialect qb /\
  Forall2 joined
          (flat_map Relation_preorder (Table_Relations (SQLBuilder_Table qb)))
          (sd_joins ds) /\
  Forall2 (fun f x => fmap to_any (Field_expression f) = Ok x) (Fields qb) (sd_select ds) /\
  Forall2 (fun w x => handleAny w [] = Ok x) (Wheres qb) (sd_where ds) /\
  sd_order ds = map Sort_expression (Sorts qb) /\
  length (sd_groupBy ds) = length (GroupBy qb) /\
  sd_limit ds = None /\ sd_offset ds = None /\ sd_prepared ds = false.
Proof. apply mainSelect_dataset. Qed.

Lemma mainSelect_clauses_witness :
  let qb :=
    mkSQLBuilder "postgres"
      [mkField "id" "u" "" Nil]
      (mkTable "users" "u"
         [mkRelation LeftJoinType
            [OfBoolOp (mkBoolOp EqOp "user_id" "o" (OfField (mkField "id" "u" "" Nil)))]
            (mkTable "orders" "o"
               [mkRelation CrossJoinType [] (mkTable "items" "i" [])]);
          mkRelation InnerJoinType [] (mkTable "roles" "r" [])])
      [OfBoolOp (mkBoolOp EqOp "status" "u" (GoString "active"))]
      [mkSort "id" "u" DescSortDir]
      [] 10%N 0%N in
  let ds :=
    mkSelectDataset ("users", "u") "postgres"
      [mkJoin LeftJoin ("orders", "o")
         [Some (BooleanMethod EqOp (goqu_C_Table "user_id" "o")
                  (OfExpression (goqu_C_Table "id" "u")))];
       mkJoin PlainJoin ("items", "i") [];
       mkJoin InnerJoin ("roles", "r") []]
      [OfExpression (goqu_C_Table "id" "u")]
      [Some (BooleanMethod EqOp (goqu_C_Table "status" "u")
               (OfExpression (goqu_V (GoString "active"))))]
      [Desc (goqu_C_Table "id" "u")] [] None None false in
  sd_from ds = (Table_Name (SQLBuilder_Table qb), Table_Alias (SQLBuilder_Table qb)) /\
  sd_dialect ds = Dialect qb /\
  Forall2 joined
          (flat_map Relation_preorder (Table_Relations (SQLBuilder_Table qb)))
          (sd_joins ds) /\
  Forall2 (fun f x => fmap to_any (Field_expression f) = Ok x) (Fields qb) (sd_select ds) /\
  Forall2 (fun w x => handleAny w [] = Ok x) (Wheres qb) (sd_where ds) /\
  sd_order ds = map Sort_expression (Sorts qb) /\
  length (sd_groupBy ds) = length (GroupBy qb) /\
  sd_limit ds = None /\ sd_offset ds = None /\ sd_prepared ds = false.
Proof.
  intros qb ds. apply (mainSelect_clauses qb ds). reflexivity.
Defined.

(** X12. [Count] hands goqu the dataset [Select] hands it, with the
    select list replaced by COUNT( * ): the joins, the conditions, ORDER BY,
    GROUP BY, LIMIT and OFFSET of the builder are all kept, so that the
    count of a builder made by [New] carries LIMIT 10.  The two methods
    fail together. *)
Theorem Count_as_Select (qb : SQLBuilder) :
  Count qb =
  match Select qb with
  | Ok (SelectDataset_ToSQL ds) =>
      Ok (SelectDataset_ToSQL (SelectDataset.Select [OfExpression goqu_COUNT_Star] ds))
  | other => other
  end /\
  (forall ds, Select qb = Ok (SelectDataset_ToSQL ds) ->
              sd_limit ds = clause_of (limit qb) /\
              sd_offset ds = clause_of (offset qb) /\
              sd_order ds = map Sort_expression (Sorts qb)) /\
  (forall ds ds', Select qb = Ok (SelectDataset_ToSQL ds) ->
                  Count qb = Ok (SelectDataset_ToSQL ds') ->
                  sd_select ds' = [OfExpression goqu_COUNT_Star] /\
                  sd_from ds' = sd_from ds /\ sd_joins ds' = sd_joins ds /\
                  sd_where ds' = sd_where ds /\ sd_order ds' = sd_order ds /\
                  sd_groupBy ds' = sd_groupBy ds /\
                  sd_limit ds' = sd_limit ds /\ sd_offset ds' = sd_offset ds).
Proof.
  unfold Count, Select.
  destruct (mainSelect qb) as [ds0| |] eqn:E; simpl.
  - split; [reflexivity|]. split.
    + intros ds H. inversion H; subst; clear H.
      destruct (mainSelect_dataset qb ds0 E) as (_ & _ & _ & _ & _ & Ho & _ & Hl & Hoff & _).
      unfold applyLimitOffset, clause_of.
      destruct ds0 as [f d j s w o g l off p]. simpl in *. subst.
      destruct (0 <? limit qb)%N, (0 <? offset qb)%N; repeat split; reflexivity.
    + intros ds ds' H H'. inversion H; subst; clear H. inversion H'; subst; clear H'.
      destruct (applyLimitOffset qb ds0). repeat split; reflexivity.
  - repeat split; intros; discriminate.
  - repeat split; intros; discriminate.
Qed.

(** X13. [Edit] and [Delete] compile the conditions of the builder as
    [Select] does, and use nothing else of it but the table name (without
    its alias) and the dialect: fields, joins, sorts, grouping, limit and
    offset are ignored. *)
Theorem Edit_Delete_conditions
        (qb : SQLBuilder) (ds : SelectDataset) (entry : list (string * any)) :
  Wheres qb <> [] ->
  Select qb = Ok (SelectDataset_ToSQL ds) ->
  Delete qb = Ok (DeleteDataset_ToSQL
                    (mkDeleteDataset (Table_Name (SQLBuilder_Table qb)) (Dialect qb)
                                     (sd_where ds) true)) /\
  Edit entry qb = Ok (UpdateDataset_ToSQL
                        (mkUpdateDataset (Table_Name (SQLBuilder_Table qb)) (Dialect qb)
                                         (sd_where ds) entry true)) /\
  forall fields alias relations sorts groupBy l o,
    let qb' := mkSQLBuilder (Dialect qb) fields
                 (mkTable (Table_Name (SQLBuilder_Table qb)) alias relations)
                 (Wheres qb) sorts groupBy l o in
    Delete qb' = Delete qb /\ Edit entry qb' = Edit entry qb.
Proof.
  intros Hne H. unfold Select in H.
  apply bind_Ok_inv in H. destruct H as [ds0 [E H]]. inversion H; subst; clear H.
  destruct (mainSelect_dataset qb ds0 E) as (_ & _ & _ & _ & Hw & _).
  assert (Hwhere : where_expressions (Wheres qb) = Ok (sd_where ds0)).
  { unfold where_expressions. apply traverse_Forall2 with (P := fun w x => handleAny w [] = Ok x);
      auto. }
  assert (Hsame : sd_where (SelectDataset.Prepared true (applyLimitOffset qb ds0))
                  = sd_where ds0).
  { unfold applyLimitOffset. destruct ds0.
    destruct (0 <? limit qb)%N, (0 <? offset qb)%N; reflexivity. }
  rewrite Hsame.
  assert (Hlen : (length (Wheres qb) =? 0)%nat = false).
  { destruct (Wheres qb); [contradiction|reflexivity]. }
  split; [|split].
  - unfold Delete. rewrite Hlen, Hwhere. reflexivity.
  - unfold Edit. rewrite Hlen, Hwhere. reflexivity.
  - intros. split; reflexivity.
Qed.

Lemma Edit_Delete_conditions_witness :
  let qb := Where [OfBoolOp (mkBoolOp EqOp "id" "" (GoInt 7))]
                  (New "postgres" "users" "u") in
  let ds :=
    mkSelectDataset ("users", "u") "postgres" [] []
      [Some (BooleanMethod EqOp (goqu_C_Table "id" "")
               (OfExpression (goqu_V (GoInt 7))))]
      [] [] (Some 10%N) None true in
  let entry := [("name", GoString "x")] in
  Delete qb = Ok (DeleteDataset_ToSQL
                    (mkDeleteDataset (Table_Name (SQLBuilder_Table qb)) (Dialect qb)
                                     (sd_where ds) true)) /\
  Edit entry qb = Ok (UpdateDataset_ToSQL
                        (mkUpdateDataset (Table_Name (SQLBuilder_Table qb)) (Dialect qb)
                                         (sd_where ds) entry true)) /\
  forall fields alias relations sorts groupBy l o,
    let qb' := mkSQLBuilder (Dialect qb) fields
                 (mkTable (Table_Name (SQLBuilder_Table qb)) alias relations)
                 (Wheres qb) sorts groupBy l o in
    Delete qb' = Delete qb /\ Edit entry qb' = Edit entry qb.
Proof.
  intros qb ds entry. apply (Edit_Delete_conditions qb ds entry).
  - discriminate.
  - reflexivity.
Defined.
(** ** The builder methods *)

Lemma mainSelect_select_clauses (qb : SQLBuilder) :
  mainSelect qb =
  (ds <- thread Relation_join (Table_Relations (SQLBuilder_Table qb)) (base_dataset qb) ;;
   select_clauses qb ds).
Proof.
  destruct qb as [dialect fields [tn ta relations] wheres sorts groupBy l o].
  reflexivity.
Qed.

Lemma select_clauses_add_joins (qb : SQLBuilder) (js : list Join) (ds : SelectDataset) :
  select_clauses qb (add_joins js ds) = fmap (add_joins js) (select_clauses qb ds).
Proof.
  unfold select_clauses.
  destruct (Fields qb) as [|f fs].
  - simpl. destruct (Wheres qb) as [|w ws].
    + simpl. destruct (Sorts qb), (GroupBy qb), ds; reflexivity.
    + destruct (traverse _ (w :: ws)); simpl; try reflexivity.
      destruct (Sorts qb), (GroupBy qb), ds; reflexivity.
  - destruct (traverse _ (f :: fs)); simpl; try reflexivity.
    destruct (Wheres qb) as [|w ws].
    + simpl. destruct (Sorts qb), (GroupBy qb), ds; reflexivity.
    + destruct (traverse _ (w :: ws)); simpl; try reflexivity.
      destruct (Sorts qb), (GroupBy qb), ds; reflexivity.
Qed.

Lemma select_clauses_Where
      (qb : SQLBuilder) (conditions : list any) (es : list (option Expression))
      (ds0 ds : SelectDataset) :
  select_clauses qb ds0 = Ok ds ->
  where_expressions conditions = Ok es ->
  select_clauses (Where conditions qb) ds0 = Ok (SelectDataset.Where es ds).
Proof.
  destruct qb as [dialect fields table wheres sorts groupBy l o].
  unfold select_clauses, where_expressions. simpl. intros H Hes.
  apply bind_Ok_inv in H. destruct H as [ds1 [H1 H]]. rewrite H1. simpl.
  apply bind_Ok_inv in H. destruct H as [ds2 [H2 H]].
  inversion H; subst; clear H.
  destruct wheres as [|w ws].
  - inversion H2; subst; clear H2. simpl app.
    destruct conditions as [|c cs].
    + inversion Hes; subst. simpl.
      destruct sorts, groupBy, ds2; simpl; rewrite app_nil_r; reflexivity.
    + rewrite Hes. simpl. destruct sorts, groupBy, ds2; reflexivity.
  - apply bind_Ok_inv in H2. destruct H2 as [es0 [H0 H2]]. inversion H2; subst; clear H2.
    change ((w :: ws) ++ conditions)%list with (w :: (ws ++ conditions)%list).
    assert (Hall : traverse (fun w => handleAny w []) (w :: (ws ++ conditions)%list)
                   = Ok (es0 ++ es)%list).
    { change (w :: (ws ++ conditions)%list) with ((w :: ws) ++ conditions)%list.
      rewrite traverse_app, H0, Hes. reflexivity. }
    rewrite Hall. simpl.
    destruct sorts, groupBy, ds1; simpl; rewrite app_assoc; reflexivity.
Qed.

(** The joins a relation adds do not depend on the dataset it is applied
    to. *)
Lemma thread_joins_uniform (relations : list Relation) :
  Forall (fun r => forall s s1, Relation_join r s = Ok s1 ->
                                exists js, forall s', Relation_join r s' = Ok (add_joins js s'))
         relations ->
  forall s s1, thread Relation_join relations s = Ok s1 ->
               exists js, forall s', thread Relation_join relations s' = Ok (add_joins js s').
Proof.
  induction 1 as [|r rs Hr _ IH]; simpl; intros s s1 H.
  - exists []. intros s'. rewrite add_joins_nil. reflexivity.
  - apply bind_Ok_inv in H. destruct H as [s2 [H2 H]].
    destruct (Hr _ _ H2) as [js1 Hjs1]. destruct (IH _ _ H) as [js2 Hjs2].
    exists (js1 ++ js2)%list. intros s'.
    rewrite Hjs1. simpl. rewrite Hjs2, add_joins_add_joins. reflexivity.
Qed.

Lemma Relation_join_uniform (n : nat) :
  forall r s s1,
    Relation_depth r < n ->
    Relation_join r s = Ok s1 ->
    exists js, forall s', Relation_join r s' = Ok (add_joins js s').
Proof.
  induction n as [|n IH]; intros r s s1 Hd H; [lia|].
  destruct r as [jt on [tn ta relations]].
  rewrite Relation_join_eq in H.
  apply bind_Ok_inv in H. destruct H as [onConds [Hon H]].
  apply thread_joins_uniform in H.
  - destruct H as [js Hjs].
    exists (mkJoin (method_of jt) (tn, ta) onConds :: js). intros s'.
    rewrite Relation_join_eq, Hon. simpl. rewrite Hjs.
    destruct s'. simpl. rewrite <- app_assoc. destruct jt; reflexivity.
  - apply Forall_forall. intros child Hin s2 s3 Hs.
    simpl in Hd. pose proof (Relation_depth_child child relations Hin).
    apply (IH child s2 s3); [lia|exact Hs].
Qed.

Lemma mainSelect_Join (qb : SQLBuilder) (jt : JoinType) (table : Table) (on : list any) :
  mainSelect (Builder.Join jt table on qb) =
  (ds1 <- thread Relation_join (Table_Relations (SQLBuilder_Table qb)) (base_dataset qb) ;;
   ds2 <- Relation_join (mkRelation jt on table) ds1 ;;
   select_clauses qb ds2).
Proof.
  destruct qb as [dialect fields [tn ta relations] wheres sorts groupBy l o].
  rewrite mainSelect_select_clauses.
  unfold Builder.Join.
  cbn [Table_Relations SQLBuilder_Table].
  rewrite thread_app.
  change (base_dataset
            (mkSQLBuilder dialect fields
               (mkTable tn ta (relations ++ [mkRelation jt on table])) wheres
               sorts groupBy l o))
    with (base_dataset (mkSQLBuilder dialect fields (mkTable tn ta relations)
                                     wheres sorts groupBy l o)).
  destruct (thread Relation_join relations _) as [ds1| |]; [|reflexivity|reflexivity].
  cbv beta iota delta [bind thread].
  destruct (Relation_join (mkRelation jt on table) ds1); reflexivity.
Qed.

(** X14. The builder methods accumulate.  Conditions added by a later
    [Where] call are compiled after those already there and appended to
    the WHERE list; a relation added by [Join] (hence by [InnerJoin],
    [LeftJoin] and [RightJoin]) is joined after every relation already
    there, the nested ones included, by the join calls it makes on any
    dataset; the rest of the statement is unchanged. *)
Theorem builder_accumulates
        (qb : SQLBuilder) (ds : SelectDataset)
        (conditions : list any) (es : list (option Expression))
        (r : Relation) (s s1 : SelectDataset) :
  mainSelect qb = Ok ds ->
  where_expressions conditions = Ok es ->
  Relation_join r s = Ok s1 ->
  mainSelect (Where conditions qb) = Ok (SelectDataset.Where es ds) /\
  exists js,
    s1 = add_joins js s /\
    Forall2 joined (Relation_preorder r) js /\
    mainSelect (Builder.Join (Relation_JoinType r) (Relation_Table r) (Relation_On r) qb)
    = Ok (add_joins js ds).
Proof.
  intros H Hes Hr.
  rewrite mainSelect_select_clauses in H.
  apply bind_Ok_inv in H. destruct H as [ds1 [H1 H]].
  split.
  - rewrite mainSelect_select_clauses.
    replace (Table_Relations (SQLBuilder_Table (Where conditions qb)))
      with (Table_Relations (SQLBuilder_Table qb)) by (destruct qb; reflexivity).
    replace (base_dataset (Where conditions qb)) with (base_dataset qb)
      by (destruct qb; reflexivity).
    rewrite H1. simpl. apply select_clauses_Where; assumption.
  - destruct (Relation_join_uniform (S (Relation_depth r)) r s s1) as [js Hjs];
      [lia|exact Hr|].
    exists js.
    assert (Hs1 : s1 = add_joins js s).
    { rewrite Hjs in Hr. inversion Hr. reflexivity. }
    split; [exact Hs1|]. split.
    + destruct (Relation_join_preorder (S (Relation_depth r)) r s s1) as [js' [Hs1' Hj]];
        [lia|exact Hr|].
      replace js with js'; [exact Hj|].
      rewrite Hs1 in Hs1'. destruct s. simpl in Hs1'. inversion Hs1'.
      apply app_inv_head in H2. auto.
    + rewrite mainSelect_Join, H1.
      replace (mkRelation (Relation_JoinType r) (Relation_On r) (Relation_Table r))
        with r by (destruct r; reflexivity).
      cbv beta iota delta [bind]. rewrite Hjs.
      rewrite select_clauses_add_joins, H. reflexivity.
Qed.

Lemma builder_accumulates_witness :
  let qb := Where [OfBoolOp (mkBoolOp EqOp "status" "u" (GoString "active"))]
                  (New "postgres" "users" "u") in
  let ds :=
    mkSelectDataset ("users", "u") "postgres" [] []
      [Some (BooleanMethod EqOp (goqu_C_Table "status" "u")
               (OfExpression (goqu_V (GoString "active"))))]
      [] [] None None false in
  let conditions := [OfRangeOp (mkRangeOp BetweenOp "age" "u" (GoInt 18) (GoInt 65))] in
  let es := [Some (Between (goqu_C_Table "age" "u")
                     (goqu_Range (OfExpression (goqu_V (GoInt 18)))
                                 (OfExpression (goqu_V (GoInt 65)))))] in
  let r := mkRelation LeftJoinType
             [OfBoolOp (mkBoolOp EqOp "user_id" "o" (OfField (mkField "id" "u" "" Nil)))]
             (mkTable "orders" "o" []) in
  let s := SelectDataset.From "t" "" in
  let s1 := SelectDataset.JoinWith LeftJoin ("orders", "o")
              [Some (BooleanMethod EqOp (goqu_C_Table "user_id" "o")
                       (OfExpression (goqu_C_Table "id" "u")))] s in
  mainSelect (Where conditions qb) = Ok (SelectDataset.Where es ds) /\
  exists js,
    s1 = add_joins js s /\
    Forall2 joined (Relation_preorder r) js /\
    mainSelect (Builder.Join (Relation_JoinType r) (Relation_Table r) (Relation_On r) qb)
    = Ok (add_joins js ds).
Proof.
  intros qb ds conditions es r s s1.
  apply (builder_accumulates qb ds conditions es r s s1); reflexivity.
Defined.

(** ** Aliases *)

(** X15. A [Field] that embeds an expression and has an alias or a name
    compiles to the expression of what it embeds, labelled -- with the
    alias, or with the name when there is no alias -- only when the
    embedded value is a [Literal], a [Case] or a [Coalesce] (or a pointer
    to one).  For any other embedded value (a sub-query, another field, a
    condition, a goqu expression, a plain value) the label is dropped. *)
Theorem Field_expression_label (name tableAlias fieldAlias : string) (e : any) :
  is_nil e = false ->
  negb (fieldAlias =? "") || negb (name =? "") = true ->
  Field_expression (mkField name tableAlias fieldAlias e)
  = if takes_alias (tested e)
    then fmap (option_map
                 (fun x => As x (if negb (fieldAlias =? "") then fieldAlias else name)))
              (handleAny e [])
    else handleAny e [].
Proof.
  intros Hnil Hlabel. rewrite Field_expression_eq, Hnil.
  set (label := if negb (fieldAlias =? "") then fieldAlias else name).
  assert (Hne : (label =? "") = false).
  { unfold label. destruct (fieldAlias =? "") eqn:E1; simpl in *.
    - destruct (name =? ""); [discriminate|reflexivity].
    - exact E1. }
  replace (if negb (fieldAlias =? "") then withAlias fieldAlias
           else if negb (name =? "") then withAlias name else None)
    with (withAlias label).
  2:{ unfold label. destruct (fieldAlias =? ""); simpl in *; [|reflexivity].
      rewrite Hlabel. reflexivity. }
  assert (Hwith : forall x, with_alias (mkOptions label) x = As x label).
  { intros x. unfold with_alias. simpl. rewrite Hne. reflexivity. }
  assert (Htests : forall a,
             typeTests a (mkOptions label)
             = if takes_alias a
               then fmap (option_map (fun x => As x label)) (typeTests a (mkOptions ""))
               else typeTests a (mkOptions "")).
  { intros a. destruct a; try reflexivity; simpl.
    - destruct (Literal_expression l); simpl; rewrite ?Hwith; reflexivity.
    - destruct (Case_expression c); simpl; rewrite ?Hwith; reflexivity.
    - destruct (Coalesce_expression co); simpl; rewrite ?Hwith; reflexivity. }
  destruct e as [| t | p | | | | | | | | | | | | | | | x | ]; try discriminate Hnil;
    try (rewrite !handleAny_value by reflexivity; apply Htests).
  - reflexivity.
  - rewrite !handleAny_Pointer. simpl apply_opts. cbv beta iota delta [bind].
    apply Htests.
  - destruct x; try (rewrite !handleAny_value by reflexivity; apply Htests).
    reflexivity.
Qed.

Lemma Field_expression_label_witness :
  Field_expression (mkField "" "" "total" (OfSQLBuilder (New "postgres" "orders" "o")))
  = if takes_alias (tested (OfSQLBuilder (New "postgres" "orders" "o")))
    then fmap (option_map
                 (fun x => As x (if negb ("total" =? "") then "total" else "")))
              (handleAny (OfSQLBuilder (New "postgres" "orders" "o")) [])
    else handleAny (OfSQLBuilder (New "postgres" "orders" "o")) [].
Proof.
  apply (Field_expression_label "" "" "total" (OfSQLBuilder (New "postgres" "orders" "o")));
    reflexivity.
Defined.
